(** * Pyoro for Pebble: the simulation core of [src/c/birdbeansgame.c]

    A shallow embedding of the richer variant of the game (step queue,
    pink beans, repair angel, high-score table): the data of [Game] and of
    the file-level statics, [apply_pyoro_step], [insert_high_score],
    [init_game], [reset_game], [find_destroyed_block], [spawn_bean],
    [spawn_angel], [check_collision], [update_game] and the five button
    handlers.

    C [float] is IEEE binary32, modelled bit-exactly by the Standard
    Library's [spec_float] operations at precision 24 and maximal exponent
    128 (round to nearest, ties to even, one rounding per operation).  C
    [int] is modelled by [Z], which agrees with the program as long as no
    signed addition overflows (undefined in C); a statement about the value
    of the score in an arbitrary state carries that bound as a hypothesis.
    [rand()] results are inputs of the tick.
    Rendering, bitmap handles, timers and the persistent store are left
    out: no function below reads them. *)

From stdpp Require Import base list.
From Stdlib Require Import ZArith NArith Floats.SpecFloat Lia.

Local Open Scope Z_scope.

(** ** binary32 arithmetic *)

Module F32.

Definition prec : Z := 24.
Definition emax : Z := 128.

Definition f32 : Type := spec_float.

(** [(float) n] for a C [int] [n]. *)
Definition of_int (n : Z) : f32 := binary_normalize prec emax n 0 false.

Definition add : f32 → f32 → f32 := SFadd prec emax.
Definition sub : f32 → f32 → f32 := SFsub prec emax.
Definition mul : f32 → f32 → f32 := SFmul prec emax.
Definition div : f32 → f32 → f32 := SFdiv prec emax.

Definition ltb : f32 → f32 → bool := SFltb.
Definition leb : f32 → f32 → bool := SFleb.
Definition gtb (x y : f32) : bool := SFltb y x.
Definition geb (x y : f32) : bool := SFleb y x.

(** The literal with digits [n] and [k] decimals ([lit 18 1] is [1.8f]):
    the quotient of two exactly representable integers, rounded once. *)
Definition lit (n k : Z) : f32 := div (of_int n) (of_int (10 ^ k)).

(** [(int) x]: truncation toward zero.  C leaves the conversion of a NaN
    or an infinity undefined; the model returns 0 there. *)
Definition to_int (x : f32) : Z :=
  match x with
  | S754_finite s m e =>
      cond_Zopp s
        match e with
        | Z0 => Zpos m
        | Zpos _ => Zpos m * 2 ^ e
        | Zneg p => Zpos m / 2 ^ Zpos p
        end
  | _ => 0
  end.

Definition is_nan (x : f32) : bool :=
  match x with S754_nan => true | _ => false end.

End F32.

Import F32.

Arguments of_int : simpl never.
Arguments add : simpl never.
Arguments sub : simpl never.
Arguments mul : simpl never.
Arguments div : simpl never.
Arguments ltb : simpl never.
Arguments leb : simpl never.
Arguments gtb : simpl never.
Arguments geb : simpl never.
Arguments lit : simpl never.
Arguments to_int : simpl never.

Declare Scope f32_scope.
Delimit Scope f32_scope with f32.
Bind Scope f32_scope with f32.
Infix "+~" := add (at level 50, left associativity) : f32_scope.
Infix "-~" := sub (at level 50, left associativity) : f32_scope.
Infix "*~" := mul (at level 40, left associativity) : f32_scope.
Infix "/~" := div (at level 40, left associativity) : f32_scope.
Infix "<~" := ltb (at level 70, no associativity) : f32_scope.
Infix "<=~" := leb (at level 70, no associativity) : f32_scope.
Infix ">~" := gtb (at level 70, no associativity) : f32_scope.
Infix ">=~" := geb (at level 70, no associativity) : f32_scope.

(** ** Game constants *)

Definition GAME_WIDTH : Z := 20.
Definition GAME_HEIGHT : Z := 20.
Definition PYORO_SIZE : Z := 2.
Definition PYORO_VISUAL_SIZE : Z := 5.
Definition BEAN_SIZE : Z := 2.
Definition TONGUE_WIDTH : Z := 2.
Definition TONGUE_SPEED : f32 := lit 150 1.
Definition BEAN_SPEED : f32 := lit 18 1.
Definition PYORO_SINGLE_STEP : f32 := lit 25 2.
Definition PYORO_PENDING_STEPS_MAX : Z := 60.
Definition BEAN_SPAWN_FREQUENCY : f32 := lit 20 1.
Definition SPEED_ACCELERATION : f32 := lit 1 2.
Definition DEATH_DELAY : f32 := lit 10 1.
Definition ANGEL_SPEED : f32 := lit 350 1.
Definition NUM_BACKGROUNDS : Z := 21.
Definition SCORE_PER_BACKGROUND : Z := 40.
Definition NUM_HIGH_SCORES : nat := 10.
Definition HIGH_SCORE_EMPTY : Z := -1.
Definition NUM_BEANS : nat := 5.

(** ** Game state *)

Record Tongue := mkTongue {
  t_active : bool;
  t_x : f32;
  t_y : f32;
  t_direction : Z;
  going_back : bool;
  caught_bean : bool
}.

Record Pyoro := mkPyoro {
  p_x : f32;
  p_y : f32;
  direction : Z;
  moving : bool;
  dead : bool;
  button_held : bool;
  tongue : Tongue
}.

Inductive BeanType := BEAN_TYPE_GREEN | BEAN_TYPE_PINK.

Record Bean := mkBean {
  b_x : f32;
  b_y : f32;
  speed : f32;
  b_active : bool;
  caught : bool;
  b_type : BeanType
}.

Record Block := mkBlock {
  exists_ : bool;
  is_repairing : bool
}.

Record Angel := mkAngel {
  a_x : f32;
  a_y : f32;
  a_active : bool;
  target_block_index : Z;
  going_up : bool
}.

Inductive GameState := GAME_STATE_MENU | GAME_STATE_PLAYING | GAME_STATE_GAME_OVER.

Record Game := mkGame {
  state : GameState;
  pyoro : Pyoro;
  beans : list Bean;
  blocks : list Block;
  angel : Angel;
  score : Z;
  game_speed : f32;
  bean_spawn_timer : f32;
  death_timer : f32;
  game_paused : bool
}.

(** The file-level statics the simulation reads or writes. *)
Record World := mkWorld {
  s_game : Game;
  s_pending_step_dir : Z;
  s_pending_step_count : Z;
  s_high_scores : list Z;
  s_last_game_score : Z;
  s_background_index : Z;
  s_frame_count : Z
}.

#[global] Instance BeanType_eq_dec : EqDecision BeanType.
Proof. solve_decision. Defined.
#[global] Instance GameState_eq_dec : EqDecision GameState.
Proof. solve_decision. Defined.

(** Field updates. *)

Definition set_tongue (t : Tongue) (p : Pyoro) : Pyoro :=
  mkPyoro (p_x p) (p_y p) (direction p) (moving p) (dead p) (button_held p) t.
Definition set_p_x (x : f32) (p : Pyoro) : Pyoro :=
  mkPyoro x (p_y p) (direction p) (moving p) (dead p) (button_held p) (tongue p).
Definition set_direction (d : Z) (p : Pyoro) : Pyoro :=
  mkPyoro (p_x p) (p_y p) d (moving p) (dead p) (button_held p) (tongue p).
Definition set_moving (m : bool) (p : Pyoro) : Pyoro :=
  mkPyoro (p_x p) (p_y p) (direction p) m (dead p) (button_held p) (tongue p).
Definition set_dead (d : bool) (p : Pyoro) : Pyoro :=
  mkPyoro (p_x p) (p_y p) (direction p) (moving p) d (button_held p) (tongue p).

Definition set_state (st : GameState) (g : Game) : Game :=
  mkGame st (pyoro g) (beans g) (blocks g) (angel g) (score g)
         (game_speed g) (bean_spawn_timer g) (death_timer g) (game_paused g).
Definition set_pyoro (p : Pyoro) (g : Game) : Game :=
  mkGame (state g) p (beans g) (blocks g) (angel g) (score g)
         (game_speed g) (bean_spawn_timer g) (death_timer g) (game_paused g).
Definition set_beans (bs : list Bean) (g : Game) : Game :=
  mkGame (state g) (pyoro g) bs (blocks g) (angel g) (score g)
         (game_speed g) (bean_spawn_timer g) (death_timer g) (game_paused g).
Definition set_blocks (bl : list Block) (g : Game) : Game :=
  mkGame (state g) (pyoro g) (beans g) bl (angel g) (score g)
         (game_speed g) (bean_spawn_timer g) (death_timer g) (game_paused g).
Definition set_angel (a : Angel) (g : Game) : Game :=
  mkGame (state g) (pyoro g) (beans g) (blocks g) a (score g)
         (game_speed g) (bean_spawn_timer g) (death_timer g) (game_paused g).
Definition set_score (n : Z) (g : Game) : Game :=
  mkGame (state g) (pyoro g) (beans g) (blocks g) (angel g) n
         (game_speed g) (bean_spawn_timer g) (death_timer g) (game_paused g).
Definition set_game_speed (v : f32) (g : Game) : Game :=
  mkGame (state g) (pyoro g) (beans g) (blocks g) (angel g) (score g)
         v (bean_spawn_timer g) (death_timer g) (game_paused g).
Definition set_bean_spawn_timer (v : f32) (g : Game) : Game :=
  mkGame (state g) (pyoro g) (beans g) (blocks g) (angel g) (score g)
         (game_speed g) v (death_timer g) (game_paused g).
Definition set_death_timer (v : f32) (g : Game) : Game :=
  mkGame (state g) (pyoro g) (beans g) (blocks g) (angel g) (score g)
         (game_speed g) (bean_spawn_timer g) v (game_paused g).

Definition set_game (g : Game) (w : World) : World :=
  mkWorld g (s_pending_step_dir w) (s_pending_step_count w) (s_high_scores w)
          (s_last_game_score w) (s_background_index w) (s_frame_count w).
Definition set_pending (dir count : Z) (w : World) : World :=
  mkWorld (s_game w) dir count (s_high_scores w)
          (s_last_game_score w) (s_background_index w) (s_frame_count w).

(** [s_game.blocks[i]] and [s_game.beans[i]]; every access in the source is
    guarded to lie inside the array. *)
Definition block_at (bl : list Block) (i : Z) : Block :=
  default (mkBlock false false) (bl !! Z.to_nat i).
Definition set_block (i : Z) (b : Block) (bl : list Block) : list Block :=
  <[Z.to_nat i := b]> bl.

Definition zero_bean : Bean :=
  mkBean (S754_zero false) (S754_zero false) (S754_zero false) false false BEAN_TYPE_GREEN.
Definition bean_at (bs : list Bean) (i : nat) : Bean := default zero_bean (bs !! i).

(** ** [apply_pyoro_step] *)

Local Open Scope f32_scope.

(** [PYORO_SIZE / 2.0f] *)
Definition half_pyoro : f32 := of_int PYORO_SIZE /~ lit 20 1.

(** The clamping of [new_x] to the stage. *)
Definition clamp_x (new_x : f32) : f32 :=
  if new_x <~ half_pyoro then half_pyoro
  else if new_x >~ of_int GAME_WIDTH -~ half_pyoro then of_int GAME_WIDTH -~ half_pyoro
  else new_x.

(** [new_x] after the clamping. *)
Definition candidate_x (x : f32) (step_dir : Z) : f32 :=
  clamp_x (x +~ of_int step_dir *~ PYORO_SINGLE_STEP).

(** The values [i] takes in
    [for (i = block_left; i <= block_right && i < GAME_WIDTH; i++)]. *)
Definition step_columns (new_x : f32) : list Z :=
  let block_left := to_int (new_x -~ half_pyoro) in
  let block_right := to_int (new_x +~ half_pyoro) in
  seqZ block_left (Z.min block_right (GAME_WIDTH - 1) + 1 - block_left).

(** The loop returns [false] at the first [i >= 0] whose block is gone. *)
Definition step_blocked (bl : list Block) (new_x : f32) : bool :=
  existsb (λ i, (0 <=? i)%Z && negb (exists_ (block_at bl i))) (step_columns new_x).

Definition apply_pyoro_step (step_dir : Z) (g : Game) : Game * bool :=
  let new_x := candidate_x (p_x (pyoro g)) step_dir in
  if step_blocked (blocks g) new_x then (g, false)
  else (set_pyoro (set_p_x new_x (pyoro g)) g, true).

(** ** High scores *)

(** The first [i] with
    [s_high_scores[i] == HIGH_SCORE_EMPTY || score > s_high_scores[i]]. *)
Fixpoint find_insert_at (score : Z) (i : nat) (hs : list Z) : option nat :=
  match hs with
  | [] => None
  | h :: rest =>
      if (h =? HIGH_SCORE_EMPTY)%Z || (score >? h)%Z then Some i
      else find_insert_at score (S i) rest
  end.

(** [n] iterations of
    [for (i = NUM_HIGH_SCORES - 1; i > insert_at; i--) hs[i] = hs[i - 1];]
    that remain when [i = insert_at + n]. *)
Fixpoint shift_down (n insert_at : nat) (hs : list Z) : list Z :=
  match n with
  | O => hs
  | S n' =>
      let i := (insert_at + n)%nat in
      shift_down n' insert_at (<[i := default 0%Z (hs !! (i - 1)%nat)]> hs)
  end.

Definition insert_high_score (score : Z) (hs : list Z) : list Z :=
  match find_insert_at score 0 (take NUM_HIGH_SCORES hs) with
  | None => hs
  | Some insert_at =>
      <[insert_at := score]> (shift_down (NUM_HIGH_SCORES - 1 - insert_at) insert_at hs)
  end.

(** ** [init_game] and [reset_game] *)

Definition init_game (g : Game) : Game :=
  let t := tongue (pyoro g) in
  mkGame GAME_STATE_MENU
    (mkPyoro (of_int GAME_WIDTH /~ lit 20 1) (of_int GAME_HEIGHT -~ lit 20 1)
             1 false false false
             (mkTongue false (t_x t) (t_y t) (t_direction t) (going_back t) (caught_bean t)))
    (map (λ b, mkBean (b_x b) (b_y b) (speed b) false (caught b) BEAN_TYPE_GREEN) (beans g))
    (map (λ _, mkBlock true false) (blocks g))
    (mkAngel (a_x (angel g)) (a_y (angel g)) false
             (target_block_index (angel g)) (going_up (angel g)))
    0 (lit 10 1) (lit 0 1) (lit 0 1) false.

Definition reset_game (w : World) : World :=
  mkWorld (set_state GAME_STATE_PLAYING (init_game (s_game w)))
          0 0 (s_high_scores w) (s_last_game_score w) 0 (s_frame_count w).

(** ** Spawning *)

Fixpoint find_destroyed_from (i : Z) (bl : list Block) : Z :=
  match bl with
  | [] => -1
  | b :: rest =>
      if negb (exists_ b) && negb (is_repairing b) then i
      else find_destroyed_from (i + 1) rest
  end.

Definition find_destroyed_block (g : Game) : Z := find_destroyed_from 0 (blocks g).

(** The first slot of the pool that satisfies [p], as the loops over
    [beans[0..4]] that [break] at their first hit find it. *)
Fixpoint find_bean (p : Bean → bool) (i : nat) (bs : list Bean) : option nat :=
  match bs with
  | [] => None
  | b :: rest => if p b then Some i else find_bean p (S i) rest
  end.

(** [r1], [r2], [r3] are the results of the calls of [rand()]; the third
    call happens only when a destroyed block was found. *)
Definition spawn_bean (r1 r2 r3 : Z) (g : Game) : Game :=
  match find_bean (λ b, negb (b_active b)) 0 (beans g) with
  | None => g
  | Some i =>
      let destroyed_block := find_destroyed_block g in
      let ty :=
        if (destroyed_block >=? 0)%Z && (Z.rem r3 5 <? 2)%Z
        then BEAN_TYPE_PINK else BEAN_TYPE_GREEN in
      let b :=
        mkBean (of_int (Z.rem r1 GAME_WIDTH) +~ lit 5 1)
               (lit 0 1)
               (of_int (Z.rem r2 100) /~ lit 1000 1 *~ lit 10 1 +~ lit 5 1)
               true false ty in
      set_beans (<[i := b]> (beans g)) g
  end.

Definition spawn_angel (block_index : Z) (g : Game) : Game :=
  if (block_index <? 0)%Z || (block_index >=? GAME_WIDTH)%Z then g
  else if exists_ (block_at (blocks g) block_index)
          || is_repairing (block_at (blocks g) block_index) then g
  else if a_active (angel g) then g
  else
    set_blocks
      (set_block block_index
         (mkBlock (exists_ (block_at (blocks g) block_index)) true) (blocks g))
      (set_angel (mkAngel (of_int block_index +~ lit 5 1) (lit 0 1) true block_index false) g).

(** ** [check_collision] *)

Definition check_collision (x1 y1 w1 h1 x2 y2 w2 h2 : f32) : bool :=
  (x1 -~ w1 /~ of_int 2 <~ x2 +~ w2 /~ of_int 2) &&
  (x1 +~ w1 /~ of_int 2 >~ x2 -~ w2 /~ of_int 2) &&
  (y1 -~ h1 /~ of_int 2 <~ y2 +~ h2 /~ of_int 2) &&
  (y1 +~ h1 /~ of_int 2 >~ y2 -~ h2 /~ of_int 2).

(** ** [update_game], phase by phase *)

Definition set_b_pos (x y : f32) (b : Bean) : Bean :=
  mkBean x y (speed b) (b_active b) (caught b) (b_type b).
Definition set_b_active (a : bool) (b : Bean) : Bean :=
  mkBean (b_x b) (b_y b) (speed b) a (caught b) (b_type b).
Definition set_caught (c : bool) (b : Bean) : Bean :=
  mkBean (b_x b) (b_y b) (speed b) (b_active b) c (b_type b).

(** The step queue: cleared while the tongue is out, else one step is
    applied and consumed. *)
Definition drain_step_queue (w : World) : World :=
  let g := s_game w in
  if t_active (tongue (pyoro g)) then set_pending 0 0 w
  else if (s_pending_step_count w >? 0)%Z && negb (s_pending_step_dir w =? 0)%Z then
    let g' := fst (apply_pyoro_step (s_pending_step_dir w) g) in
    let count := (s_pending_step_count w - 1)%Z in
    let dir := if (count <=? 0)%Z then 0%Z else s_pending_step_dir w in
    set_pending dir count (set_game g' w)
  else w.

(** [score_add] as a function of [s_game.pyoro.tongue.y]. *)
Definition score_for_height (y : f32) : Z :=
  if y <~ of_int GAME_HEIGHT *~ lit 2 1 then 1000
  else if y <~ of_int GAME_HEIGHT *~ lit 4 1 then 300
  else if y <~ of_int GAME_HEIGHT *~ lit 6 1 then 100
  else if y <~ of_int GAME_HEIGHT *~ lit 8 1 then 50
  else 10.

(** [beans[i].active && beans[i].caught] *)
Definition is_caught (b : Bean) : bool := b_active b && caught b.

(** The body run for the caught bean [i] when the tongue is back. *)
Definition collect_bean (i : nat) (g : Game) : Game :=
  let caught_bean_type := b_type (bean_at (beans g) i) in
  let g1 :=
    if decide (caught_bean_type = BEAN_TYPE_PINK) then
      let destroyed_block := find_destroyed_block g in
      if (destroyed_block >=? 0)%Z then spawn_angel destroyed_block g else g
    else g in
  let g2 := set_score (score g1 + score_for_height (t_y (tongue (pyoro g1))))%Z g1 in
  set_beans (<[i := set_b_active false (bean_at (beans g2) i)]> (beans g2)) g2.

(** The tip pulled back by one tick. *)
Definition retract_tongue (dt : f32) (t : Tongue) : Tongue :=
  let retract_speed := TONGUE_SPEED *~ lit 20 1 *~ dt in
  mkTongue (t_active t)
           (t_x t -~ of_int (t_direction t) *~ retract_speed)
           (t_y t +~ retract_speed)
           (t_direction t) (going_back t) (caught_bean t).

(** "Move caught bean with tongue". *)
Definition carry_bean (g : Game) : Game :=
  let t := tongue (pyoro g) in
  if caught_bean t then
    match find_bean is_caught 0 (beans g) with
    | Some i => set_beans (<[i := set_b_pos (t_x t) (t_y t) (bean_at (beans g) i)]> (beans g)) g
    | None => g
    end
  else g.

(** The tongue is back: the caught bean, if any, is collected and the
    tongue goes inactive. *)
Definition tongue_back (g : Game) : Game :=
  let g3 :=
    if caught_bean (tongue (pyoro g)) then
      match find_bean is_caught 0 (beans g) with
      | Some i => collect_bean i g
      | None => g
      end
    else g in
  let t3 := tongue (pyoro g3) in
  set_pyoro
    (set_tongue
       (mkTongue false (t_x t3) (t_y t3) (t_direction t3) (going_back t3) (caught_bean t3))
       (pyoro g3)) g3.

Definition tongue_retract (dt : f32) (g : Game) : Game :=
  let g2 :=
    carry_bean (set_pyoro (set_tongue (retract_tongue dt (tongue (pyoro g))) (pyoro g)) g) in
  if t_y (tongue (pyoro g2)) >=~ p_y (pyoro g2) then tongue_back g2 else g2.

(** The test of the extending tongue against bean [b]. *)
Definition tongue_hits (tx ty : f32) (b : Bean) : bool :=
  b_active b && negb (caught b) &&
  check_collision tx ty (of_int TONGUE_WIDTH) (of_int TONGUE_WIDTH)
                  (b_x b) (b_y b) (of_int BEAN_SIZE) (of_int BEAN_SIZE).

Definition tongue_extend (dt : f32) (g : Game) : Game :=
  let t := tongue (pyoro g) in
  let extend_speed := TONGUE_SPEED *~ dt in
  let tx := t_x t +~ of_int (t_direction t) *~ extend_speed in
  let ty := t_y t -~ extend_speed in
  let t1 := mkTongue (t_active t) tx ty (t_direction t) (going_back t) (caught_bean t) in
  let '(bs, t2) :=
    match find_bean (tongue_hits tx ty) 0 (beans g) with
    | Some i =>
        (<[i := set_caught true (bean_at (beans g) i)]> (beans g),
         mkTongue (t_active t) tx ty (t_direction t) true true)
    | None => (beans g, t1)
    end in
  let t3 :=
    if (tx <~ of_int 0) || (tx >~ of_int GAME_WIDTH) || (ty <~ of_int 0)
    then mkTongue (t_active t2) (t_x t2) (t_y t2) (t_direction t2) true (caught_bean t2)
    else t2 in
  set_beans bs (set_pyoro (set_tongue t3 (pyoro g)) g).

Definition update_tongue (dt : f32) (g : Game) : Game :=
  if t_active (tongue (pyoro g)) then
    if going_back (tongue (pyoro g)) then tongue_retract dt g else tongue_extend dt g
  else g.

(** [GAME_HEIGHT - 1.0f] *)
Definition ground_y : f32 := of_int GAME_HEIGHT -~ lit 10 1.

(** The test of the falling bean [b] against Pyoro. *)
Definition bean_hits_pyoro (g : Game) (b : Bean) : bool :=
  negb (dead (pyoro g)) && negb (t_active (tongue (pyoro g))) &&
  check_collision (p_x (pyoro g)) (p_y (pyoro g)) (of_int PYORO_SIZE) (of_int PYORO_SIZE)
                  (b_x b) (b_y b) (of_int BEAN_SIZE) (of_int BEAN_SIZE).

(** The bean at slot [i] has reached the ground: its block goes, and so
    does the bean. *)
Definition land_bean (i : nat) (g : Game) : Game :=
  let b := bean_at (beans g) i in
  let block_index := to_int (b_x b) in
  let bl :=
    if (0 <=? block_index)%Z && (block_index <? GAME_WIDTH)%Z then
      if exists_ (block_at (blocks g) block_index)
      then set_block block_index
             (mkBlock false (is_repairing (block_at (blocks g) block_index))) (blocks g)
      else blocks g
    else blocks g in
  set_beans (<[i := set_b_active false b]> (beans g)) (set_blocks bl g).

(** The loop over the slots [idx]; a hit on Pyoro leaves the loop. *)
Fixpoint update_beans_loop (dt : f32) (idx : list nat) (g : Game) : Game :=
  match idx with
  | [] => g
  | i :: rest =>
      let b := bean_at (beans g) i in
      if b_active b && negb (caught b) then
        let b1 := set_b_pos (b_x b) (b_y b +~ BEAN_SPEED *~ speed b *~ dt *~ game_speed g) b in
        let g1 := set_beans (<[i := b1]> (beans g)) g in
        if bean_hits_pyoro g1 b1 then
          set_death_timer DEATH_DELAY (set_pyoro (set_dead true (pyoro g1)) g1)
        else
          update_beans_loop dt rest
            (if b_y b1 >=~ ground_y then land_bean i g1 else g1)
      else update_beans_loop dt rest g
  end.

Definition update_beans (dt : f32) (g : Game) : Game :=
  update_beans_loop dt (seq 0 NUM_BEANS) g.

Definition update_angel (dt : f32) (g : Game) : Game :=
  let a := angel g in
  if a_active a then
    if negb (going_up a) then
      let y := a_y a +~ ANGEL_SPEED *~ dt in
      if y >=~ ground_y then
        let block_idx := target_block_index a in
        let bl :=
          if (block_idx >=? 0)%Z && (block_idx <? GAME_WIDTH)%Z
          then set_block block_idx (mkBlock true false) (blocks g)
          else blocks g in
        set_blocks bl (set_angel (mkAngel (a_x a) y (a_active a) block_idx true) g)
      else set_angel (mkAngel (a_x a) y (a_active a) (target_block_index a) (going_up a)) g
    else
      let y := a_y a -~ ANGEL_SPEED *~ dt in
      set_angel
        (mkAngel (a_x a) y (if y <~ lit 0 1 then false else a_active a)
                 (target_block_index a) (going_up a)) g
  else g.

Definition spawn_phase (dt : f32) (r1 r2 r3 : Z) (g : Game) : Game :=
  let g1 := set_bean_spawn_timer (bean_spawn_timer g +~ dt) g in
  if bean_spawn_timer g1 >=~ BEAN_SPAWN_FREQUENCY /~ game_speed g1
  then set_bean_spawn_timer (lit 0 1) (spawn_bean r1 r2 r3 g1)
  else g1.

Definition background_for (sc : Z) : Z :=
  let new_bg := Z.quot sc SCORE_PER_BACKGROUND in
  if (new_bg >=? NUM_BACKGROUNDS)%Z then (NUM_BACKGROUNDS - 1)%Z else new_bg.

(** The game as the bean loop finds it: speed raised, step queue drained,
    tongue advanced. *)
Definition before_beans (delta_time : f32) (w : World) : World :=
  let g := s_game w in
  let dt := delta_time *~ game_speed g in
  let w1 := set_game (set_game_speed (game_speed g +~ dt *~ SPEED_ACCELERATION) g) w in
  let w2 := drain_step_queue w1 in
  let w3 :=
    mkWorld (s_game w2) (s_pending_step_dir w2) (s_pending_step_count w2) (s_high_scores w2)
            (s_last_game_score w2) (s_background_index w2)
            ((s_frame_count w2 + 1) mod 2 ^ 32)%Z in
  set_game (update_tongue dt (s_game w3)) w3.

Definition update_game (delta_time : f32) (r1 r2 r3 : Z) (w : World) : World :=
  let g := s_game w in
  if negb (bool_decide (state g = GAME_STATE_PLAYING)) || game_paused g then w
  else if dead (pyoro g) then
    let g1 := set_death_timer (death_timer g -~ delta_time) g in
    if death_timer g1 <=~ lit 0 1 then
      mkWorld (set_state GAME_STATE_GAME_OVER g1)
              (s_pending_step_dir w) (s_pending_step_count w)
              (insert_high_score (score g1) (s_high_scores w))
              (score g1) (s_background_index w) (s_frame_count w)
    else set_game g1 w
  else
    let dt := delta_time *~ game_speed g in
    let w3 := before_beans delta_time w in
    let g6 := spawn_phase dt r1 r2 r3 (update_angel dt (update_beans dt (s_game w3))) in
    let bg :=
      if bool_decide (state g6 = GAME_STATE_PLAYING) then background_for (score g6)
      else s_background_index w3 in
    mkWorld g6 (s_pending_step_dir w3) (s_pending_step_count w3) (s_high_scores w3)
            (s_last_game_score w3) bg (s_frame_count w3).

(** [game_update]: the timer callback, [update_game(0.016f)]. *)
Definition game_update (r1 r2 r3 : Z) (w : World) : World :=
  update_game (lit 16 3) r1 r2 r3 w.

(** ** Button handlers *)

Definition prv_select_click_handler (w : World) : World :=
  let g := s_game w in
  match state g with
  | GAME_STATE_MENU => reset_game w
  | GAME_STATE_GAME_OVER => set_game (set_state GAME_STATE_MENU g) w
  | GAME_STATE_PLAYING =>
      if negb (dead (pyoro g)) then
        if negb (t_active (tongue (pyoro g))) then
          let p := pyoro g in
          let t :=
            mkTongue true
              (p_x p +~ (of_int PYORO_VISUAL_SIZE /~ lit 20 1 +~ lit 6 1) *~ of_int (direction p))
              (p_y p -~ of_int PYORO_VISUAL_SIZE /~ lit 20 1 +~ lit 6 1)
              (direction p) false false in
          set_pending 0 0 (set_game (set_pyoro (set_tongue t (set_moving false p)) g) w)
        else w
      else w
  end.

(** The four direction handlers differ in the direction they set and in
    the number of steps they queue. *)
Definition direction_click (dir steps : Z) (w : World) : World :=
  let g := s_game w in
  if bool_decide (state g = GAME_STATE_PLAYING) && negb (dead (pyoro g))
     && negb (t_active (tongue (pyoro g))) then
    let was_dir := direction (pyoro g) in
    let w1 := set_game (set_pyoro (set_direction dir (pyoro g)) g) w in
    if (was_dir =? - dir)%Z then set_pending 0 0 w1
    else
      let count := (s_pending_step_count w + steps)%Z in
      set_pending dir
        (if (count >? PYORO_PENDING_STEPS_MAX)%Z then PYORO_PENDING_STEPS_MAX else count) w1
  else w.

Definition prv_up_click_handler : World → World := direction_click (-1) 1.
Definition prv_down_click_handler : World → World := direction_click 1 1.
Definition prv_up_repeating_click_handler : World → World := direction_click (-1) 4.
Definition prv_down_repeating_click_handler : World → World := direction_click 1 4.

(** ** The running program *)

(** What the event loop delivers: a timer tick (with the values [rand()]
    returns during it, which are never negative) or a button click. *)
Inductive event :=
| EvTick (r1 r2 r3 : N)
| EvSelect
| EvUp
| EvDown
| EvUpRepeat
| EvDownRepeat.

Definition handle (e : event) (w : World) : World :=
  match e with
  | EvTick r1 r2 r3 => game_update (Z.of_N r1) (Z.of_N r2) (Z.of_N r3) w
  | EvSelect => prv_select_click_handler w
  | EvUp => prv_up_click_handler w
  | EvDown => prv_down_click_handler w
  | EvUpRepeat => prv_up_repeating_click_handler w
  | EvDownRepeat => prv_down_repeating_click_handler w
  end.

Definition run (es : list event) (w : World) : World := fold_left (λ w e, handle e w) es w.

(** The zero-initialised static [s_game]. *)
Definition zero_game : Game :=
  let z := S754_zero false in
  mkGame GAME_STATE_MENU
    (mkPyoro z z 0 false false false (mkTongue false z z 0 false false))
    (replicate NUM_BEANS zero_bean)
    (replicate (Z.to_nat GAME_WIDTH) (mkBlock false false))
    (mkAngel z z false 0 false)
    0 z z z false.

(** The statics once the window is loaded: [load_high_scores] has filled
    the table with [hs] (what was persisted, or ten [HIGH_SCORE_EMPTY]) and
    [init_game] has run. *)
Definition initial (hs : list Z) : World := mkWorld (init_game zero_game) 0 0 hs 0 0 0.

Inductive reachable : World → Prop :=
| reach_initial hs : length hs = NUM_HIGH_SCORES → reachable (initial hs)
| reach_handle e w : reachable w → reachable (handle e w).

Definition empty_scores : list Z := replicate NUM_HIGH_SCORES HIGH_SCORE_EMPTY.

Lemma reachable_run es w : reachable w → reachable (run es w).
Proof.
  revert w. induction es as [|e es IH]; intros w Hw; simpl; [done|].
  apply IH. by constructor.
Qed.

(** The arrays keep their sizes. *)
Definition wf_game (g : Game) : Prop :=
  length (beans g) = NUM_BEANS ∧ length (blocks g) = Z.to_nat GAME_WIDTH.

(** ** Example states *)

(** A fresh game: the state right after the first select click. *)
Definition fresh_world : World := handle EvSelect (initial empty_scores).

(** A fresh game whose block 3 has been destroyed. *)
Definition holed_game : Game :=
  set_blocks (set_block 3 (mkBlock false false) (blocks (s_game fresh_world)))
             (s_game fresh_world).

(** * Properties *)

(** ** [spawn_angel] *)

(** The four reasons for which [spawn_angel] returns at once. *)
Definition spawn_angel_refused (block_index : Z) (g : Game) : Prop :=
  (block_index < 0)%Z ∨ (GAME_WIDTH ≤ block_index)%Z ∨
  exists_ (block_at (blocks g) block_index) = true ∨
  is_repairing (block_at (blocks g) block_index) = true ∨
  a_active (angel g) = true.

Lemma block_at_set_block_eq bl i b :
  (0 ≤ i)%Z → (Z.to_nat i < length bl)%nat → block_at (set_block i b bl) i = b.
Proof.
  intros Hi Hlen. unfold block_at, set_block.
  by rewrite list_lookup_insert_eq.
Qed.

Lemma block_at_set_block_ne bl i j b :
  (0 ≤ i)%Z → (0 ≤ j)%Z → i ≠ j → block_at (set_block i b bl) j = block_at bl j.
Proof.
  intros Hi Hj Hne. unfold block_at, set_block.
  rewrite list_lookup_insert_ne; [done|lia].
Qed.

Lemma length_set_block bl i b : length (set_block i b bl) = length bl.
Proof. apply length_insert. Qed.

(** C4: [spawn_angel] changes nothing when the index is out of range, the
    block exists or is being repaired, or the angel is active; otherwise
    the angel becomes active above the block ([x = block_index + 0.5],
    [y = 0]), descending, with [block_index] as its target, and the block
    is marked [is_repairing]; nothing else changes. *)
Theorem spawn_angel_spec (g : Game) (block_index : Z) :
  length (blocks g) = Z.to_nat GAME_WIDTH →
  (spawn_angel_refused block_index g → spawn_angel block_index g = g) ∧
  (¬ spawn_angel_refused block_index g →
   spawn_angel block_index g =
     mkGame (state g) (pyoro g) (beans g)
            (<[Z.to_nat block_index := mkBlock false true]> (blocks g))
            (mkAngel (of_int block_index +~ lit 5 1) (lit 0 1) true block_index false)
            (score g) (game_speed g) (bean_spawn_timer g) (death_timer g) (game_paused g)
   ∧ is_repairing (block_at (blocks (spawn_angel block_index g)) block_index) = true).
Proof.
  intros Hlen. unfold spawn_angel_refused, spawn_angel. split.
  - intros [H|[H|[H|[H|H]]]].
    + destruct (block_index <? 0)%Z eqn:E; [done|lia].
    + destruct (block_index >=? GAME_WIDTH)%Z eqn:E; [by rewrite orb_true_r|lia].
    + rewrite H. simpl. by destruct (_ || _).
    + rewrite H, orb_true_r. by destruct (_ || _).
    + rewrite H. by repeat destruct (_ || _).
  - intros Hn.
    destruct (block_index <? 0)%Z eqn:E1; [exfalso; apply Hn; left; lia|].
    destruct (block_index >=? GAME_WIDTH)%Z eqn:E2; [exfalso; apply Hn; right; left; lia|].
    destruct (exists_ (block_at (blocks g) block_index)) eqn:E3; [exfalso; apply Hn; tauto|].
    destruct (is_repairing (block_at (blocks g) block_index)) eqn:E4;
      [exfalso; apply Hn; tauto|].
    destruct (a_active (angel g)) eqn:E5; [exfalso; apply Hn; tauto|].
    simpl. split; [done|].
    rewrite block_at_set_block_eq; [done|lia|].
    rewrite Hlen. unfold GAME_WIDTH in *. lia.
Qed.

Lemma spawn_angel_spec_witness :
  spawn_angel 5 holed_game = holed_game ∧
  angel (spawn_angel 3 holed_game) = mkAngel (of_int 3 +~ lit 5 1) (lit 0 1) true 3 false ∧
  is_repairing (block_at (blocks (spawn_angel 3 holed_game)) 3) = true.
Proof.
  assert (Hlen : length (blocks holed_game) = Z.to_nat GAME_WIDTH) by reflexivity.
  destruct (spawn_angel_spec holed_game 5 Hlen) as [Hno _].
  destruct (spawn_angel_spec holed_game 3 Hlen) as [_ Hyes].
  split.
  - apply Hno. right. right. left. reflexivity.
  - destruct Hyes as [Heq Hrep].
    + intros [H|[H|[H|[H|H]]]];
        [lia|unfold GAME_WIDTH in H; lia|vm_compute in H; discriminate H..].
    + split; [rewrite Heq; reflexivity|exact Hrep].
Defined.

(** ** Turning in place *)

(** What an opposite-direction press does to the world. *)
Definition turned_in_place (dir : Z) (w w' : World) : Prop :=
  p_x (pyoro (s_game w')) = p_x (pyoro (s_game w)) ∧
  p_y (pyoro (s_game w')) = p_y (pyoro (s_game w)) ∧
  direction (pyoro (s_game w')) = dir ∧
  s_pending_step_count w' = 0%Z ∧
  s_pending_step_dir w' = 0%Z.

Lemma direction_click_opposite (dir steps : Z) (w : World) :
  state (s_game w) = GAME_STATE_PLAYING →
  dead (pyoro (s_game w)) = false →
  t_active (tongue (pyoro (s_game w))) = false →
  direction (pyoro (s_game w)) = (- dir)%Z →
  direction_click dir steps w =
    set_pending 0 0 (set_game (set_pyoro (set_direction dir (pyoro (s_game w))) (s_game w)) w).
Proof.
  intros Hst Hd Ht Hdir. unfold direction_click.
  rewrite Hst, Hd, Ht, Hdir. simpl. by rewrite Z.eqb_refl.
Qed.

(** C8: while playing, alive and with the tongue in, a press against the
    facing leaves the position alone, flips the facing and empties the
    step queue (count 0, direction none): no step is queued.  This holds
    for the single clicks and for the repeating ones. *)
Theorem opposite_press_turns_in_place (w : World) :
  state (s_game w) = GAME_STATE_PLAYING →
  dead (pyoro (s_game w)) = false →
  t_active (tongue (pyoro (s_game w))) = false →
  (direction (pyoro (s_game w)) = 1%Z →
     turned_in_place (-1) w (prv_up_click_handler w) ∧
     turned_in_place (-1) w (prv_up_repeating_click_handler w)) ∧
  (direction (pyoro (s_game w)) = (-1)%Z →
     turned_in_place 1 w (prv_down_click_handler w) ∧
     turned_in_place 1 w (prv_down_repeating_click_handler w)).
Proof.
  intros Hst Hd Ht.
  unfold prv_up_click_handler, prv_up_repeating_click_handler,
    prv_down_click_handler, prv_down_repeating_click_handler.
  split; intros Hdir; split;
    rewrite direction_click_opposite by (done || (rewrite Hdir; done));
    by repeat split.
Qed.

(** A fresh game with three steps queued to the right. *)
Definition walking_world : World := run [EvDown; EvDown; EvDown] fresh_world.

Lemma opposite_press_turns_in_place_witness :
  turned_in_place (-1) walking_world (prv_up_click_handler walking_world) ∧
  s_pending_step_count walking_world = 3%Z.
Proof.
  split; [|vm_compute; reflexivity].
  pose proof (opposite_press_turns_in_place walking_world) as Hturn.
  destruct Hturn as [Hup _]; [vm_compute; reflexivity..|].
  assert (Hdir : direction (pyoro (s_game walking_world)) = 1%Z) by (vm_compute; reflexivity).
  destruct (Hup Hdir) as [Hclick _]. exact Hclick.
Defined.

(** ** The high-score table *)

(** The table the spec describes: [score] goes in front of the first entry
    it beats, after every entry it only ties. *)
Fixpoint insert_desc (score : Z) (hs : list Z) : list Z :=
  match hs with
  | [] => [score]
  | h :: rest => if (score >? h)%Z then score :: h :: rest else h :: insert_desc score rest
  end.

(** Descending order, ties allowed. *)
Definition sorted_desc (hs : list Z) : Prop :=
  ∀ i j a b, (i ≤ j)%nat → hs !! i = Some a → hs !! j = Some b → (b ≤ a)%Z.

Lemma slot_test_nonneg (score h : Z) :
  (0 ≤ score)%Z → ((h =? HIGH_SCORE_EMPTY)%Z || (score >? h)%Z) = (score >? h)%Z.
Proof.
  intros Hs. unfold HIGH_SCORE_EMPTY.
  destruct (Z.eqb_spec h (-1)) as [->|_]; [|done].
  simpl. symmetry. apply Z.gtb_lt. lia.
Qed.

Ltac ten_slots hs H :=
  do 10 (destruct hs as [|? hs]; [discriminate H|]);
  destruct hs; [clear H|discriminate H].

Lemma insert_high_score_insert_desc (hs : list Z) (score : Z) :
  length hs = NUM_HIGH_SCORES → (0 ≤ score)%Z →
  insert_high_score score hs = take NUM_HIGH_SCORES (insert_desc score hs).
Proof.
  intros Hlen Hs. ten_slots hs Hlen.
  unfold insert_high_score, NUM_HIGH_SCORES. cbn [take find_insert_at insert_desc].
  rewrite !slot_test_nonneg by done.
  repeat (match goal with |- context [(score >? ?h)%Z] => destruct (score >? h)%Z end;
          [reflexivity|]).
  reflexivity.
Qed.

Lemma insert_high_score_length (hs : list Z) (score : Z) :
  length (insert_high_score score hs) = length hs.
Proof.
  unfold insert_high_score. destruct (find_insert_at _ _ _) as [k|]; [|done].
  rewrite length_insert. generalize (NUM_HIGH_SCORES - 1 - k)%nat. intros n.
  revert hs. induction n as [|n IH]; intros hs; simpl; [done|].
  by rewrite IH, length_insert.
Qed.

Lemma find_insert_at_none (score : Z) (i : nat) (hs : list Z) :
  Forall (λ h, h ≠ HIGH_SCORE_EMPTY ∧ (score < h)%Z) hs → find_insert_at score i hs = None.
Proof.
  intros H. revert i. induction H as [|h hs [Hne Hlt] _ IH]; intros i; simpl; [done|].
  destruct (Z.eqb_spec h HIGH_SCORE_EMPTY) as [?|_]; [done|].
  destruct (Z.gtb_spec score h); [lia|]. apply IH.
Qed.

Lemma insert_desc_lookup_ge (score : Z) (hs : list Z) (i : nat) (h : Z) :
  hs !! i = Some h → (∀ j a, (j ≤ i)%nat → hs !! j = Some a → (score ≤ a)%Z) →
  insert_desc score hs !! i = Some h.
Proof.
  revert i. induction hs as [|a hs IH]; intros i Hi Hge; [done|]. simpl.
  destruct (Z.gtb_spec score a) as [Hgt|_].
  - pose proof (Hge 0%nat a ltac:(lia) eq_refl). lia.
  - destruct i as [|i]; [done|]. simpl in *. apply IH; [done|].
    intros j b Hj Hb. apply (Hge (S j) b); [lia|done].
Qed.

Lemma sorted_desc_nil : sorted_desc [].
Proof. intros i j a b _ Ha. by rewrite lookup_nil in Ha. Qed.

Lemma sorted_desc_cons_inv (h : Z) (hs : list Z) :
  sorted_desc (h :: hs) → sorted_desc hs ∧ Forall (λ b, (b ≤ h)%Z) hs.
Proof.
  intros Hsorted. split.
  - intros i j a b Hij Ha Hb. apply (Hsorted (S i) (S j)); [lia|done..].
  - apply Forall_lookup. intros j b Hb. by apply (Hsorted 0%nat (S j)); [lia|..].
Qed.

Lemma sorted_desc_cons (h : Z) (hs : list Z) :
  sorted_desc hs → Forall (λ b, (b ≤ h)%Z) hs → sorted_desc (h :: hs).
Proof.
  intros Hsorted Hall [|i] [|j] a b Hij Ha Hb; simpl in *; simplify_eq.
  - lia.
  - by apply (proj1 (Forall_lookup _ _) Hall j b).
  - lia.
  - apply (Hsorted i j); [lia|done..].
Qed.

Lemma Forall_insert_desc (P : Z → Prop) (score : Z) (hs : list Z) :
  P score → Forall P hs → Forall P (insert_desc score hs).
Proof.
  intros Hs Hall. induction Hall as [|h hs Hh Hall IH]; simpl.
  - by constructor.
  - destruct (score >? h)%Z; repeat constructor; done.
Qed.

Lemma insert_desc_sorted (score : Z) (hs : list Z) :
  sorted_desc hs → sorted_desc (insert_desc score hs).
Proof.
  induction hs as [|h hs IH]; intros Hsorted; simpl.
  - apply sorted_desc_cons; [apply sorted_desc_nil|constructor].
  - destruct (sorted_desc_cons_inv _ _ Hsorted) as [Htail Hall].
    destruct (Z.gtb_spec score h) as [Hgt|Hle].
    + apply sorted_desc_cons; [done|].
      constructor; [lia|]. eapply Forall_impl; [exact Hall|]. intros b Hb. simpl in Hb. lia.
    + apply sorted_desc_cons; [by apply IH|].
      apply Forall_insert_desc; [lia|done].
Qed.

Lemma sorted_desc_take (n : nat) (hs : list Z) : sorted_desc hs → sorted_desc (take n hs).
Proof.
  intros Hsorted i j a b Hij Ha Hb.
  apply lookup_take_Some in Ha as [Ha _]. apply lookup_take_Some in Hb as [Hb _].
  by apply (Hsorted i j).
Qed.

(** C5: the table keeps ten slots; 50, 200, 75 into the empty table give
    200, 75, 50 and seven empty slots; a score below ten non-empty entries
    changes nothing; and for a score of the game (never negative) the new
    table is the first ten entries of the descending insertion that puts
    the score after the entries it ties, so that entries at least as high
    keep their slot and a descending table stays descending. *)
Theorem insert_high_score_spec :
  insert_high_score 75 (insert_high_score 200 (insert_high_score 50 empty_scores))
    = [200; 75; 50; HIGH_SCORE_EMPTY; HIGH_SCORE_EMPTY; HIGH_SCORE_EMPTY; HIGH_SCORE_EMPTY;
       HIGH_SCORE_EMPTY; HIGH_SCORE_EMPTY; HIGH_SCORE_EMPTY]%Z ∧
  (∀ hs score,
     length hs = NUM_HIGH_SCORES →
     Forall (λ h, h ≠ HIGH_SCORE_EMPTY ∧ (score < h)%Z) hs →
     insert_high_score score hs = hs) ∧
  (∀ hs score,
     length hs = NUM_HIGH_SCORES → (0 ≤ score)%Z →
     length (insert_high_score score hs) = NUM_HIGH_SCORES ∧
     insert_high_score score hs = take NUM_HIGH_SCORES (insert_desc score hs) ∧
     (∀ i h, sorted_desc hs → hs !! i = Some h → (score ≤ h)%Z →
             insert_high_score score hs !! i = Some h) ∧
     (sorted_desc hs → sorted_desc (insert_high_score score hs))).
Proof.
  split; [reflexivity|]. split.
  - intros hs score Hlen Hall. unfold insert_high_score.
    rewrite find_insert_at_none; [done|]. by apply Forall_take.
  - intros hs score Hlen Hs.
    split; [by rewrite insert_high_score_length|].
    split; [by apply insert_high_score_insert_desc|].
    rewrite insert_high_score_insert_desc by done. split.
    + intros i h Hsorted Hi Hle.
      apply lookup_take_Some. split.
      * apply insert_desc_lookup_ge; [done|].
        intros j a Hj Ha. pose proof (Hsorted j i a h Hj Ha Hi). lia.
      * apply lookup_lt_Some in Hi. by rewrite <- Hlen.
    + intros Hsorted. by apply sorted_desc_take, insert_desc_sorted.
Qed.

(** A full table, 100 down to 10. *)
Definition full_scores : list Z := [100; 90; 80; 70; 60; 50; 40; 30; 20; 10]%Z.

Lemma insert_high_score_spec_witness :
  insert_high_score 5 full_scores = full_scores ∧
  insert_high_score 50 full_scores = [100; 90; 80; 70; 60; 50; 50; 40; 30; 20]%Z ∧
  insert_high_score 50 full_scores !! 5%nat = Some 50%Z.
Proof.
  destruct insert_high_score_spec as (_ & Hlow & Hins).
  split.
  - apply (Hlow full_scores 5%Z); [reflexivity|].
    unfold full_scores, HIGH_SCORE_EMPTY. repeat constructor; lia.
  - destruct (Hins full_scores 50%Z) as (_ & Heq & Hkeep & _); [reflexivity|lia|].
    split; [by rewrite Heq|].
    apply Hkeep; [|reflexivity|lia].
    intros i j a b Hij Ha Hb. unfold full_scores in *.
    do 10 (destruct i as [|i]; [do 10 (destruct j as [|j]; [simpl in *; simplify_eq; lia|]);
                                 by destruct j|]).
    by destruct i.
Defined.

(** ** What each phase of the tick leaves alone *)

(** [g'] differs from [g] at most in the beans, the blocks, Pyoro's [dead]
    flag and the death timer: the footprint of the bean loop. *)
Definition beans_frame (g g' : Game) : Prop :=
  state g' = state g ∧ angel g' = angel g ∧ score g' = score g ∧
  game_speed g' = game_speed g ∧ bean_spawn_timer g' = bean_spawn_timer g ∧
  game_paused g' = game_paused g ∧
  (∃ d, pyoro g' = set_dead d (pyoro g)) ∧
  length (beans g') = length (beans g) ∧ length (blocks g') = length (blocks g).

Lemma beans_frame_refl g : beans_frame g g.
Proof. repeat split; try done. exists (dead (pyoro g)). by destruct (pyoro g). Qed.

Lemma beans_frame_trans g1 g2 g3 : beans_frame g1 g2 → beans_frame g2 g3 → beans_frame g1 g3.
Proof.
  intros (?&?&?&?&?&?&[d1 Hp1]&?&?) (?&?&?&?&?&?&[d2 Hp2]&?&?).
  repeat split; try congruence.
  exists d2. rewrite Hp2, Hp1. by destruct (pyoro g1).
Qed.

Lemma land_bean_frame i g : beans_frame g (land_bean i g).
Proof.
  unfold land_bean. repeat split; simpl; try done.
  - exists (dead (pyoro g)). by destruct (pyoro g).
  - by rewrite length_insert.
  - repeat case_match; try done. apply length_set_block.
Qed.

Lemma update_beans_loop_frame dt idx g : beans_frame g (update_beans_loop dt idx g).
Proof.
  revert g. induction idx as [|i idx IH]; intros g; cbn [update_beans_loop];
    [apply beans_frame_refl|].
  destruct (b_active _ && negb _); [|apply IH].
  set (g1 := set_beans _ g).
  assert (Hg1 : beans_frame g g1).
  { repeat split; simpl; try done.
    - exists (dead (pyoro g)). by destruct (pyoro g).
    - by rewrite length_insert. }
  destruct (bean_hits_pyoro g1 _).
  - eapply beans_frame_trans; [exact Hg1|].
    repeat split; simpl; try done. by exists true.
  - eapply beans_frame_trans; [exact Hg1|].
    eapply beans_frame_trans; [|apply IH].
    destruct (_ >=~ _); [apply land_bean_frame|apply beans_frame_refl].
Qed.

Lemma update_angel_frame dt g :
  state (update_angel dt g) = state g ∧ pyoro (update_angel dt g) = pyoro g ∧
  beans (update_angel dt g) = beans g ∧ score (update_angel dt g) = score g ∧
  game_speed (update_angel dt g) = game_speed g ∧
  length (blocks (update_angel dt g)) = length (blocks g).
Proof.
  unfold update_angel. repeat case_match; simpl; repeat split; try done.
  apply length_set_block.
Qed.

Lemma spawn_bean_frame r1 r2 r3 g :
  state (spawn_bean r1 r2 r3 g) = state g ∧ pyoro (spawn_bean r1 r2 r3 g) = pyoro g ∧
  blocks (spawn_bean r1 r2 r3 g) = blocks g ∧ angel (spawn_bean r1 r2 r3 g) = angel g ∧
  score (spawn_bean r1 r2 r3 g) = score g ∧
  game_speed (spawn_bean r1 r2 r3 g) = game_speed g ∧
  length (beans (spawn_bean r1 r2 r3 g)) = length (beans g).
Proof.
  unfold spawn_bean. case_match; simpl; repeat split; try done.
  by rewrite length_insert.
Qed.

Lemma spawn_phase_frame dt r1 r2 r3 g :
  state (spawn_phase dt r1 r2 r3 g) = state g ∧
  pyoro (spawn_phase dt r1 r2 r3 g) = pyoro g ∧
  blocks (spawn_phase dt r1 r2 r3 g) = blocks g ∧
  angel (spawn_phase dt r1 r2 r3 g) = angel g ∧
  score (spawn_phase dt r1 r2 r3 g) = score g ∧
  game_speed (spawn_phase dt r1 r2 r3 g) = game_speed g ∧
  length (beans (spawn_phase dt r1 r2 r3 g)) = length (beans g).
Proof.
  unfold spawn_phase. case_match; simpl; [|done].
  destruct (spawn_bean_frame r1 r2 r3 (set_bean_spawn_timer (bean_spawn_timer g +~ dt) g))
    as (?&?&?&?&?&?&?).
  repeat split; done.
Qed.

Lemma spawn_angel_frame i g :
  state (spawn_angel i g) = state g ∧ pyoro (spawn_angel i g) = pyoro g ∧
  beans (spawn_angel i g) = beans g ∧ score (spawn_angel i g) = score g ∧
  game_speed (spawn_angel i g) = game_speed g ∧
  length (blocks (spawn_angel i g)) = length (blocks g).
Proof.
  unfold spawn_angel. repeat case_match; simpl; repeat split; try done.
  apply length_set_block.
Qed.

(** The tick of a live game, unfolded. *)
Lemma update_game_playing delta_time r1 r2 r3 w :
  state (s_game w) = GAME_STATE_PLAYING →
  game_paused (s_game w) = false →
  dead (pyoro (s_game w)) = false →
  let dt := delta_time *~ game_speed (s_game w) in
  let w3 := before_beans delta_time w in
  let g6 := spawn_phase dt r1 r2 r3 (update_angel dt (update_beans dt (s_game w3))) in
  update_game delta_time r1 r2 r3 w =
    mkWorld g6 (s_pending_step_dir w3) (s_pending_step_count w3) (s_high_scores w3)
            (s_last_game_score w3)
            (if bool_decide (state g6 = GAME_STATE_PLAYING) then background_for (score g6)
             else s_background_index w3)
            (s_frame_count w3).
Proof.
  intros Hst Hp Hd. unfold update_game. rewrite Hst, Hp, Hd. reflexivity.
Qed.

(** Pyoro after the whole tick is Pyoro after the tongue phase, up to the
    [dead] flag. *)
Lemma update_game_pyoro delta_time r1 r2 r3 w :
  state (s_game w) = GAME_STATE_PLAYING →
  game_paused (s_game w) = false →
  dead (pyoro (s_game w)) = false →
  ∃ d, pyoro (s_game (update_game delta_time r1 r2 r3 w))
       = set_dead d (pyoro (s_game (before_beans delta_time w))).
Proof.
  intros Hst Hp Hd. rewrite update_game_playing by done. cbv zeta. cbn [s_game].
  destruct (spawn_phase_frame (delta_time *~ game_speed (s_game w)) r1 r2 r3
              (update_angel (delta_time *~ game_speed (s_game w))
                 (update_beans (delta_time *~ game_speed (s_game w))
                    (s_game (before_beans delta_time w))))) as (_&->&_).
  destruct (update_angel_frame (delta_time *~ game_speed (s_game w))
              (update_beans (delta_time *~ game_speed (s_game w))
                 (s_game (before_beans delta_time w)))) as (_&->&_).
  destruct (update_beans_loop_frame (delta_time *~ game_speed (s_game w)) (seq 0 NUM_BEANS)
              (s_game (before_beans delta_time w))) as (_&_&_&_&_&_&Hpy&_).
  exact Hpy.
Qed.

(** The score after the whole tick is the score after the tongue phase. *)
Lemma update_game_score delta_time r1 r2 r3 w :
  state (s_game w) = GAME_STATE_PLAYING →
  game_paused (s_game w) = false →
  dead (pyoro (s_game w)) = false →
  score (s_game (update_game delta_time r1 r2 r3 w))
  = score (s_game (before_beans delta_time w)).
Proof.
  intros Hst Hp Hd. rewrite update_game_playing by done. cbv zeta. cbn [s_game].
  destruct (spawn_phase_frame (delta_time *~ game_speed (s_game w)) r1 r2 r3
              (update_angel (delta_time *~ game_speed (s_game w))
                 (update_beans (delta_time *~ game_speed (s_game w))
                    (s_game (before_beans delta_time w))))) as (_&_&_&_&->&_).
  destruct (update_angel_frame (delta_time *~ game_speed (s_game w))
              (update_beans (delta_time *~ game_speed (s_game w))
                 (s_game (before_beans delta_time w)))) as (_&_&_&->&_).
  by destruct (update_beans_loop_frame (delta_time *~ game_speed (s_game w)) (seq 0 NUM_BEANS)
              (s_game (before_beans delta_time w))) as (_&_&Hsc&_).
Qed.

(** ** Draining the step queue *)

Lemma step_blocked_true bl new_x :
  step_blocked bl new_x = true ↔
  ∃ i, i ∈ step_columns new_x ∧ (0 ≤ i)%Z ∧ exists_ (block_at bl i) = false.
Proof.
  unfold step_blocked. rewrite existsb_exists. split.
  - intros (i & Hin & Hi). apply andb_true_iff in Hi as [H0 Hex].
    exists i. rewrite list_elem_of_In. repeat split; [done|lia|].
    by destruct (exists_ _).
  - intros (i & Hin & H0 & Hex). exists i. rewrite <- list_elem_of_In.
    split; [done|]. rewrite Hex. simpl. rewrite andb_true_r. lia.
Qed.

Lemma before_beans_step delta_time w :
  t_active (tongue (pyoro (s_game w))) = false →
  (s_pending_step_count w > 0)%Z →
  s_pending_step_dir w ≠ 0%Z →
  s_pending_step_count (before_beans delta_time w) = (s_pending_step_count w - 1)%Z ∧
  p_x (pyoro (s_game (before_beans delta_time w))) =
    let new_x := candidate_x (p_x (pyoro (s_game w))) (s_pending_step_dir w) in
    if step_blocked (blocks (s_game w)) new_x then p_x (pyoro (s_game w)) else new_x.
Proof.
  intros Ht Hc Hd. unfold before_beans, drain_step_queue. cbn [s_game set_game].
  cbn [pyoro set_game_speed]. rewrite Ht.
  cbn [s_pending_step_count s_pending_step_dir set_game].
  destruct (Z.gtb_spec (s_pending_step_count w) 0) as [_|?]; [|lia].
  destruct (Z.eqb_spec (s_pending_step_dir w) 0) as [?|_]; [done|].
  cbn [andb negb]. unfold apply_pyoro_step. cbn [pyoro blocks].
  destruct (step_blocked _ _); cbn; unfold update_tongue; cbn; rewrite Ht; done.
Qed.

(** The constants of [apply_pyoro_step] in binary32: the half width is 1,
    the right bound 19. *)
Lemma half_pyoro_one : half_pyoro = of_int 1.
Proof. vm_compute. reflexivity. Qed.

Lemma right_bound_nineteen : of_int GAME_WIDTH -~ half_pyoro = of_int 19.
Proof. vm_compute. reflexivity. Qed.

(** The columns the loop visits are those from [(int)(new_x - 1)] to
    [(int)(new_x + 1)], the latter included, that are at most 19. *)
Lemma elem_of_step_columns (new_x : f32) (i : Z) :
  i ∈ step_columns new_x ↔
  (to_int (new_x -~ of_int 1) ≤ i ≤ to_int (new_x +~ of_int 1))%Z ∧ (i ≤ 19)%Z.
Proof.
  unfold step_columns. cbv zeta. rewrite half_pyoro_one, elem_of_seqZ.
  unfold GAME_WIDTH. lia.
Qed.

(** C6, amended: in a tick that drains a queued step (playing, alive,
    tongue in, steps pending), the pending count drops by exactly one.
    The candidate position is [x + dir * 0.25], set to 1 when below 1 and
    to 19 when above 19.  If one of the columns from [(int)(new_x - 1)] to
    [(int)(new_x + 1)], both included, that lie on the grid (0 to 19) has
    no block, the position is unchanged; otherwise it is the candidate
    position.  At a whole candidate position the last of these columns is
    the one the right edge of the footprint only touches. *)
Theorem queued_step_consumed (delta_time : f32) (r1 r2 r3 : Z) (w : World) :
  state (s_game w) = GAME_STATE_PLAYING →
  game_paused (s_game w) = false →
  dead (pyoro (s_game w)) = false →
  t_active (tongue (pyoro (s_game w))) = false →
  (s_pending_step_count w > 0)%Z →
  s_pending_step_dir w ≠ 0%Z →
  let w' := update_game delta_time r1 r2 r3 w in
  let raw := p_x (pyoro (s_game w)) +~ of_int (s_pending_step_dir w) *~ lit 25 2 in
  let new_x :=
    if raw <~ of_int 1 then of_int 1 else if raw >~ of_int 19 then of_int 19 else raw in
  let first := to_int (new_x -~ of_int 1) in
  let last := to_int (new_x +~ of_int 1) in
  s_pending_step_count w' = (s_pending_step_count w - 1)%Z ∧
  ((∃ i, (0 ≤ i ≤ 19)%Z ∧ (first ≤ i ≤ last)%Z ∧
         exists_ (block_at (blocks (s_game w)) i) = false) →
   p_x (pyoro (s_game w')) = p_x (pyoro (s_game w))) ∧
  ((∀ i, (0 ≤ i ≤ 19)%Z → (first ≤ i ≤ last)%Z →
         exists_ (block_at (blocks (s_game w)) i) = true) →
   p_x (pyoro (s_game w')) = new_x).
Proof.
  intros Hst Hp Hd Ht Hc Hdir w' raw new_x first last.
  destruct (before_beans_step delta_time w Ht Hc Hdir) as [Hcount Hx].
  destruct (update_game_pyoro delta_time r1 r2 r3 w Hst Hp Hd) as [d Hpy].
  assert (Hx' : p_x (pyoro (s_game w')) = p_x (pyoro (s_game (before_beans delta_time w)))).
  { unfold w'. rewrite Hpy. reflexivity. }
  assert (Hnew : candidate_x (p_x (pyoro (s_game w))) (s_pending_step_dir w) = new_x).
  { unfold candidate_x, clamp_x. rewrite right_bound_nineteen, half_pyoro_one. reflexivity. }
  cbv zeta in Hx. rewrite Hnew in Hx. clearbody new_x.
  split; [|split].
  - unfold w'. rewrite update_game_playing by done. exact Hcount.
  - intros (i & Hgrid & Hrange & Hex). rewrite Hx', Hx.
    rewrite (proj2 (step_blocked_true _ _)); [reflexivity|].
    exists i. rewrite elem_of_step_columns. unfold first, last in Hrange.
    split; [lia|]. split; [lia|exact Hex].
  - intros Hall. rewrite Hx', Hx.
    destruct (step_blocked (blocks (s_game w)) new_x) eqn:Hb; [|done].
    apply step_blocked_true in Hb as (i & Hin & H0 & Hex).
    apply elem_of_step_columns in Hin as [Hrange H19].
    rewrite (Hall i) in Hex; [discriminate|lia|exact Hrange].
Qed.

(** ** The award of a catch *)

Lemma find_bean_insert_same (p : Bean → bool) (k i : nat) (bs : list Bean) (b b' : Bean) :
  bs !! i = Some b → p b' = p b → find_bean p k (<[i := b']> bs) = find_bean p k bs.
Proof.
  revert k i. induction bs as [|c bs IH]; intros k i Hi Hp; [done|].
  destruct i as [|i]; simpl in *.
  - simplify_eq. by rewrite Hp.
  - destruct (p c); [done|]. by apply IH.
Qed.

Lemma find_bean_Some (p : Bean → bool) (k : nat) (bs : list Bean) (i : nat) :
  find_bean p k bs = Some i →
  (k ≤ i)%nat ∧ (∃ b, bs !! (i - k)%nat = Some b ∧ p b = true) ∧
  (∀ j b, (j < i - k)%nat → bs !! j = Some b → p b = false).
Proof.
  revert k. induction bs as [|c bs IH]; intros k H; [done|]. simpl in H.
  destruct (p c) eqn:Hc.
  - simplify_eq. replace (i - i)%nat with 0%nat by lia.
    split; [lia|]. split; [by exists c|]. intros j b Hj. lia.
  - apply IH in H as (Hk & (b & Hb & Hpb) & Hbefore).
    split; [lia|]. replace (i - k)%nat with (S (i - S k)) by lia. split.
    + by exists b.
    + intros [|j] b' Hj Hb'; simpl in *; simplify_eq; [done|].
      apply (Hbefore j); [lia|done].
Qed.

Lemma find_bean_None (p : Bean → bool) (k : nat) (bs : list Bean) :
  find_bean p k bs = None ↔ ∀ j b, bs !! j = Some b → p b = false.
Proof.
  revert k. induction bs as [|c bs IH]; intros k; simpl.
  - split; [|done]. intros _ j b H. by rewrite lookup_nil in H.
  - destruct (p c) eqn:Hc.
    + split; [done|]. intros H. specialize (H 0%nat c eq_refl). congruence.
    + rewrite IH. split.
      * intros H [|j] b Hb; simpl in *; simplify_eq; [done|]. by apply (H j).
      * intros H j b Hb. by apply (H (S j)).
Qed.

Lemma bean_at_lookup (bs : list Bean) (i : nat) (b : Bean) :
  bs !! i = Some b → bean_at bs i = b.
Proof. intros H. unfold bean_at. by rewrite H. Qed.

Lemma carry_bean_frame (g : Game) :
  state (carry_bean g) = state g ∧ pyoro (carry_bean g) = pyoro g ∧
  blocks (carry_bean g) = blocks g ∧ angel (carry_bean g) = angel g ∧
  score (carry_bean g) = score g ∧ game_speed (carry_bean g) = game_speed g ∧
  length (beans (carry_bean g)) = length (beans g).
Proof.
  unfold carry_bean. repeat case_match; cbn; rewrite ?length_insert; done.
Qed.

Lemma carry_bean_find (g : Game) :
  find_bean is_caught 0 (beans (carry_bean g)) = find_bean is_caught 0 (beans g).
Proof.
  unfold carry_bean. destruct (caught_bean _); [|done].
  destruct (find_bean is_caught 0 (beans g)) as [i|] eqn:Hfind; [|done].
  destruct (find_bean_Some _ _ _ _ Hfind) as (_ & (b & Hb & Hpb) & _).
  rewrite Nat.sub_0_r in Hb. cbn [beans set_beans].
  rewrite (find_bean_insert_same _ _ _ _ b); [done..|].
  rewrite (bean_at_lookup _ _ _ Hb). by destruct b.
Qed.

Lemma collect_bean_facts (i : nat) (g : Game) :
  (i < length (beans g))%nat →
  state (collect_bean i g) = state g ∧ pyoro (collect_bean i g) = pyoro g ∧
  score (collect_bean i g) = (score g + score_for_height (t_y (tongue (pyoro g))))%Z ∧
  beans (collect_bean i g) = <[i := set_b_active false (bean_at (beans g) i)]> (beans g) ∧
  length (blocks (collect_bean i g)) = length (blocks g).
Proof.
  intros Hi. unfold collect_bean.
  match goal with |- context [if decide ?P then ?a else ?c] =>
    set (g1 := if decide P then a else c) end.
  assert (Hg1 : state g1 = state g ∧ pyoro g1 = pyoro g ∧ score g1 = score g ∧
                beans g1 = beans g ∧ length (blocks g1) = length (blocks g)).
  { unfold g1. repeat case_match; try done.
    destruct (spawn_angel_frame (find_destroyed_block g) g) as (?&?&?&?&?&?). done. }
  destruct Hg1 as (Hst & Hpy & Hsc & Hbs & Hbl).
  cbn [state pyoro score beans blocks set_beans set_score].
  by rewrite Hst, Hpy, Hsc, Hbs, Hbl.
Qed.

(** The tongue phase of a tick in which the retraction completes with a
    caught bean in slot [i]. *)
Lemma tongue_retract_complete (dt : f32) (g : Game) (i : nat) :
  caught_bean (tongue (pyoro g)) = true →
  find_bean is_caught 0 (beans g) = Some i →
  let y := t_y (tongue (pyoro g)) +~ TONGUE_SPEED *~ lit 20 1 *~ dt in
  (y >=~ p_y (pyoro g)) = true →
  let g' := tongue_retract dt g in
  t_y (tongue (pyoro g')) = y ∧ t_active (tongue (pyoro g')) = false ∧
  score g' = (score g + score_for_height y)%Z ∧
  b_active (bean_at (beans g') i) = false.
Proof.
  intros Hcb Hfind y Hback g'. unfold g', tongue_retract.
  set (g1 := set_pyoro _ g).
  destruct (carry_bean_frame g1) as (_ & Hpy & _ & _ & Hsc & _ & Hlen).
  pose proof (carry_bean_find g1) as Hfind2.
  rewrite Hpy. cbn [g1 pyoro set_pyoro tongue set_tongue retract_tongue t_y p_y].
  fold y. rewrite Hback. unfold tongue_back. rewrite Hpy.
  cbn [g1 pyoro set_pyoro tongue set_tongue retract_tongue caught_bean].
  rewrite Hcb, Hfind2. cbn [g1 beans set_pyoro]. rewrite Hfind.
  destruct (find_bean_Some _ _ _ _ Hfind) as (_ & (b & Hb & _) & _).
  rewrite Nat.sub_0_r in Hb. apply lookup_lt_Some in Hb.
  destruct (collect_bean_facts i (carry_bean g1)) as (_ & Hpy3 & Hsc3 & Hbs3 & _).
  { rewrite Hlen. exact Hb. }
  cbn [pyoro set_pyoro tongue set_tongue t_y t_active score beans].
  rewrite Hpy3, Hsc3, Hbs3, Hpy, Hsc.
  cbn [g1 pyoro set_pyoro tongue set_tongue retract_tongue t_y score].
  repeat split.
  unfold bean_at at 1. rewrite list_lookup_insert_eq; [done|].
  rewrite Hlen. exact Hb.
Qed.

(** ** A recorded game *)

Definition ticks (n : nat) (r1 r2 r3 : N) : list event := replicate n (EvTick r1 r2 r3).

(** Start; beans fall on column 5 until one lands; pink beans fall on
    column 15; the tongue is shot at the lowest of them and is on its way
    back with it. *)
Definition catch_trace : list event :=
  [EvSelect] ++ ticks 560 5 99 0 ++ ticks 400 15 99 0 ++ [EvSelect] ++ ticks 6 15 99 0.

Definition retracting_world : World :=
  Eval vm_compute in run catch_trace (initial empty_scores).

Lemma retracting_world_run : retracting_world = run catch_trace (initial empty_scores).
Proof. vm_compute. reflexivity. Qed.

Lemma retracting_world_reachable : reachable retracting_world.
Proof.
  rewrite retracting_world_run. apply reachable_run. by constructor.
Qed.

(** The game speed after the increase of this tick. *)
Definition raised_speed (delta_time : f32) (g : Game) : f32 :=
  game_speed g +~ delta_time *~ game_speed g *~ SPEED_ACCELERATION.

Lemma before_beans_tongue_out (delta_time : f32) (w : World) :
  t_active (tongue (pyoro (s_game w))) = true →
  s_game (before_beans delta_time w) =
    update_tongue (delta_time *~ game_speed (s_game w))
                  (set_game_speed (raised_speed delta_time (s_game w)) (s_game w)) ∧
  s_pending_step_count (before_beans delta_time w) = 0%Z ∧
  s_pending_step_dir (before_beans delta_time w) = 0%Z.
Proof.
  intros Hta. unfold before_beans, drain_step_queue.
  cbn [s_game set_game pyoro set_game_speed]. rewrite Hta. done.
Qed.

(** C2: when a tick completes the retraction with a bean caught (the tip,
    moved by this tick, is at or below Pyoro's height), the score grows by
    [score_for_height] of the tip's height [y], and the tongue goes
    inactive.  [score_for_height] has the five bands with bounds at 20%,
    40%, 60% and 80% of the grid height, which are exactly 4, 8, 12 and 16
    in binary32: 1000 below 4, 300 below 8, 100 below 12, 50 below 16 and
    10 otherwise; so 1000 at a tenth of the height, 100 at half of it and
    10 at nine tenths. *)
Theorem retraction_award :
  (∀ (delta_time : f32) (r1 r2 r3 : Z) (w : World) (i : nat),
     state (s_game w) = GAME_STATE_PLAYING →
     game_paused (s_game w) = false →
     dead (pyoro (s_game w)) = false →
     t_active (tongue (pyoro (s_game w))) = true →
     going_back (tongue (pyoro (s_game w))) = true →
     caught_bean (tongue (pyoro (s_game w))) = true →
     find_bean is_caught 0 (beans (s_game w)) = Some i →
     let dt := delta_time *~ game_speed (s_game w) in
     let y := t_y (tongue (pyoro (s_game w))) +~ TONGUE_SPEED *~ lit 20 1 *~ dt in
     (y >=~ p_y (pyoro (s_game w))) = true →
     let w' := update_game delta_time r1 r2 r3 w in
     t_y (tongue (pyoro (s_game w'))) = y ∧
     t_active (tongue (pyoro (s_game w'))) = false ∧
     score (s_game w') = (score (s_game w) + score_for_height y)%Z) ∧
  (∀ y : f32,
     score_for_height y =
       if y <~ of_int 4 then 1000%Z
       else if y <~ of_int 8 then 300%Z
       else if y <~ of_int 12 then 100%Z
       else if y <~ of_int 16 then 50%Z
       else 10%Z) ∧
  (of_int GAME_HEIGHT *~ lit 2 1 = of_int 4 ∧ of_int GAME_HEIGHT *~ lit 4 1 = of_int 8 ∧
   of_int GAME_HEIGHT *~ lit 6 1 = of_int 12 ∧ of_int GAME_HEIGHT *~ lit 8 1 = of_int 16) ∧
  (score_for_height (of_int GAME_HEIGHT *~ lit 1 1) = 1000%Z ∧
   score_for_height (of_int GAME_HEIGHT *~ lit 5 1) = 100%Z ∧
   score_for_height (of_int GAME_HEIGHT *~ lit 9 1) = 10%Z).
Proof.
  split; [|split; [|split]].
  - intros delta_time r1 r2 r3 w i Hst Hp Hd Hta Hgb Hcb Hfind dt y Hback w'.
    destruct (update_game_pyoro delta_time r1 r2 r3 w Hst Hp Hd) as [d Hpy].
    pose proof (update_game_score delta_time r1 r2 r3 w Hst Hp Hd) as Hsc.
    fold w' in Hpy, Hsc. rewrite Hpy, Hsc. clear Hpy Hsc.
    destruct (before_beans_tongue_out delta_time w Hta) as (-> & _).
    unfold update_tongue. cbn [pyoro set_game_speed]. rewrite Hta, Hgb.
    set (g0 := set_game_speed _ (s_game w)).
    destruct (tongue_retract_complete dt g0 i Hcb Hfind Hback) as (Hy & Hact & Hscore & _).
    cbn [pyoro set_dead tongue]. fold dt. rewrite Hy, Hact, Hscore. done.
  - intros y. unfold score_for_height.
    by change (of_int GAME_HEIGHT *~ lit 2 1) with (of_int 4);
       change (of_int GAME_HEIGHT *~ lit 4 1) with (of_int 8);
       change (of_int GAME_HEIGHT *~ lit 6 1) with (of_int 12);
       change (of_int GAME_HEIGHT *~ lit 8 1) with (of_int 16).
  - repeat split; vm_compute; reflexivity.
  - repeat split; vm_compute; reflexivity.
Qed.

Lemma retraction_award_witness :
  score (s_game (game_update 15 99 0 retracting_world)) = 10%Z ∧
  t_active (tongue (pyoro (s_game (game_update 15 99 0 retracting_world)))) = false.
Proof.
  destruct retraction_award as (Haward & _).
  pose proof (Haward (lit 16 3) 15%Z 99%Z 0%Z retracting_world 1%nat) as H.
  destruct H as (_ & Hact & Hscore); [vm_compute; reflexivity..|].
  unfold game_update. split; [|exact Hact].
  rewrite Hscore. vm_compute. reflexivity.
Defined.

(** ** The repair angel *)

(** Who is being repaired: the descending angel's target, and only it. *)
Definition repair_inv (g : Game) : Prop :=
  length (blocks g) = Z.to_nat GAME_WIDTH ∧
  (a_active (angel g) = true → going_up (angel g) = false →
   (0 ≤ target_block_index (angel g) < GAME_WIDTH)%Z ∧
   is_repairing (block_at (blocks g) (target_block_index (angel g))) = true) ∧
  (∀ j, (0 ≤ j < GAME_WIDTH)%Z → is_repairing (block_at (blocks g) j) = true →
        a_active (angel g) = true ∧ going_up (angel g) = false ∧
        target_block_index (angel g) = j).

(** [g'] has the angel and the [is_repairing] flags of [g]. *)
Definition repair_same (g g' : Game) : Prop :=
  length (blocks g') = length (blocks g) ∧ angel g' = angel g ∧
  ∀ j, (0 ≤ j)%Z → is_repairing (block_at (blocks g') j) = is_repairing (block_at (blocks g) j).

Lemma repair_same_refl g : repair_same g g.
Proof. done. Qed.

Lemma repair_same_trans g1 g2 g3 : repair_same g1 g2 → repair_same g2 g3 → repair_same g1 g3.
Proof.
  intros (Hl1 & Ha1 & Hr1) (Hl2 & Ha2 & Hr2). repeat split; try congruence.
  intros j Hj. by rewrite Hr2, Hr1.
Qed.

Lemma repair_same_blocks g g' :
  blocks g' = blocks g → angel g' = angel g → repair_same g g'.
Proof. intros Hb Ha. unfold repair_same. by rewrite Hb, Ha. Qed.

Lemma repair_inv_same g g' : repair_inv g → repair_same g g' → repair_inv g'.
Proof.
  intros (Hlen & Htarget & Honly) (Hl & Ha & Hr). unfold repair_inv.
  rewrite Hl, Ha. split; [done|]. split.
  - intros Hact Hup. destruct (Htarget Hact Hup) as [Hrange Hrep].
    split; [done|]. rewrite Hr; [done|lia].
  - intros j Hj Hrep. apply Honly; [done|]. rewrite <- Hr; [done|lia].
Qed.

Lemma is_repairing_set_block_keep bl i j e :
  (0 ≤ i)%Z → (0 ≤ j)%Z →
  is_repairing (block_at (set_block i (mkBlock e (is_repairing (block_at bl i))) bl) j)
  = is_repairing (block_at bl j).
Proof.
  intros Hi Hj. destruct (decide (i = j)) as [->|Hne].
  - unfold block_at, set_block. destruct (bl !! Z.to_nat j) as [b|] eqn:Hb.
    + rewrite list_lookup_insert_eq; [done|]. by apply lookup_lt_Some in Hb.
    + rewrite list_insert_ge; [by rewrite Hb|]. by apply lookup_ge_None.
  - by apply (f_equal is_repairing), block_at_set_block_ne.
Qed.

Lemma land_bean_repair_same i g : repair_same g (land_bean i g).
Proof.
  unfold land_bean. repeat split; cbn [blocks angel set_beans set_blocks].
  - repeat case_match; try done. apply length_set_block.
  - intros j Hj. destruct (_ && _) eqn:Hrange; [|done].
    destruct (exists_ _); [|done].
    apply is_repairing_set_block_keep; [lia|done].
Qed.

Lemma update_beans_loop_repair_same dt idx g : repair_same g (update_beans_loop dt idx g).
Proof.
  revert g. induction idx as [|i idx IH]; intros g; cbn [update_beans_loop];
    [apply repair_same_refl|].
  destruct (b_active _ && negb _); [|apply IH].
  destruct (bean_hits_pyoro _ _); [by apply repair_same_blocks|].
  eapply repair_same_trans; [|apply IH].
  destruct (_ >=~ _); [|by apply repair_same_blocks].
  eapply repair_same_trans; [|apply land_bean_repair_same]. by apply repair_same_blocks.
Qed.

Lemma spawn_angel_repair_inv i g : repair_inv g → repair_inv (spawn_angel i g).
Proof.
  intros Hinv. pose proof Hinv as (Hlen & Htarget & Honly). unfold spawn_angel.
  destruct (_ || _) eqn:Hrange; [done|].
  destruct (exists_ _ || is_repairing _) eqn:Hblock; [done|].
  destruct (a_active (angel g)) eqn:Hact; [done|].
  apply orb_false_iff in Hrange as [H0 H20]. apply orb_false_iff in Hblock as [_ Hrep].
  assert (Hi : (0 ≤ i < GAME_WIDTH)%Z) by lia.
  unfold repair_inv. cbn [blocks angel set_blocks set_angel a_active going_up target_block_index].
  rewrite length_set_block. split; [done|]. split.
  - intros _ _. split; [done|]. rewrite block_at_set_block_eq; [done|lia|lia].
  - intros j Hj Hj_rep. repeat split.
    destruct (decide (i = j)) as [|Hne]; [done|].
    rewrite block_at_set_block_ne in Hj_rep by lia.
    destruct (Honly j Hj Hj_rep) as [? _]. congruence.
Qed.

Lemma update_angel_repair_inv dt g : repair_inv g → repair_inv (update_angel dt g).
Proof.
  intros Hinv. pose proof Hinv as (Hlen & Htarget & Honly). unfold update_angel.
  destruct (a_active (angel g)) eqn:Hact; [|done].
  destruct (going_up (angel g)) eqn:Hup; cbn [negb].
  - unfold repair_inv. cbn [blocks angel set_angel a_active going_up target_block_index].
    split; [done|]. split; [done|].
    intros j Hj Hrep. destruct (Honly j Hj Hrep) as (_ & ? & _). congruence.
  - destruct (Htarget eq_refl eq_refl) as [Hrange Hrep].
    destruct (_ >=~ _).
    + unfold repair_inv.
      cbn [blocks angel set_blocks set_angel a_active going_up target_block_index].
      destruct (_ && _) eqn:Hr; [|lia].
      rewrite length_set_block. split; [done|]. split; [done|].
      intros j Hj Hj_rep. exfalso.
      destruct (decide (target_block_index (angel g) = j)) as [Heq|Hne].
      * rewrite <- Heq, block_at_set_block_eq in Hj_rep; [done|lia|lia].
      * rewrite block_at_set_block_ne in Hj_rep by lia.
        destruct (Honly j Hj Hj_rep) as (_ & _ & ?). done.
    + unfold repair_inv. cbn [blocks angel set_angel a_active going_up target_block_index].
      split; [done|]. split; [done|].
      intros j Hj Hj_rep. by destruct (Honly j Hj Hj_rep) as (_ & _ & ?).
Qed.

Lemma init_game_repair_inv g :
  length (blocks g) = Z.to_nat GAME_WIDTH → repair_inv (init_game g).
Proof.
  intros Hlen. unfold repair_inv, init_game. cbn [blocks angel a_active].
  rewrite length_map. split; [done|]. split; [done|].
  intros j Hj Hrep. exfalso. unfold block_at in Hrep.
  rewrite list_lookup_fmap in Hrep. by destruct (blocks g !! Z.to_nat j).
Qed.

Lemma collect_bean_repair_inv i g : repair_inv g → repair_inv (collect_bean i g).
Proof.
  intros Hinv. unfold collect_bean.
  match goal with |- context [if decide ?P then ?a else ?c] =>
    set (g1 := if decide P then a else c) end.
  assert (Hg1 : repair_inv g1).
  { unfold g1. repeat case_match; try done. by apply spawn_angel_repair_inv. }
  eapply repair_inv_same; [exact Hg1|]. by apply repair_same_blocks.
Qed.

Lemma update_tongue_repair_inv dt g : repair_inv g → repair_inv (update_tongue dt g).
Proof.
  intros Hinv. unfold update_tongue. destruct (t_active _); [|done].
  destruct (going_back _).
  - unfold tongue_retract. set (g1 := set_pyoro _ g).
    assert (Hg2 : repair_inv (carry_bean g1)).
    { eapply repair_inv_same; [exact Hinv|].
      destruct (carry_bean_frame g1) as (_ & _ & Hb & Ha & _).
      by apply repair_same_blocks. }
    destruct (_ >=~ _); [|done].
    unfold tongue_back.
    match goal with |- context [set_pyoro _ ?g3] =>
      assert (Hg3 : repair_inv g3); [|by eapply repair_inv_same; [exact Hg3|]] end.
    repeat case_match; try done. by apply collect_bean_repair_inv.
  - eapply repair_inv_same; [exact Hinv|].
    unfold tongue_extend. case_match. by apply repair_same_blocks.
Qed.

Lemma spawn_phase_repair_inv dt r1 r2 r3 g :
  repair_inv g → repair_inv (spawn_phase dt r1 r2 r3 g).
Proof.
  intros Hinv. eapply repair_inv_same; [exact Hinv|].
  destruct (spawn_phase_frame dt r1 r2 r3 g) as (_ & _ & Hb & Ha & _).
  by apply repair_same_blocks.
Qed.

Lemma drain_step_queue_game (w : World) :
  ∃ x, s_game (drain_step_queue w) = set_pyoro (set_p_x x (pyoro (s_game w))) (s_game w).
Proof.
  unfold drain_step_queue.
  assert (Hid : s_game w = set_pyoro (set_p_x (p_x (pyoro (s_game w))) (pyoro (s_game w)))
                                     (s_game w)).
  { destruct (s_game w) as [? [] ? ? ? ? ? ? ? ?]. done. }
  destruct (t_active _); [by eexists|].
  destruct (_ && _); [|by eexists].
  unfold apply_pyoro_step. destruct (step_blocked _ _); cbn; by eexists.
Qed.

Lemma update_game_repair_inv delta_time r1 r2 r3 w :
  repair_inv (s_game w) → repair_inv (s_game (update_game delta_time r1 r2 r3 w)).
Proof.
  intros Hinv. unfold update_game.
  destruct (_ || _); [done|].
  destruct (dead _).
  - destruct (_ <=~ _); cbn [s_game set_game];
      (eapply repair_inv_same; [exact Hinv|by apply repair_same_blocks]).
  - cbn [s_game]. apply spawn_phase_repair_inv, update_angel_repair_inv.
    eapply repair_inv_same; [|apply update_beans_loop_repair_same].
    unfold before_beans. cbn [s_game set_game]. apply update_tongue_repair_inv.
    destruct (drain_step_queue_game
                (set_game (set_game_speed
                   (game_speed (s_game w) +~ delta_time *~ game_speed (s_game w) *~
                    SPEED_ACCELERATION) (s_game w)) w)) as [x ->].
    eapply repair_inv_same; [exact Hinv|]. by apply repair_same_blocks.
Qed.

Lemma handle_repair_inv e w : repair_inv (s_game w) → repair_inv (s_game (handle e w)).
Proof.
  intros Hinv. destruct e; cbn [handle].
  - by apply update_game_repair_inv.
  - unfold prv_select_click_handler.
    destruct (state (s_game w)).
    + unfold reset_game. cbn [s_game].
      eapply repair_inv_same; [apply init_game_repair_inv, Hinv|].
      by apply repair_same_blocks.
    + by repeat case_match.
    + done.
  - unfold prv_up_click_handler, direction_click. by repeat case_match.
  - unfold prv_down_click_handler, direction_click. by repeat case_match.
  - unfold prv_up_repeating_click_handler, direction_click. by repeat case_match.
  - unfold prv_down_repeating_click_handler, direction_click. by repeat case_match.
Qed.

Lemma reachable_repair_inv w : reachable w → repair_inv (s_game w).
Proof.
  induction 1 as [hs Hhs|e w Hw IH].
  - by apply init_game_repair_inv.
  - by apply handle_repair_inv.
Qed.

(** The recorded game one tick later: the pink bean has been collected
    and the angel is on its way down to block 5. *)
Definition descending_world : World :=
  Eval vm_compute in run (ticks 1 15 99 0) retracting_world.

(** And 33 ticks later: block 5 is repaired and the angel flies up. *)
Definition ascending_world : World :=
  Eval vm_compute in run (ticks 33 15 99 0) descending_world.

Lemma descending_world_reachable : reachable descending_world.
Proof.
  replace descending_world with (run (ticks 1 15 99 0) retracting_world)
    by (vm_compute; reflexivity).
  apply reachable_run, retracting_world_reachable.
Qed.

Lemma ascending_world_reachable : reachable ascending_world.
Proof.
  replace ascending_world with (run (ticks 33 15 99 0) descending_world)
    by (vm_compute; reflexivity).
  apply reachable_run, descending_world_reachable.
Qed.

(** C3, as stated, fails: in a reachable state the angel is active, on
    its way up, and its target block 5 is no longer marked. *)
Lemma angel_active_block_not_repairing :
  reachable ascending_world ∧
  a_active (angel (s_game ascending_world)) = true ∧
  going_up (angel (s_game ascending_world)) = true ∧
  target_block_index (angel (s_game ascending_world)) = 5%Z ∧
  is_repairing (block_at (blocks (s_game ascending_world))
                         (target_block_index (angel (s_game ascending_world)))) = false.
Proof.
  split; [apply ascending_world_reachable|]. repeat split; vm_compute; reflexivity.
Qed.

(** C3, amended: there is one angel record; in every reachable state,
    while the angel is active and descending, its target is a column of
    the grid whose block is marked [is_repairing], and a block is marked
    [is_repairing] only if it is the target of the active, descending
    angel: at most one block is under repair. *)
Theorem descending_angel_marks_target (w : World) :
  reachable w →
  (a_active (angel (s_game w)) = true → going_up (angel (s_game w)) = false →
   (0 ≤ target_block_index (angel (s_game w)) < GAME_WIDTH)%Z ∧
   is_repairing (block_at (blocks (s_game w)) (target_block_index (angel (s_game w)))) = true) ∧
  (∀ j, (0 ≤ j < GAME_WIDTH)%Z → is_repairing (block_at (blocks (s_game w)) j) = true →
        a_active (angel (s_game w)) = true ∧ going_up (angel (s_game w)) = false ∧
        target_block_index (angel (s_game w)) = j).
Proof.
  intros Hw. by destruct (reachable_repair_inv w Hw) as (_ & Htarget & Honly).
Qed.

Lemma descending_angel_marks_target_witness :
  target_block_index (angel (s_game descending_world)) = 5%Z ∧
  is_repairing (block_at (blocks (s_game descending_world))
                         (target_block_index (angel (s_game descending_world)))) = true.
Proof.
  split; [vm_compute; reflexivity|].
  pose proof (descending_angel_marks_target descending_world descending_world_reachable)
    as [Htarget _].
  destruct Htarget as [_ Hrep]; [vm_compute; reflexivity..|]. exact Hrep.
Defined.

(** ** Pyoro stays on the stage *)

#[global] Instance f32_eq_dec : EqDecision spec_float.
Proof. solve_decision. Defined.

(** The quarter positions from 1 to 19. *)
Definition stage_xs : list f32 := (λ k, of_int k /~ of_int 4) <$> seqZ 4 73.

(** [PYORO_SIZE / 2 <= x <= GAME_WIDTH - PYORO_SIZE / 2] *)
Definition in_stage (x : f32) : Prop :=
  (half_pyoro <=~ x) = true ∧ (x <=~ of_int GAME_WIDTH -~ half_pyoro) = true.

Lemma stage_xs_closed (x : f32) (step_dir : Z) :
  x ∈ stage_xs → step_dir = 1%Z ∨ step_dir = (-1)%Z → candidate_x x step_dir ∈ stage_xs.
Proof.
  assert (H : Forall (λ x, candidate_x x 1 ∈ stage_xs ∧ candidate_x x (-1) ∈ stage_xs) stage_xs).
  { apply (bool_decide_unpack _). vm_compute. exact I. }
  intros Hx Hdir. rewrite Forall_forall in H. destruct (H x Hx) as [H1 H2].
  by destruct Hdir as [->| ->].
Qed.

Lemma stage_xs_in_stage (x : f32) : x ∈ stage_xs → in_stage x.
Proof.
  assert (H : Forall (λ x, (half_pyoro <=~ x) = true ∧
                           (x <=~ of_int GAME_WIDTH -~ half_pyoro) = true) stage_xs).
  { apply (bool_decide_unpack _). vm_compute. exact I. }
  intros Hx. rewrite Forall_forall in H. exact (H x Hx).
Qed.

(** The tick outside a running game, and the tick of the death delay. *)
Lemma update_game_idle delta_time r1 r2 r3 w :
  state (s_game w) ≠ GAME_STATE_PLAYING ∨ game_paused (s_game w) = true →
  update_game delta_time r1 r2 r3 w = w.
Proof.
  intros H. unfold update_game. destruct H as [H|H].
  - by rewrite (bool_decide_eq_false_2 _ H).
  - rewrite H. by rewrite orb_true_r.
Qed.

Lemma update_game_dead delta_time r1 r2 r3 w :
  state (s_game w) = GAME_STATE_PLAYING →
  game_paused (s_game w) = false →
  dead (pyoro (s_game w)) = true →
  let g1 := set_death_timer (death_timer (s_game w) -~ delta_time) (s_game w) in
  update_game delta_time r1 r2 r3 w =
    if death_timer g1 <=~ lit 0 1 then
      mkWorld (set_state GAME_STATE_GAME_OVER g1)
              (s_pending_step_dir w) (s_pending_step_count w)
              (insert_high_score (score g1) (s_high_scores w))
              (score g1) (s_background_index w) (s_frame_count w)
    else set_game g1 w.
Proof.
  intros Hst Hp Hd. unfold update_game. rewrite Hst, Hp, Hd. reflexivity.
Qed.

(** The three ways a tick can go. *)
Lemma update_game_cases (w : World) :
  (state (s_game w) ≠ GAME_STATE_PLAYING ∨ game_paused (s_game w) = true) ∨
  (state (s_game w) = GAME_STATE_PLAYING ∧ game_paused (s_game w) = false ∧
   dead (pyoro (s_game w)) = true) ∨
  (state (s_game w) = GAME_STATE_PLAYING ∧ game_paused (s_game w) = false ∧
   dead (pyoro (s_game w)) = false).
Proof.
  destruct (decide (state (s_game w) = GAME_STATE_PLAYING)); [|tauto].
  destruct (game_paused (s_game w)); [tauto|].
  destruct (dead (pyoro (s_game w))); tauto.
Qed.

(** Pyoro stands on a quarter position and the queue holds a direction. *)
Definition step_inv (w : World) : Prop :=
  p_x (pyoro (s_game w)) ∈ stage_xs ∧
  (s_pending_step_dir w = 0%Z ∨ s_pending_step_dir w = 1%Z ∨ s_pending_step_dir w = (-1)%Z).

Lemma tongue_back_pyoro (g : Game) : ∃ t, pyoro (tongue_back g) = set_tongue t (pyoro g).
Proof.
  unfold tongue_back.
  match goal with |- context [set_pyoro _ ?g3] => assert (Hg3 : pyoro g3 = pyoro g) end.
  { repeat case_match; try done. unfold collect_bean. cbn [pyoro set_beans set_score].
    repeat case_match; try done. by destruct (spawn_angel_frame (find_destroyed_block g) g)
      as (_ & ? & _). }
  cbn [pyoro set_pyoro]. rewrite Hg3. by eexists.
Qed.

Lemma update_tongue_pyoro (dt : f32) (g : Game) :
  ∃ t, pyoro (update_tongue dt g) = set_tongue t (pyoro g).
Proof.
  assert (Hid : pyoro g = set_tongue (tongue (pyoro g)) (pyoro g)) by by destruct (pyoro g).
  unfold update_tongue. destruct (t_active _); [|by eexists].
  destruct (going_back _).
  - unfold tongue_retract. set (g1 := set_pyoro _ g).
    destruct (carry_bean_frame g1) as (_ & Hpy & _).
    destruct (_ >=~ _).
    + destruct (tongue_back_pyoro (carry_bean g1)) as [t ->]. rewrite Hpy.
      unfold g1. cbn. by eexists.
    + rewrite Hpy. unfold g1. cbn. by eexists.
  - unfold tongue_extend. case_match. cbn. by eexists.
Qed.

Lemma before_beans_step_inv (delta_time : f32) (w : World) :
  step_inv w → step_inv (before_beans delta_time w).
Proof.
  intros [Hx Hdir]. unfold before_beans, step_inv.
  cbn [s_game set_game s_pending_step_dir].
  match goal with |- context [update_tongue ?dt ?g] =>
    destruct (update_tongue_pyoro dt g) as [t ->] end.
  cbn [p_x set_tongue]. unfold drain_step_queue.
  cbn [s_game set_game pyoro set_game_speed s_pending_step_dir s_pending_step_count].
  destruct (t_active _); [cbn; tauto|].
  destruct (_ && _) eqn:Hq; [|done].
  apply andb_true_iff in Hq as [_ Hnz]. apply negb_true_iff, Z.eqb_neq in Hnz.
  cbn [s_game set_game set_pending s_pending_step_dir]. split.
  - unfold apply_pyoro_step. cbn [pyoro blocks]. destruct (step_blocked _ _); cbn; [done|].
    apply stage_xs_closed; [done|]. destruct Hdir as [?|[?|?]]; [done|tauto..].
  - case_match; tauto.
Qed.

Lemma update_game_step_inv delta_time r1 r2 r3 w :
  step_inv w → step_inv (update_game delta_time r1 r2 r3 w).
Proof.
  intros Hinv.
  destruct (update_game_cases w) as [Hidle|[(Hst & Hp & Hd)|(Hst & Hp & Hd)]].
  - by rewrite update_game_idle.
  - rewrite update_game_dead by done. cbv zeta. by destruct (_ <=~ _).
  - destruct (before_beans_step_inv delta_time w Hinv) as [Hx Hdir].
    destruct (update_game_pyoro delta_time r1 r2 r3 w Hst Hp Hd) as [d Hpy].
    split.
    + rewrite Hpy. exact Hx.
    + rewrite update_game_playing by done. exact Hdir.
Qed.

Lemma direction_click_step_inv dir steps w :
  dir = 1%Z ∨ dir = (-1)%Z → step_inv w → step_inv (direction_click dir steps w).
Proof.
  intros Hdir [Hx Hd]. unfold direction_click. destruct (_ && _); [|done].
  destruct (_ =? _)%Z; split; cbn; tauto.
Qed.

Lemma handle_step_inv e w : step_inv w → step_inv (handle e w).
Proof.
  intros Hinv. destruct e; cbn [handle].
  - by apply update_game_step_inv.
  - unfold prv_select_click_handler. destruct Hinv as [Hx Hd].
    destruct (state (s_game w)).
    + split; [|cbn; tauto]. apply (bool_decide_unpack _). vm_compute. exact I.
    + repeat case_match; try done. split; cbn; tauto.
    + done.
  - apply direction_click_step_inv; tauto.
  - apply direction_click_step_inv; tauto.
  - apply direction_click_step_inv; tauto.
  - apply direction_click_step_inv; tauto.
Qed.

Lemma reachable_step_inv w : reachable w → step_inv w.
Proof.
  induction 1 as [hs Hhs|e w Hw IH].
  - split; [|cbn; tauto]. apply (bool_decide_unpack _). vm_compute. exact I.
  - by apply handle_step_inv.
Qed.

(** C7: in every reachable state Pyoro's [x] lies in
    [[PYORO_SIZE / 2, GAME_WIDTH - PYORO_SIZE / 2]], which is [[1, 19]], and
    so it does after one more step to either side, applied or refused. *)
Theorem pyoro_stays_on_stage (w : World) :
  reachable w →
  in_stage (p_x (pyoro (s_game w))) ∧
  (∀ step_dir, step_dir = 1%Z ∨ step_dir = (-1)%Z →
     in_stage (p_x (pyoro (fst (apply_pyoro_step step_dir (s_game w)))))) ∧
  half_pyoro = of_int 1 ∧ of_int GAME_WIDTH -~ half_pyoro = of_int 19.
Proof.
  intros Hw. destruct (reachable_step_inv w Hw) as [Hx _].
  split; [by apply stage_xs_in_stage|]. split; [|split; vm_compute; reflexivity].
  intros step_dir Hdir. unfold apply_pyoro_step.
  destruct (step_blocked _ _); cbn [fst pyoro set_pyoro p_x set_p_x];
    apply stage_xs_in_stage; [done|]. by apply stage_xs_closed.
Qed.

(** The queue filled to its cap of 60 steps to the right: Pyoro runs into
    the right wall. *)
Definition right_wall_world : World :=
  Eval vm_compute in
    run ([EvSelect] ++ replicate 18 EvDownRepeat ++ ticks 72 5 99 0) (initial empty_scores).

Lemma right_wall_world_reachable : reachable right_wall_world.
Proof.
  replace right_wall_world
    with (run ([EvSelect] ++ replicate 18 EvDownRepeat ++ ticks 72 5 99 0)
              (initial empty_scores)) by (vm_compute; reflexivity).
  apply reachable_run. by constructor.
Qed.

Lemma pyoro_stays_on_stage_witness :
  p_x (pyoro (s_game right_wall_world)) = of_int 19 ∧
  in_stage (p_x (pyoro (s_game right_wall_world))) ∧
  in_stage (p_x (pyoro (fst (apply_pyoro_step 1 (s_game right_wall_world))))).
Proof.
  split; [vm_compute; reflexivity|].
  pose proof (pyoro_stays_on_stage right_wall_world right_wall_world_reachable)
    as (Hin & Hstep & _).
  split; [exact Hin|]. apply Hstep. by left.
Defined.

(** ** The queued step, on recorded games *)

(** The world [walking_world] with the block under Pyoro's right edge
    destroyed. *)
Definition walking_world_holed : World :=
  set_game (set_blocks (set_block 11 (mkBlock false false) (blocks (s_game walking_world)))
                       (s_game walking_world)) walking_world.

(** Pyoro at the right wall, with one more step to the right queued. *)
Definition pushing_world : World := Eval vm_compute in handle EvDown right_wall_world.

Lemma all_blocks_exist (g : Game) :
  forallb exists_ (blocks g) = true → length (blocks g) = 20%nat →
  ∀ i, (0 ≤ i ≤ 19)%Z → exists_ (block_at (blocks g) i) = true.
Proof.
  intros Hall Hlen i Hi. unfold block_at.
  destruct (blocks g !! Z.to_nat i) as [b|] eqn:Hb.
  - rewrite forallb_forall in Hall. apply Hall. rewrite <- list_elem_of_In.
    by eapply list_elem_of_lookup_2.
  - apply lookup_ge_None in Hb. lia.
Qed.

Lemma queued_step_consumed_witness :
  s_pending_step_count (game_update 0 0 0 walking_world) = 2%Z ∧
  p_x (pyoro (s_game (game_update 0 0 0 walking_world))) = lit 1025 2 ∧
  p_x (pyoro (s_game (game_update 0 0 0 walking_world_holed))) = lit 100 1 ∧
  p_x (pyoro (s_game pushing_world)) +~ of_int 1 *~ lit 25 2 = lit 1925 2 ∧
  p_x (pyoro (s_game (game_update 0 0 0 pushing_world))) = of_int 19.
Proof.
  pose proof (queued_step_consumed (lit 16 3) 0 0 0 walking_world) as Hq.
  destruct Hq as (Hc & _ & Hmove); [vm_compute; reflexivity..|vm_compute; discriminate|].
  pose proof (queued_step_consumed (lit 16 3) 0 0 0 walking_world_holed) as Hq.
  destruct Hq as (_ & Hstay & _); [vm_compute; reflexivity..|vm_compute; discriminate|].
  pose proof (queued_step_consumed (lit 16 3) 0 0 0 pushing_world) as Hq.
  destruct Hq as (_ & _ & Hwall); [vm_compute; reflexivity..|vm_compute; discriminate|].
  unfold game_update. split; [|split; [|split; [|split]]].
  - rewrite Hc. vm_compute. reflexivity.
  - rewrite Hmove; [vm_compute; reflexivity|].
    intros i Hi _. apply all_blocks_exist; [vm_compute; reflexivity..|exact Hi].
  - rewrite Hstay; [vm_compute; reflexivity|].
    exists 11%Z. split; [lia|]. split; [|vm_compute; reflexivity].
    split; apply Z.leb_le; vm_compute; reflexivity.
  - vm_compute. reflexivity.
  - rewrite Hwall; [vm_compute; reflexivity|].
    intros i Hi _. apply all_blocks_exist; [vm_compute; reflexivity..|exact Hi].
Defined.

(** The grid columns spanned by the footprint at [new_x], in the words of
    the specification: column [c] is the cell from [c] to [c + 1], the
    footprint reaches from [new_x - PYORO_SIZE / 2] to
    [new_x + PYORO_SIZE / 2], and the column is spanned when the two
    overlap in more than a point. *)
Definition footprint_columns (new_x : f32) : list Z :=
  List.filter (λ c, (of_int c <~ new_x +~ half_pyoro) && (new_x -~ half_pyoro <~ of_int (c + 1)))
              (seqZ 0 GAME_WIDTH).

(** A bean has destroyed block 13; Pyoro has walked seven quarter steps to
    the right, to 11.75, and one more step is queued. *)
Definition touching_world : World :=
  Eval vm_compute in
    run ([EvSelect] ++ ticks 540 13 99 0 ++ replicate 8 EvDown ++ ticks 7 13 99 0)
        (initial empty_scores).

Lemma touching_world_reachable : reachable touching_world.
Proof.
  replace touching_world
    with (run ([EvSelect] ++ ticks 540 13 99 0 ++ replicate 8 EvDown ++ ticks 7 13 99 0)
              (initial empty_scores)) by (vm_compute; reflexivity).
  apply reachable_run. by constructor.
Qed.

(** C6, as stated, fails: in a reachable state the candidate position is
    12, the footprint from 11 to 13 spans the columns 11 and 12, every
    block but block 13 exists, and yet the tick refuses the step: the loop
    also looks at column [(int)13.0], which the footprint only touches. *)
Lemma step_refused_at_touched_column :
  reachable touching_world ∧
  state (s_game touching_world) = GAME_STATE_PLAYING ∧
  game_paused (s_game touching_world) = false ∧
  dead (pyoro (s_game touching_world)) = false ∧
  t_active (tongue (pyoro (s_game touching_world))) = false ∧
  s_pending_step_count touching_world = 1%Z ∧ s_pending_step_dir touching_world = 1%Z ∧
  p_x (pyoro (s_game touching_world)) = lit 1175 2 ∧
  candidate_x (p_x (pyoro (s_game touching_world))) 1 = of_int 12 ∧
  footprint_columns (of_int 12) = [11; 12]%Z ∧
  map exists_ (blocks (s_game touching_world))
  = [true; true; true; true; true; true; true; true; true; true;
     true; true; true; false; true; true; true; true; true; true] ∧
  p_x (pyoro (s_game (game_update 13 99 0 touching_world))) = lit 1175 2 ∧
  s_pending_step_count (game_update 13 99 0 touching_world) = 0%Z.
Proof.
  split; [apply touching_world_reachable|]. repeat split; vm_compute; reflexivity.
Qed.

(** ** Caught beans *)

(** The number of slots with [active && caught]. *)
Fixpoint count_caught (bs : list Bean) : nat :=
  match bs with
  | [] => 0
  | b :: rest => (if is_caught b then 1 else 0) + count_caught rest
  end.

(** One caught bean while the tongue holds one, none otherwise; and a
    tongue that holds a bean is on its way back. *)
Definition catch_inv (g : Game) : Prop :=
  count_caught (beans g)
  = (if t_active (tongue (pyoro g)) && caught_bean (tongue (pyoro g)) then 1 else 0)%nat ∧
  (t_active (tongue (pyoro g)) = true → caught_bean (tongue (pyoro g)) = true →
   going_back (tongue (pyoro g)) = true).

Lemma count_caught_insert (bs : list Bean) (i : nat) (b b' : Bean) :
  bs !! i = Some b →
  (count_caught (<[i := b']> bs) + (if is_caught b then 1 else 0)
   = count_caught bs + (if is_caught b' then 1 else 0))%nat.
Proof.
  revert i. induction bs as [|c bs IH]; intros i Hi; [done|].
  destruct i as [|i]; simpl in *.
  - simplify_eq. lia.
  - specialize (IH i Hi). lia.
Qed.

Lemma count_caught_insert_free (bs : list Bean) (i : nat) (b' : Bean) :
  is_caught (bean_at bs i) = false → is_caught b' = false →
  count_caught (<[i := b']> bs) = count_caught bs.
Proof.
  intros Hb Hb'. unfold bean_at in Hb. destruct (bs !! i) as [b|] eqn:Hi.
  - pose proof (count_caught_insert bs i b b' Hi) as H. simpl in Hb.
    rewrite Hb, Hb' in H. lia.
  - rewrite list_insert_ge; [done|]. by apply lookup_ge_None.
Qed.

Lemma count_caught_ge_1 (bs : list Bean) (i : nat) (b : Bean) :
  bs !! i = Some b → is_caught b = true → (1 ≤ count_caught bs)%nat.
Proof.
  revert i. induction bs as [|c bs IH]; intros i Hi Hb; [done|].
  destruct i as [|i]; simpl in *.
  - simplify_eq. rewrite Hb. lia.
  - specialize (IH i Hi Hb). lia.
Qed.

Lemma count_caught_ge_2 (bs : list Bean) (i j : nat) (bi bj : Bean) :
  i ≠ j → bs !! i = Some bi → bs !! j = Some bj →
  is_caught bi = true → is_caught bj = true → (2 ≤ count_caught bs)%nat.
Proof.
  revert i j. induction bs as [|c bs IH]; intros i j Hne Hi Hj Hbi Hbj; [done|].
  destruct i as [|i], j as [|j]; simpl in *; simplify_eq.
  - rewrite Hbi. pose proof (count_caught_ge_1 bs j bj Hj Hbj). lia.
  - rewrite Hbj. pose proof (count_caught_ge_1 bs i bi Hi Hbi). lia.
  - assert (Hij : i ≠ j) by congruence. pose proof (IH i j Hij Hi Hj Hbi Hbj). lia.
Qed.

Lemma count_caught_pos (bs : list Bean) :
  (0 < count_caught bs)%nat → ∃ i b, bs !! i = Some b ∧ is_caught b = true.
Proof.
  induction bs as [|c bs IH]; simpl; [lia|]. intros H.
  destruct (is_caught c) eqn:Hc.
  - by exists 0%nat, c.
  - destruct IH as (i & b & Hi & Hb); [lia|]. by exists (S i), b.
Qed.

Lemma count_caught_find (bs : list Bean) :
  (0 < count_caught bs)%nat → ∃ i, find_bean is_caught 0 bs = Some i.
Proof.
  intros H. destruct (find_bean is_caught 0 bs) as [i|] eqn:Hfind; [by eexists|].
  destruct (count_caught_pos bs H) as (i & b & Hi & Hb).
  rewrite find_bean_None in Hfind. rewrite (Hfind i b Hi) in Hb. done.
Qed.

(** [g'] has the caught beans and the tongue flags of [g]. *)
Definition catch_same (g g' : Game) : Prop :=
  count_caught (beans g') = count_caught (beans g) ∧
  t_active (tongue (pyoro g')) = t_active (tongue (pyoro g)) ∧
  caught_bean (tongue (pyoro g')) = caught_bean (tongue (pyoro g)) ∧
  going_back (tongue (pyoro g')) = going_back (tongue (pyoro g)).

Lemma catch_inv_same g g' : catch_inv g → catch_same g g' → catch_inv g'.
Proof.
  intros [Hcount Hback] (Hc & Ha & Hcb & Hgb). unfold catch_inv.
  by rewrite Hc, Ha, Hcb, Hgb.
Qed.

Lemma catch_same_trans g1 g2 g3 : catch_same g1 g2 → catch_same g2 g3 → catch_same g1 g3.
Proof. intros (?&?&?&?) (?&?&?&?). repeat split; congruence. Qed.

Lemma catch_same_eq g g' :
  beans g' = beans g → tongue (pyoro g') = tongue (pyoro g) → catch_same g g'.
Proof. intros Hb Ht. unfold catch_same. by rewrite Hb, Ht. Qed.

Lemma carry_bean_catch_same g : catch_same g (carry_bean g).
Proof.
  unfold carry_bean. destruct (caught_bean _); [|done].
  destruct (find_bean is_caught 0 (beans g)) as [i|] eqn:Hfind; [|done].
  destruct (find_bean_Some _ _ _ _ Hfind) as (_ & (b & Hb & Hpb) & _).
  rewrite Nat.sub_0_r in Hb. repeat split. cbn [beans set_beans].
  pose proof (count_caught_insert (beans g) i b
                (set_b_pos (t_x (tongue (pyoro g))) (t_y (tongue (pyoro g)))
                           (bean_at (beans g) i)) Hb) as H.
  rewrite (bean_at_lookup _ _ _ Hb) in *.
  assert (Hpos : ∀ x y, is_caught (set_b_pos x y b) = is_caught b) by by destruct b.
  rewrite Hpos in H. lia.
Qed.

Lemma land_bean_catch_same i g :
  is_caught (bean_at (beans g) i) = false → catch_same g (land_bean i g).
Proof.
  intros Hb. unfold land_bean. repeat split. cbn [beans set_beans set_blocks].
  apply count_caught_insert_free; [done|]. unfold is_caught. done.
Qed.

Lemma update_beans_loop_catch_same dt idx g : catch_same g (update_beans_loop dt idx g).
Proof.
  revert g. induction idx as [|i idx IH]; intros g; cbn [update_beans_loop]; [done|].
  destruct (b_active _ && negb _) eqn:Hfree; [|apply IH].
  apply andb_true_iff in Hfree as [_ Hnc]. apply negb_true_iff in Hnc.
  assert (Hb : is_caught (bean_at (beans g) i) = false).
  { unfold is_caught. rewrite Hnc. apply andb_false_r. }
  set (b1 := set_b_pos _ _ (bean_at (beans g) i)).
  assert (Hb1 : is_caught b1 = false).
  { unfold is_caught, b1. cbn. rewrite Hnc. apply andb_false_r. }
  assert (Hg1 : catch_same g (set_beans (<[i := b1]> (beans g)) g)).
  { repeat split. cbn [beans set_beans]. by apply count_caught_insert_free. }
  destruct (bean_hits_pyoro _ _).
  - eapply catch_same_trans; [exact Hg1|]. by apply catch_same_eq.
  - eapply catch_same_trans; [exact Hg1|]. eapply catch_same_trans; [|apply IH].
    destruct (_ >=~ _); [|done].
    apply land_bean_catch_same. cbn [beans set_beans]. unfold bean_at.
    destruct (beans g !! i) as [b|] eqn:Hi.
    + rewrite list_lookup_insert_eq; [done|]. by apply lookup_lt_Some in Hi.
    + rewrite list_insert_ge; [by rewrite Hi|]. by apply lookup_ge_None.
Qed.

Lemma spawn_bean_catch_same r1 r2 r3 g : catch_same g (spawn_bean r1 r2 r3 g).
Proof.
  unfold spawn_bean. destruct (find_bean _ 0 (beans g)) as [i|] eqn:Hfind; [|done].
  destruct (find_bean_Some _ _ _ _ Hfind) as (_ & (b & Hb & Hpb) & _).
  rewrite Nat.sub_0_r in Hb. apply negb_true_iff in Hpb.
  repeat split. cbn [beans set_beans].
  apply count_caught_insert_free; [|done].
  rewrite (bean_at_lookup _ _ _ Hb). unfold is_caught. by rewrite Hpb.
Qed.

Lemma spawn_phase_catch_same dt r1 r2 r3 g : catch_same g (spawn_phase dt r1 r2 r3 g).
Proof.
  unfold spawn_phase. destruct (_ >=~ _); [|done].
  eapply catch_same_trans; [|by apply catch_same_eq].
  eapply catch_same_trans; [|apply spawn_bean_catch_same]. done.
Qed.

Lemma update_angel_catch_same dt g : catch_same g (update_angel dt g).
Proof.
  destruct (update_angel_frame dt g) as (_ & Hpy & Hb & _).
  apply catch_same_eq; [done|by rewrite Hpy].
Qed.

Lemma tongue_back_catch_inv g :
  catch_inv g → t_active (tongue (pyoro g)) = true → catch_inv (tongue_back g).
Proof.
  intros [Hcount Hback] Hact. rewrite Hact in Hcount. cbn [andb] in Hcount.
  unfold tongue_back.
  match goal with |- context [set_pyoro _ ?g3] =>
    assert (Hg3 : count_caught (beans g3) = 0%nat) end.
  { destruct (caught_bean _); [|done].
    destruct (count_caught_find (beans g)) as [i Hfind]; [lia|]. rewrite Hfind.
    destruct (find_bean_Some _ _ _ _ Hfind) as (_ & (b & Hb & Hpb) & _).
    rewrite Nat.sub_0_r in Hb.
    destruct (collect_bean_facts i g) as (_ & _ & _ & -> & _);
      [by apply lookup_lt_Some in Hb|].
    pose proof (count_caught_insert (beans g) i b
                  (set_b_active false (bean_at (beans g) i)) Hb) as H.
    rewrite Hpb in H. unfold is_caught at 1 in H. cbn in H. lia. }
  unfold catch_inv. cbn [beans pyoro set_pyoro tongue set_tongue t_active andb].
  by rewrite Hg3.
Qed.

Lemma update_tongue_catch_inv dt g : catch_inv g → catch_inv (update_tongue dt g).
Proof.
  intros Hinv. unfold update_tongue.
  destruct (t_active (tongue (pyoro g))) eqn:Hact; [|done].
  destruct (going_back (tongue (pyoro g))) eqn:Hgb.
  - unfold tongue_retract. set (g1 := set_pyoro _ g).
    assert (Hg1 : catch_same g g1) by done.
    assert (Hg2 : catch_inv (carry_bean g1)).
    { eapply catch_inv_same; [exact Hinv|].
      eapply catch_same_trans; [exact Hg1|apply carry_bean_catch_same]. }
    destruct (_ >=~ _); [|done].
    apply tongue_back_catch_inv; [done|].
    destruct (carry_bean_frame g1) as (_ & -> & _). done.
  - destruct Hinv as [Hcount Hback]. rewrite Hact in Hcount.
    destruct (caught_bean (tongue (pyoro g))) eqn:Hcb.
    { specialize (Hback Hact eq_refl). congruence. }
    cbn [andb] in Hcount. unfold tongue_extend.
    destruct (find_bean _ 0 (beans g)) as [i|] eqn:Hfind.
    + destruct (find_bean_Some _ _ _ _ Hfind) as (_ & (b & Hb & Hpb) & _).
      rewrite Nat.sub_0_r in Hb. unfold tongue_hits in Hpb.
      apply andb_true_iff in Hpb as [Hpb _]. apply andb_true_iff in Hpb as [Hba Hbc].
      apply negb_true_iff in Hbc.
      unfold catch_inv. cbn [beans set_beans pyoro set_pyoro tongue set_tongue].
      rewrite Hact.
      pose proof (count_caught_insert (beans g) i b
                    (set_caught true (bean_at (beans g) i)) Hb) as H.
      rewrite (bean_at_lookup _ _ _ Hb) in *.
      unfold is_caught in H. cbn in H. rewrite Hba, Hbc in H. cbn in H.
      by destruct (_ || _); cbn; (split; [lia|]).
    + unfold catch_inv. cbn [beans set_beans pyoro set_pyoro tongue set_tongue].
      rewrite Hact, Hcb. by destruct (_ || _); cbn; rewrite ?Hact, ?Hcb.
Qed.

Lemma init_game_catch_inv g : catch_inv (init_game g).
Proof.
  unfold catch_inv, init_game. cbn [beans pyoro tongue t_active andb]. split; [|done].
  induction (beans g) as [|b bs IH]; [done|]. cbn. exact IH.
Qed.

Lemma update_game_catch_inv delta_time r1 r2 r3 w :
  catch_inv (s_game w) → catch_inv (s_game (update_game delta_time r1 r2 r3 w)).
Proof.
  intros Hinv. unfold update_game.
  destruct (_ || _); [done|].
  destruct (dead _).
  - by destruct (_ <=~ _).
  - cbn [s_game].
    eapply catch_inv_same; [|apply spawn_phase_catch_same].
    eapply catch_inv_same; [|apply update_angel_catch_same].
    eapply catch_inv_same; [|apply update_beans_loop_catch_same].
    unfold before_beans. cbn [s_game set_game]. apply update_tongue_catch_inv.
    destruct (drain_step_queue_game
                (set_game (set_game_speed
                   (game_speed (s_game w) +~ delta_time *~ game_speed (s_game w) *~
                    SPEED_ACCELERATION) (s_game w)) w)) as [x ->].
    done.
Qed.

Lemma handle_catch_inv e w : catch_inv (s_game w) → catch_inv (s_game (handle e w)).
Proof.
  intros Hinv. destruct e; cbn [handle].
  - by apply update_game_catch_inv.
  - unfold prv_select_click_handler.
    destruct (state (s_game w)).
    + apply (catch_inv_same (init_game (s_game w))); [apply init_game_catch_inv|done].
    + destruct (dead _); [done|]. cbn [negb].
      destruct (t_active (tongue (pyoro (s_game w)))) eqn:Hact; [done|]. cbn [negb].
      destruct Hinv as [Hcount _]. rewrite Hact in Hcount. done.
    + done.
  - unfold prv_up_click_handler, direction_click. by repeat case_match.
  - unfold prv_down_click_handler, direction_click. by repeat case_match.
  - unfold prv_up_repeating_click_handler, direction_click. by repeat case_match.
  - unfold prv_down_repeating_click_handler, direction_click. by repeat case_match.
Qed.

Lemma reachable_catch_inv w : reachable w → catch_inv (s_game w).
Proof.
  induction 1 as [hs Hhs|e w Hw IH].
  - apply init_game_catch_inv.
  - by apply handle_catch_inv.
Qed.

Lemma is_caught_true (b : Bean) : is_caught b = true ↔ b_active b = true ∧ caught b = true.
Proof. unfold is_caught. apply andb_true_iff. Qed.

(** C10: in every reachable state at most one active bean is caught; an
    active bean is caught exactly when the tongue is active with its
    [caught_bean] flag set; and such a tongue is retracting. *)
Theorem one_caught_bean (w : World) :
  reachable w →
  (∀ i j bi bj,
     beans (s_game w) !! i = Some bi → beans (s_game w) !! j = Some bj →
     b_active bi = true → caught bi = true → b_active bj = true → caught bj = true →
     i = j) ∧
  ((∃ i b, beans (s_game w) !! i = Some b ∧ b_active b = true ∧ caught b = true) ↔
   t_active (tongue (pyoro (s_game w))) = true ∧
   caught_bean (tongue (pyoro (s_game w))) = true) ∧
  (t_active (tongue (pyoro (s_game w))) = true →
   caught_bean (tongue (pyoro (s_game w))) = true →
   going_back (tongue (pyoro (s_game w))) = true).
Proof.
  intros Hw. destruct (reachable_catch_inv w Hw) as [Hcount Hback].
  split; [|split; [|exact Hback]].
  - intros i j bi bj Hi Hj Hai Hci Haj Hcj.
    destruct (decide (i = j)) as [|Hne]; [done|]. exfalso.
    pose proof (count_caught_ge_2 (beans (s_game w)) i j bi bj Hne Hi Hj
                  (proj2 (is_caught_true bi) (conj Hai Hci))
                  (proj2 (is_caught_true bj) (conj Haj Hcj))) as H2.
    rewrite Hcount in H2. destruct (_ && _); lia.
  - split.
    + intros (i & b & Hi & Ha & Hc).
      pose proof (count_caught_ge_1 (beans (s_game w)) i b Hi
                    (proj2 (is_caught_true b) (conj Ha Hc))) as H1.
      rewrite Hcount in H1. apply andb_true_iff. destruct (_ && _); [done|lia].
    + intros [Ha Hc]. rewrite Ha, Hc in Hcount. cbn [andb] in Hcount.
      destruct (count_caught_pos (beans (s_game w))) as (i & b & Hi & Hb); [lia|].
      apply is_caught_true in Hb as [? ?]. by exists i, b.
Qed.

Lemma one_caught_bean_witness :
  going_back (tongue (pyoro (s_game retracting_world))) = true ∧
  caught (bean_at (beans (s_game retracting_world)) 1) = true.
Proof.
  split; [|vm_compute; reflexivity].
  pose proof (one_caught_bean retracting_world retracting_world_reachable) as (_ & _ & Hback).
  apply Hback; vm_compute; reflexivity.
Defined.

(** ** A caught bean is out of the bean loop *)

Lemma bean_at_insert_eq (bs : list Bean) (i : nat) (b : Bean) :
  (i < length bs)%nat → bean_at (<[i := b]> bs) i = b.
Proof. intros Hi. unfold bean_at. by rewrite list_lookup_insert_eq. Qed.

Lemma bean_at_insert_ne (bs : list Bean) (i j : nat) (b : Bean) :
  i ≠ j → bean_at (<[i := b]> bs) j = bean_at bs j.
Proof. intros Hne. unfold bean_at. by rewrite list_lookup_insert_ne. Qed.

(** The loop passes over a slot that is caught or inactive. *)
Lemma update_beans_loop_skips (dt : f32) (idx : list nat) (g : Game) (i : nat) :
  b_active (bean_at (beans g) i) && negb (caught (bean_at (beans g) i)) = false →
  beans (update_beans_loop dt idx g) !! i = beans g !! i.
Proof.
  revert g. induction idx as [|k idx IH]; intros g Hskip; cbn [update_beans_loop]; [done|].
  destruct (b_active (bean_at (beans g) k) && negb (caught (bean_at (beans g) k))) eqn:Hk;
    [|by apply IH].
  assert (Hne : k ≠ i) by (intros ->; congruence).
  destruct (bean_hits_pyoro _ _).
  - cbn [beans set_death_timer set_pyoro set_beans]. by rewrite list_lookup_insert_ne.
  - destruct (_ >=~ _).
    + rewrite IH.
      * unfold land_bean. cbn [beans set_beans set_blocks].
        by rewrite !list_lookup_insert_ne.
      * unfold land_bean. cbn [beans set_beans set_blocks].
        by rewrite !bean_at_insert_ne.
    + rewrite IH.
      * cbn [beans set_beans]. by rewrite list_lookup_insert_ne.
      * cbn [beans set_beans]. by rewrite bean_at_insert_ne.
Qed.

(** Putting another caught bean into a caught slot commutes with the
    loop: the loop neither reads nor writes the slot. *)
Lemma update_beans_loop_caught_indep (dt : f32) (idx : list nat) (g : Game) (i : nat)
      (b' : Bean) :
  caught (bean_at (beans g) i) = true → caught b' = true → (i < length (beans g))%nat →
  update_beans_loop dt idx (set_beans (<[i := b']> (beans g)) g)
  = set_beans (<[i := b']> (beans (update_beans_loop dt idx g))) (update_beans_loop dt idx g).
Proof.
  revert g. induction idx as [|k idx IH]; intros g Hc Hc' Hi; cbn [update_beans_loop].
  { by destruct g. }
  cbn [beans set_beans game_speed].
  destruct (decide (k = i)) as [->|Hne].
  - rewrite bean_at_insert_eq by done. rewrite Hc, Hc', !andb_false_r. by apply IH.
  - rewrite bean_at_insert_ne by done.
    destruct (b_active (bean_at (beans g) k) && negb (caught (bean_at (beans g) k)));
      [|by apply IH].
    set (b1 := set_b_pos _ _ (bean_at (beans g) k)).
    rewrite (list_insert_insert_ne _ k i) by done.
    replace (bean_hits_pyoro (set_beans (<[i:=b']> (<[k:=b1]> (beans g)))
                                        (set_beans (<[i:=b']> (beans g)) g)) b1)
      with (bean_hits_pyoro (set_beans (<[k:=b1]> (beans g)) g) b1) by done.
    destruct (bean_hits_pyoro _ _).
    + cbn. done.
    + set (g1 := set_beans (<[k:=b1]> (beans g)) g).
      replace (set_beans (<[i:=b']> (<[k:=b1]> (beans g))) (set_beans (<[i:=b']> (beans g)) g))
        with (set_beans (<[i:=b']> (beans g1)) g1) by done.
      assert (Hc1 : caught (bean_at (beans g1) i) = true).
      { unfold g1. cbn [beans set_beans]. by rewrite bean_at_insert_ne. }
      assert (Hi1 : (i < length (beans g1))%nat).
      { unfold g1. cbn [beans set_beans]. by rewrite length_insert. }
      destruct (_ >=~ _).
      * replace (land_bean k (set_beans (<[i:=b']> (beans g1)) g1))
          with (set_beans (<[i:=b']> (beans (land_bean k g1))) (land_bean k g1)).
        -- apply IH; [|done|].
           ++ unfold land_bean. cbn [beans set_beans set_blocks].
              by rewrite bean_at_insert_ne.
           ++ unfold land_bean. cbn [beans set_beans set_blocks]. by rewrite length_insert.
        -- unfold land_bean. cbn [beans blocks set_beans set_blocks].
           rewrite bean_at_insert_ne by done.
           by rewrite (list_insert_insert_ne _ k i) by done.
      * by apply IH.
Qed.

Lemma spawn_phase_slot (dt : f32) (r1 r2 r3 : Z) (g : Game) (i : nat) :
  (b_active (bean_at (beans g) i) = true →
   beans (spawn_phase dt r1 r2 r3 g) !! i = beans g !! i) ∧
  (is_caught (bean_at (beans g) i) = false →
   is_caught (bean_at (beans (spawn_phase dt r1 r2 r3 g)) i) = false).
Proof.
  unfold spawn_phase. destruct (_ >=~ _); [|done].
  cbn [beans set_bean_spawn_timer]. unfold spawn_bean.
  cbn [beans set_bean_spawn_timer].
  destruct (find_bean _ 0 (beans g)) as [k|] eqn:Hfind; [|done].
  destruct (find_bean_Some _ _ _ _ Hfind) as (_ & (b & Hb & Hpb) & _).
  rewrite Nat.sub_0_r in Hb. apply negb_true_iff in Hpb.
  cbn [beans set_beans]. split.
  - intros Hact. rewrite list_lookup_insert_ne; [done|].
    intros ->. rewrite (bean_at_lookup _ _ _ Hb) in Hact. congruence.
  - intros Hfree. destruct (decide (k = i)) as [->|Hne].
    + rewrite bean_at_insert_eq; [done|]. by apply lookup_lt_Some in Hb.
    + by rewrite bean_at_insert_ne.
Qed.

(** The spawn phase leaves a slot as it is or puts the new bean there. *)
Lemma spawn_phase_slot_cases (dt : f32) (r1 r2 r3 : Z) (g : Game) (i : nat) :
  beans (spawn_phase dt r1 r2 r3 g) !! i = beans g !! i ∨
  ∃ b', beans (spawn_phase dt r1 r2 r3 g) !! i = Some b' ∧
        b_active b' = true ∧ caught b' = false ∧
        b_x b' = of_int (Z.rem r1 GAME_WIDTH) +~ lit 5 1 ∧ b_y b' = lit 0 1.
Proof.
  unfold spawn_phase. destruct (_ >=~ _); [|by left].
  cbn [beans set_bean_spawn_timer]. unfold spawn_bean.
  cbn [beans set_bean_spawn_timer].
  destruct (find_bean _ 0 (beans g)) as [k|] eqn:Hfind; [|by left].
  destruct (find_bean_Some _ _ _ _ Hfind) as (_ & (b & Hb & _) & _).
  rewrite Nat.sub_0_r in Hb. cbn [beans set_beans].
  destruct (decide (k = i)) as [->|Hne].
  - right. eexists. rewrite list_lookup_insert_eq by (by apply lookup_lt_Some in Hb).
    split; [reflexivity|]. repeat split.
  - left. by rewrite list_lookup_insert_ne.
Qed.

Lemma caught_slot_found (g : Game) (i : nat) (b : Bean) :
  catch_inv g → beans g !! i = Some b → is_caught b = true →
  t_active (tongue (pyoro g)) = true ∧ caught_bean (tongue (pyoro g)) = true ∧
  going_back (tongue (pyoro g)) = true ∧ find_bean is_caught 0 (beans g) = Some i.
Proof.
  intros [Hcount Hback] Hi Hb.
  pose proof (count_caught_ge_1 _ _ _ Hi Hb) as H1.
  destruct (t_active _) eqn:Hact; [|cbn in Hcount; lia].
  destruct (caught_bean _) eqn:Hcb; [|cbn in Hcount; lia].
  cbn in Hcount. repeat split; [by apply Hback|].
  destruct (count_caught_find (beans g)) as [k Hfind]; [lia|].
  destruct (find_bean_Some _ _ _ _ Hfind) as (_ & (c & Hc & Hpc) & _).
  rewrite Nat.sub_0_r in Hc.
  destruct (decide (k = i)) as [->|Hne]; [done|].
  pose proof (count_caught_ge_2 _ _ _ _ _ Hne Hc Hi Hpc Hb). lia.
Qed.

(** The tongue phase of a retracting tick, seen from the caught slot. *)
Lemma tongue_retract_carries (dt : f32) (g : Game) (i : nat) (b : Bean) :
  caught_bean (tongue (pyoro g)) = true →
  find_bean is_caught 0 (beans g) = Some i →
  beans g !! i = Some b →
  let t1 := retract_tongue dt (tongue (pyoro g)) in
  let g' := tongue_retract dt g in
  t_x (tongue (pyoro g')) = t_x t1 ∧ t_y (tongue (pyoro g')) = t_y t1 ∧
  if t_y t1 >=~ p_y (pyoro g)
  then t_active (tongue (pyoro g')) = false ∧
       beans g' !! i = Some (set_b_active false (set_b_pos (t_x t1) (t_y t1) b))
  else t_active (tongue (pyoro g')) = t_active (tongue (pyoro g)) ∧
       beans g' !! i = Some (set_b_pos (t_x t1) (t_y t1) b).
Proof.
  intros Hcb Hfind Hi t1 g'. unfold g', tongue_retract.
  set (g1 := set_pyoro _ g).
  assert (Hlt : (i < length (beans g))%nat) by by apply lookup_lt_Some in Hi.
  assert (Hcarry : beans (carry_bean g1) = <[i := set_b_pos (t_x t1) (t_y t1) b]> (beans g)).
  { unfold carry_bean, g1. cbn [pyoro set_pyoro tongue set_tongue beans].
    cbn [retract_tongue caught_bean]. rewrite Hcb, Hfind.
    cbn [beans set_beans]. by rewrite (bean_at_lookup _ _ _ Hi). }
  destruct (carry_bean_frame g1) as (_ & Hpy & _ & _ & _ & _ & Hlen).
  pose proof (carry_bean_find g1) as Hfind2.
  rewrite Hpy. cbn [g1 pyoro set_pyoro tongue set_tongue p_y]. fold t1.
  destruct (t_y t1 >=~ p_y (pyoro g)).
  - unfold tongue_back. rewrite Hpy.
    cbn [g1 pyoro set_pyoro tongue set_tongue retract_tongue caught_bean].
    rewrite Hcb, Hfind2. cbn [g1 beans set_pyoro]. rewrite Hfind.
    destruct (collect_bean_facts i (carry_bean g1)) as (_ & Hpy3 & _ & Hbs3 & _).
    { by rewrite Hlen. }
    cbn [pyoro set_pyoro tongue set_tongue t_x t_y t_active beans].
    rewrite Hpy3, Hbs3, Hpy, Hcarry.
    cbn [g1 pyoro set_pyoro tongue set_tongue].
    repeat split. rewrite bean_at_insert_eq by done.
    rewrite list_lookup_insert_eq; [done|]. by rewrite length_insert.
  - rewrite Hpy, Hcarry. cbn [g1 pyoro set_pyoro tongue set_tongue].
    repeat split. by rewrite list_lookup_insert_eq.
Qed.

(** C9: the bean loop neither reads nor writes a caught slot (replacing
    the caught bean by any other caught bean commutes with the loop, so it
    is not moved, not tested against Pyoro, and destroys no block); and in
    a reachable state, a tick of the running game finds the tongue
    retracting whenever a bean is active and caught, and puts that bean at
    the moved tongue tip.  Unless this tick completes the retraction (the
    tip is at or below Pyoro) the bean stays active and caught.  When it
    completes, the tongue goes inactive and the tongue phase deactivates
    the bean; at the end of the tick the slot holds that inactive bean,
    unless the spawn phase of the same tick has reused the free slot for
    the new bean at the top of the screen. *)
Theorem caught_bean_rides_tongue :
  (∀ (dt : f32) (g : Game) (i : nat) (b b' : Bean),
     beans g !! i = Some b → caught b = true → caught b' = true →
     beans (update_beans dt g) !! i = Some b ∧
     update_beans dt (set_beans (<[i := b']> (beans g)) g)
     = set_beans (<[i := b']> (beans (update_beans dt g))) (update_beans dt g)) ∧
  (∀ (delta_time : f32) (r1 r2 r3 : Z) (w : World) (i : nat) (b : Bean),
     reachable w →
     state (s_game w) = GAME_STATE_PLAYING →
     game_paused (s_game w) = false →
     dead (pyoro (s_game w)) = false →
     beans (s_game w) !! i = Some b → b_active b = true → caught b = true →
     let w' := update_game delta_time r1 r2 r3 w in
     let t' := tongue (pyoro (s_game w')) in
     let t1 := retract_tongue (delta_time *~ game_speed (s_game w))
                              (tongue (pyoro (s_game w))) in
     t_active (tongue (pyoro (s_game w))) = true ∧
     going_back (tongue (pyoro (s_game w))) = true ∧
     t_x t' = t_x t1 ∧ t_y t' = t_y t1 ∧
     t_active t' = negb (t_y t1 >=~ p_y (pyoro (s_game w))) ∧
     (t_active t' = true →
      beans (s_game w') !! i = Some (set_b_pos (t_x t') (t_y t') b)) ∧
     (t_active t' = false →
      beans (s_game (before_beans delta_time w)) !! i
      = Some (set_b_active false (set_b_pos (t_x t') (t_y t') b)) ∧
      (beans (s_game w') !! i = Some (set_b_active false (set_b_pos (t_x t') (t_y t') b)) ∨
       ∃ b', beans (s_game w') !! i = Some b' ∧ b_active b' = true ∧ caught b' = false ∧
             b_x b' = of_int (Z.rem r1 GAME_WIDTH) +~ lit 5 1 ∧ b_y b' = lit 0 1))).
Proof.
  split.
  - intros dt g i b b' Hi Hc Hc'.
    assert (Hat : bean_at (beans g) i = b) by by apply bean_at_lookup.
    split.
    + unfold update_beans. rewrite update_beans_loop_skips; [done|].
      by rewrite Hat, Hc, andb_false_r.
    + apply update_beans_loop_caught_indep; [by rewrite Hat|done|].
      by apply lookup_lt_Some in Hi.
  - intros delta_time r1 r2 r3 w i b Hw Hst Hp Hd Hi Hact Hc w' t' t1.
    destruct (caught_slot_found (s_game w) i b (reachable_catch_inv w Hw) Hi
                (proj2 (is_caught_true b) (conj Hact Hc))) as (Hta & Hcb & Hgb & Hfind).
    split; [done|]. split; [done|].
    destruct (update_game_pyoro delta_time r1 r2 r3 w Hst Hp Hd) as [d Hpy].
    assert (Ht' : t' = tongue (pyoro (s_game (before_beans delta_time w)))).
    { unfold t', w'. by rewrite Hpy. }
    assert (Hbeans : beans (s_game w') =
              beans (spawn_phase (delta_time *~ game_speed (s_game w)) r1 r2 r3
                (update_angel (delta_time *~ game_speed (s_game w))
                  (update_beans (delta_time *~ game_speed (s_game w))
                     (s_game (before_beans delta_time w)))))).
    { unfold w'. by rewrite update_game_playing. }
    destruct (before_beans_tongue_out delta_time w Hta) as (Hg3 & _).
    unfold update_tongue in Hg3. cbn [pyoro set_game_speed] in Hg3.
    rewrite Hta, Hgb in Hg3.
    set (g0 := set_game_speed (raised_speed delta_time (s_game w)) (s_game w)) in *.
    pose proof (tongue_retract_carries (delta_time *~ game_speed (s_game w)) g0 i b
                  Hcb Hfind Hi) as Hcarry.
    cbv zeta in Hcarry. rewrite <- Hg3 in Hcarry.
    change (retract_tongue (delta_time *~ game_speed (s_game w)) (tongue (pyoro g0)))
      with t1 in Hcarry.
    change (p_y (pyoro g0)) with (p_y (pyoro (s_game w))) in Hcarry.
    change (t_active (tongue (pyoro g0))) with (t_active (tongue (pyoro (s_game w))))
      in Hcarry.
    rewrite <- Ht' in Hcarry. destruct Hcarry as (Hx & Hy & Hrest).
    split; [done|]. split; [done|].
    set (g3 := s_game (before_beans delta_time w)) in *.
    set (dt := delta_time *~ game_speed (s_game w)) in *.
    destruct (update_angel_frame dt (update_beans dt g3)) as (_ & _ & Hab & _).
    destruct (t_y t1 >=~ p_y (pyoro (s_game w))).
    + destruct Hrest as [Hoff Hslot]. split; [done|]. split; [congruence|].
      intros _. rewrite Hx, Hy. split; [exact Hslot|]. rewrite Hbeans.
      assert (Hloop : beans (update_beans dt g3) !! i
                      = Some (set_b_active false (set_b_pos (t_x t1) (t_y t1) b))).
      { unfold update_beans. rewrite update_beans_loop_skips; [done|].
        unfold bean_at. rewrite Hslot. done. }
      destruct (spawn_phase_slot_cases dt r1 r2 r3 (update_angel dt (update_beans dt g3)) i)
        as [Hsame|Hnew]; [left|by right].
      by rewrite Hsame, Hab.
    + destruct Hrest as [Hon Hslot]. rewrite Hta in Hon. split; [done|].
      split; [|congruence]. intros _. rewrite Hbeans.
      assert (Hloop : beans (update_beans dt g3) !! i
                      = Some (set_b_pos (t_x t1) (t_y t1) b)).
      { unfold update_beans. rewrite update_beans_loop_skips; [done|].
        unfold bean_at. rewrite Hslot. cbn. by rewrite Hc, andb_false_r. }
      rewrite (proj1 (spawn_phase_slot dt r1 r2 r3 (update_angel dt (update_beans dt g3)) i)).
      * rewrite Hab, Hloop. by rewrite Hx, Hy.
      * rewrite Hab. unfold bean_at. rewrite Hloop. done.
Qed.

(** The recorded game one tick before [retracting_world]. *)
Definition carrying_world : World :=
  Eval vm_compute in
    run ([EvSelect] ++ ticks 560 5 99 0 ++ ticks 400 15 99 0 ++ [EvSelect] ++ ticks 5 15 99 0)
        (initial empty_scores).

Lemma carrying_world_reachable : reachable carrying_world.
Proof.
  replace carrying_world
    with (run ([EvSelect] ++ ticks 560 5 99 0 ++ ticks 400 15 99 0 ++ [EvSelect]
               ++ ticks 5 15 99 0) (initial empty_scores)) by (vm_compute; reflexivity).
  apply reachable_run. by constructor.
Qed.

Lemma caught_bean_rides_tongue_witness :
  b_x (bean_at (beans (s_game (game_update 15 99 0 carrying_world))) 1)
  = t_x (tongue (pyoro (s_game (game_update 15 99 0 carrying_world)))) ∧
  b_y (bean_at (beans (s_game (game_update 15 99 0 carrying_world))) 1)
  = t_y (tongue (pyoro (s_game (game_update 15 99 0 carrying_world)))) ∧
  b_active (bean_at (beans (s_game (game_update 15 99 0 retracting_world))) 1) = false.
Proof.
  destruct caught_bean_rides_tongue as [_ Hride].
  pose proof (Hride (lit 16 3) 15%Z 99%Z 0%Z carrying_world 1%nat
                (bean_at (beans (s_game carrying_world)) 1) carrying_world_reachable) as H1.
  pose proof (Hride (lit 16 3) 15%Z 99%Z 0%Z retracting_world 1%nat
                (bean_at (beans (s_game retracting_world)) 1) retracting_world_reachable)
    as H2.
  destruct H1 as (_ & _ & _ & _ & _ & Hon & _); [vm_compute; reflexivity..|].
  destruct H2 as (_ & _ & _ & _ & _ & _ & Hoff); [vm_compute; reflexivity..|].
  unfold game_update, bean_at at 1 2.
  rewrite Hon by (vm_compute; reflexivity).
  split; [reflexivity|]. split; [reflexivity|].
  destruct Hoff as [_ [Hgone|(b' & Hb' & Hact & _)]]; [vm_compute; reflexivity| |].
  - unfold bean_at. rewrite Hgone. reflexivity.
  - exfalso. vm_compute in Hb'. injection Hb' as <-. vm_compute in Hact. discriminate Hact.
Defined.

(** ** How far a bean falls in a tick *)

(** The bean after [beans[i].y += BEAN_SPEED * speed * dt * game_speed]. *)
Definition fall_bean (dt gs : f32) (b : Bean) : Bean :=
  set_b_pos (b_x b) (b_y b +~ BEAN_SPEED *~ speed b *~ dt *~ gs) b.

(** Bean [b] is moved by the loop and then found on Pyoro. *)
Definition falls_on_pyoro (dt : f32) (g : Game) (b : Bean) : bool :=
  b_active b && negb (caught b) && bean_hits_pyoro g (fall_bean dt (game_speed g) b).

Lemma update_beans_loop_cons (dt : f32) (k : nat) (idx : list nat) (g : Game) :
  update_beans_loop dt (k :: idx) g =
    let b := bean_at (beans g) k in
    if b_active b && negb (caught b) then
      let b1 := fall_bean dt (game_speed g) b in
      let g1 := set_beans (<[k := b1]> (beans g)) g in
      if bean_hits_pyoro g1 b1 then
        set_death_timer DEATH_DELAY (set_pyoro (set_dead true (pyoro g1)) g1)
      else update_beans_loop dt idx (if b_y b1 >=~ ground_y then land_bean k g1 else g1)
    else update_beans_loop dt idx g.
Proof. reflexivity. Qed.

Lemma update_beans_loop_other (dt : f32) (idx : list nat) (g : Game) (i : nat) :
  i ∉ idx → beans (update_beans_loop dt idx g) !! i = beans g !! i.
Proof.
  revert g. induction idx as [|k idx IH]; intros g Hni; [done|].
  apply not_elem_of_cons in Hni as [Hne Hni].
  rewrite update_beans_loop_cons. cbv zeta.
  destruct (_ && _); [|by apply IH].
  destruct (bean_hits_pyoro _ _).
  - cbn [beans set_death_timer set_pyoro set_beans]. by rewrite list_lookup_insert_ne.
  - rewrite IH by done. destruct (_ >=~ _).
    + unfold land_bean. cbn [beans set_beans set_blocks]. by rewrite !list_lookup_insert_ne.
    + cbn [beans set_beans]. by rewrite list_lookup_insert_ne.
Qed.

(** As long as no bean falls on Pyoro, the loop gets through [idx1]
    without touching Pyoro, the game speed or the slots outside [idx1]. *)
Lemma update_beans_loop_prefix (dt : f32) (idx1 rest : list nat) (g : Game) :
  NoDup idx1 →
  (∀ j, j ∈ idx1 → falls_on_pyoro dt g (bean_at (beans g) j) = false) →
  ∃ g1, update_beans_loop dt (idx1 ++ rest) g = update_beans_loop dt rest g1 ∧
        pyoro g1 = pyoro g ∧ game_speed g1 = game_speed g ∧
        length (beans g1) = length (beans g) ∧
        ∀ i, i ∉ idx1 → beans g1 !! i = beans g !! i.
Proof.
  revert g. induction idx1 as [|k idx1 IH]; intros g Hnd Hmiss.
  { by exists g. }
  apply NoDup_cons in Hnd as [Hk Hnd]. cbn [app]. rewrite update_beans_loop_cons. cbv zeta.
  pose proof (Hmiss k ltac:(left)) as Hkmiss. unfold falls_on_pyoro in Hkmiss.
  assert (Hstep : ∀ g2, pyoro g2 = pyoro g → game_speed g2 = game_speed g →
                        length (beans g2) = length (beans g) →
                        (∀ i, i ≠ k → beans g2 !! i = beans g !! i) →
            ∃ g1, update_beans_loop dt (idx1 ++ rest) g2 = update_beans_loop dt rest g1 ∧
                  pyoro g1 = pyoro g ∧ game_speed g1 = game_speed g ∧
                  length (beans g1) = length (beans g) ∧
                  ∀ i, i ∉ k :: idx1 → beans g1 !! i = beans g !! i).
  { intros g2 Hpy Hgs Hlen Hsame.
    destruct (IH g2 Hnd) as (g1 & Heq & Hpy1 & Hgs1 & Hlen1 & Hsame1).
    - intros j Hj. assert (j ≠ k) by (intros ->; done).
      unfold falls_on_pyoro, bean_at, bean_hits_pyoro. rewrite Hsame, Hpy, Hgs by done.
      apply (Hmiss j). by right.
    - exists g1. repeat split; try congruence.
      intros i Hi. apply not_elem_of_cons in Hi as [Hne Hi]. rewrite Hsame1 by done.
      by apply Hsame. }
  destruct (b_active _ && negb _) eqn:Hfree; [|by apply Hstep].
  cbn [andb] in Hkmiss.
  replace (bean_hits_pyoro (set_beans _ g) _)
    with (bean_hits_pyoro g (fall_bean dt (game_speed g) (bean_at (beans g) k))) by done.
  rewrite Hkmiss. destruct (_ >=~ _).
  - apply Hstep; unfold land_bean; cbn [pyoro game_speed beans set_beans set_blocks];
      rewrite ?length_insert; try done.
    intros i Hi. by rewrite !list_lookup_insert_ne.
  - apply Hstep; cbn [pyoro game_speed beans set_beans]; rewrite ?length_insert; try done.
    intros i Hi. by rewrite list_lookup_insert_ne.
Qed.

(** The loop, reaching the free bean [b] of slot [i], moves it down by
    [BEAN_SPEED * speed * dt * game_speed]; if that takes the bean to the
    ground, the bean is deactivated where it is. *)
Lemma update_beans_reaches (dt : f32) (g : Game) (i : nat) (b : Bean) :
  (i < NUM_BEANS)%nat →
  beans g !! i = Some b → b_active b = true → caught b = false →
  (∀ j, (j < i)%nat → falls_on_pyoro dt g (bean_at (beans g) j) = false) →
  let b1 := fall_bean dt (game_speed g) b in
  beans (update_beans dt g) !! i = Some b1 ∨
  ((b_y b1 >=~ ground_y) = true ∧
   beans (update_beans dt g) !! i = Some (set_b_active false b1)).
Proof.
  intros Hi Hb Hact Hc Hmiss b1. unfold update_beans.
  replace (seq 0 NUM_BEANS) with (seq 0 i ++ i :: seq (S i) (NUM_BEANS - S i)).
  2:{ change (i :: seq (S i) (NUM_BEANS - S i)) with (seq i (S (NUM_BEANS - S i))).
      rewrite <- seq_app. f_equal. lia. }
  destruct (update_beans_loop_prefix dt (seq 0 i) (i :: seq (S i) (NUM_BEANS - S i)) g)
    as (g1 & -> & Hpy & Hgs & Hlen & Hsame).
  { apply NoDup_seq. }
  { intros j Hj. apply elem_of_seq in Hj. apply Hmiss. lia. }
  assert (Hb1 : beans g1 !! i = Some b).
  { rewrite Hsame; [done|]. rewrite elem_of_seq. lia. }
  assert (Hlt : (i < length (beans g1))%nat) by by apply lookup_lt_Some in Hb1.
  assert (Hni : i ∉ seq (S i) (NUM_BEANS - S i)).
  { rewrite elem_of_seq. lia. }
  rewrite update_beans_loop_cons. cbv zeta.
  rewrite (bean_at_lookup _ _ _ Hb1), Hact, Hc, Hgs. cbn [andb negb]. fold b1.
  destruct (bean_hits_pyoro _ _).
  - left. cbn [beans set_death_timer set_pyoro set_beans]. by rewrite list_lookup_insert_eq.
  - rewrite update_beans_loop_other by done.
    destruct (b_y b1 >=~ ground_y).
    + right. split; [done|]. unfold land_bean. cbn [beans set_beans set_blocks].
      rewrite bean_at_insert_eq by done.
      rewrite list_lookup_insert_eq; [done|]. by rewrite length_insert.
    + left. cbn [beans set_beans]. by rewrite list_lookup_insert_eq.
Qed.

Lemma update_tongue_game_speed (dt : f32) (g : Game) :
  game_speed (update_tongue dt g) = game_speed g.
Proof.
  unfold update_tongue. destruct (t_active _); [|done].
  destruct (going_back _).
  - unfold tongue_retract. set (g1 := set_pyoro _ g).
    destruct (carry_bean_frame g1) as (_ & _ & _ & _ & _ & Hgs & _).
    destruct (_ >=~ _); [|done].
    unfold tongue_back. cbn [game_speed set_pyoro].
    destruct (caught_bean _); [|done].
    destruct (find_bean _ _ _); [|done].
    unfold collect_bean. cbn [game_speed set_beans set_score].
    repeat case_match; try done.
    destruct (spawn_angel_frame (find_destroyed_block (carry_bean g1)) (carry_bean g1))
      as (_ & _ & _ & _ & -> & _). done.
  - unfold tongue_extend. by case_match.
Qed.

Lemma before_beans_game_speed (delta_time : f32) (w : World) :
  game_speed (s_game (before_beans delta_time w)) = raised_speed delta_time (s_game w).
Proof.
  unfold before_beans. cbn [s_game set_game]. rewrite update_tongue_game_speed.
  match goal with |- context [drain_step_queue ?w1] =>
    destruct (drain_step_queue_game w1) as [x ->] end.
  done.
Qed.

(** A fresh game after 130 ticks: the first bean is in the air. *)
Definition falling_world : World :=
  Eval vm_compute in run ([EvSelect] ++ ticks 130 5 99 0) (initial empty_scores).

Lemma falling_world_reachable : reachable falling_world.
Proof.
  replace falling_world
    with (run ([EvSelect] ++ ticks 130 5 99 0) (initial empty_scores))
    by (vm_compute; reflexivity).
  apply reachable_run. by constructor.
Qed.

(** C1, as stated, fails: in a reachable state of a running game the free
    bean of slot 0 falls, in one tick of 16 ms, farther than
    [speed * BEAN_SPEED * dt'], however the product is bracketed. *)
Lemma bean_falls_farther_than_claimed :
  let w := falling_world in
  let b := bean_at (beans (s_game w)) 0 in
  let b' := bean_at (beans (s_game (game_update 5 99 0 w))) 0 in
  let dt' := lit 16 3 *~ game_speed (s_game w) in
  reachable w ∧ state (s_game w) = GAME_STATE_PLAYING ∧ dead (pyoro (s_game w)) = false ∧
  b_active b = true ∧ caught b = false ∧ b_active b' = true ∧
  (b_y b +~ speed b *~ BEAN_SPEED *~ dt' <~ b_y b') = true ∧
  (b_y b +~ speed b *~ (BEAN_SPEED *~ dt') <~ b_y b') = true ∧
  (b_y b +~ speed b *~ dt' *~ BEAN_SPEED <~ b_y b') = true ∧
  b_y b' ≠ b_y b +~ speed b *~ BEAN_SPEED *~ dt'.
Proof.
  cbv zeta. split; [apply falling_world_reachable|].
  repeat split; try (vm_compute; reflexivity).
  vm_compute. discriminate.
Qed.

(** C1, amended: in a tick of the running game with Pyoro alive, a bean
    that is active and not caught when the bean loop starts, and before
    which no bean of a lower slot falls on Pyoro, has its [y] increased by
    [BEAN_SPEED * speed * dt' * game_speed'], where [dt' = dt * game_speed]
    and [game_speed' = game_speed + dt' * SPEED_ACCELERATION] is the speed
    already raised by this tick; this is its [y] after the loop, and its
    [y] at the end of the tick unless it has reached the ground. *)
Theorem bean_fall_per_tick (delta_time : f32) (r1 r2 r3 : Z) (w : World)
        (i : nat) (b : Bean) :
  state (s_game w) = GAME_STATE_PLAYING →
  game_paused (s_game w) = false →
  dead (pyoro (s_game w)) = false →
  let dt' := delta_time *~ game_speed (s_game w) in
  let speed' := game_speed (s_game w) +~ dt' *~ SPEED_ACCELERATION in
  let g3 := s_game (before_beans delta_time w) in
  (i < NUM_BEANS)%nat →
  beans g3 !! i = Some b → b_active b = true → caught b = false →
  (∀ j, (j < i)%nat → falls_on_pyoro dt' g3 (bean_at (beans g3) j) = false) →
  let y' := b_y b +~ BEAN_SPEED *~ speed b *~ dt' *~ speed' in
  b_y (bean_at (beans (update_beans dt' g3)) i) = y' ∧
  ((y' >=~ ground_y) = false →
   b_y (bean_at (beans (s_game (update_game delta_time r1 r2 r3 w))) i) = y').
Proof.
  intros Hst Hp Hd dt' speed' g3 Hi Hb Hact Hc Hmiss y'.
  pose proof (update_beans_reaches dt' g3 i b Hi Hb Hact Hc Hmiss) as Hreach.
  assert (Hgs : game_speed g3 = speed') by apply before_beans_game_speed.
  cbv zeta in Hreach. rewrite Hgs in Hreach.
  change (fall_bean dt' speed' b) with (set_b_pos (b_x b) y' b) in Hreach.
  split.
  - unfold bean_at. destruct Hreach as [H | [_ H]]; rewrite H; reflexivity.
  - intros Hair. destruct Hreach as [Hloop | [Hland _]]; [|cbn in Hland; congruence].
    rewrite update_game_playing by done. cbv zeta. cbn [s_game]. fold dt' g3.
    destruct (update_angel_frame dt' (update_beans dt' g3)) as (_ & _ & Hab & _).
    unfold bean_at.
    rewrite (proj1 (spawn_phase_slot dt' r1 r2 r3 (update_angel dt' (update_beans dt' g3)) i)).
    + rewrite Hab, Hloop. reflexivity.
    + rewrite Hab. unfold bean_at. rewrite Hloop. exact Hact.
Qed.

Lemma bean_fall_per_tick_witness :
  let b := bean_at (beans (s_game falling_world)) 0 in
  let dt' := lit 16 3 *~ game_speed (s_game falling_world) in
  b_y (bean_at (beans (s_game (game_update 5 99 0 falling_world))) 0)
  = b_y b +~ BEAN_SPEED *~ speed b *~ dt' *~
    (game_speed (s_game falling_world) +~ dt' *~ SPEED_ACCELERATION).
Proof.
  cbv zeta.
  pose proof (bean_fall_per_tick (lit 16 3) 5%Z 99%Z 0%Z falling_world 0%nat
                (bean_at (beans (s_game falling_world)) 0)) as H.
  cbv zeta in H.
  destruct H as [_ Hend];
    [vm_compute; reflexivity|vm_compute; reflexivity|vm_compute; reflexivity
    |unfold NUM_BEANS; lia
    |vm_compute; reflexivity|vm_compute; reflexivity|vm_compute; reflexivity
    |intros j Hj; lia|].
  unfold game_update. apply Hend. vm_compute. reflexivity.
Defined.

(** * Further properties of the simulation *)

(** From here on the binary32 operations are not unfolded by the tactics;
    closed float expressions are still computed by [vm_compute]. *)
Opaque of_int add sub mul div ltb leb gtb geb lit to_int.

(** ** What the tongue phase leaves alone *)

Lemma collect_bean_keeps (i : nat) (g : Game) :
  state (collect_bean i g) = state g ∧ game_paused (collect_bean i g) = game_paused g ∧
  pyoro (collect_bean i g) = pyoro g ∧ game_speed (collect_bean i g) = game_speed g ∧
  death_timer (collect_bean i g) = death_timer g ∧
  bean_spawn_timer (collect_bean i g) = bean_spawn_timer g ∧
  length (beans (collect_bean i g)) = length (beans g) ∧
  length (blocks (collect_bean i g)) = length (blocks g).
Proof.
  unfold collect_bean.
  match goal with |- context [if decide ?P then ?a else ?c] =>
    set (g1 := if decide P then a else c) end.
  assert (Hg1 : state g1 = state g ∧ game_paused g1 = game_paused g ∧ pyoro g1 = pyoro g ∧
                game_speed g1 = game_speed g ∧ death_timer g1 = death_timer g ∧
                bean_spawn_timer g1 = bean_spawn_timer g ∧
                beans g1 = beans g ∧ length (blocks g1) = length (blocks g)).
  { unfold g1. repeat case_match; try done.
    unfold spawn_angel. repeat case_match; cbn; rewrite ?length_set_block; done. }
  destruct Hg1 as (? & ? & ? & ? & ? & ? & Hbs & ?).
  cbn [state game_paused pyoro game_speed death_timer bean_spawn_timer beans blocks
       set_beans set_score].
  rewrite length_insert, Hbs. done.
Qed.

(** The tongue phase moves the tongue, the beans, the score and (through
    [spawn_angel]) the angel and one block flag; nothing else. *)
Lemma update_tongue_keeps (dt : f32) (g : Game) :
  state (update_tongue dt g) = state g ∧
  game_paused (update_tongue dt g) = game_paused g ∧
  game_speed (update_tongue dt g) = game_speed g ∧
  death_timer (update_tongue dt g) = death_timer g ∧
  bean_spawn_timer (update_tongue dt g) = bean_spawn_timer g ∧
  length (beans (update_tongue dt g)) = length (beans g) ∧
  length (blocks (update_tongue dt g)) = length (blocks g).
Proof.
  unfold update_tongue. destruct (t_active _); [|done].
  destruct (going_back _).
  - unfold tongue_retract. set (g1 := set_pyoro _ g).
    assert (Hg2 : state (carry_bean g1) = state g ∧
                  game_paused (carry_bean g1) = game_paused g ∧
                  game_speed (carry_bean g1) = game_speed g ∧
                  death_timer (carry_bean g1) = death_timer g ∧
                  bean_spawn_timer (carry_bean g1) = bean_spawn_timer g ∧
                  length (beans (carry_bean g1)) = length (beans g) ∧
                  length (blocks (carry_bean g1)) = length (blocks g)).
    { unfold carry_bean. repeat case_match; cbn; rewrite ?length_insert; done. }
    destruct (_ >=~ _); [|done].
    unfold tongue_back.
    cbn [state game_paused game_speed death_timer bean_spawn_timer beans blocks set_pyoro].
    destruct (caught_bean _); [|done].
    destruct (find_bean _ _ _) as [i|]; [|done].
    destruct (collect_bean_keeps i (carry_bean g1)) as (-> & -> & _ & -> & -> & -> & -> & ->).
    done.
  - unfold tongue_extend. case_match. cbn.
    case_match; simplify_eq; rewrite ?length_insert; done.
Qed.

Lemma update_angel_keeps (dt : f32) (g : Game) :
  game_paused (update_angel dt g) = game_paused g ∧
  death_timer (update_angel dt g) = death_timer g ∧
  bean_spawn_timer (update_angel dt g) = bean_spawn_timer g.
Proof. unfold update_angel. repeat case_match; repeat split; reflexivity. Qed.

Lemma spawn_phase_keeps (dt : f32) (r1 r2 r3 : Z) (g : Game) :
  game_paused (spawn_phase dt r1 r2 r3 g) = game_paused g ∧
  death_timer (spawn_phase dt r1 r2 r3 g) = death_timer g.
Proof. unfold spawn_phase, spawn_bean. repeat case_match; repeat split; reflexivity. Qed.

Lemma drain_step_queue_keeps (w : World) :
  s_high_scores (drain_step_queue w) = s_high_scores w ∧
  s_last_game_score (drain_step_queue w) = s_last_game_score w ∧
  s_background_index (drain_step_queue w) = s_background_index w ∧
  s_frame_count (drain_step_queue w) = s_frame_count w.
Proof. unfold drain_step_queue. repeat case_match; repeat split; reflexivity. Qed.

Lemma update_beans_frame (dt : f32) (g : Game) : beans_frame g (update_beans dt g).
Proof. apply update_beans_loop_frame. Qed.

(** The game after the tongue phase, field by field. *)
Lemma before_beans_keeps (delta_time : f32) (w : World) :
  state (s_game (before_beans delta_time w)) = state (s_game w) ∧
  game_paused (s_game (before_beans delta_time w)) = game_paused (s_game w) ∧
  death_timer (s_game (before_beans delta_time w)) = death_timer (s_game w) ∧
  bean_spawn_timer (s_game (before_beans delta_time w)) = bean_spawn_timer (s_game w) ∧
  length (beans (s_game (before_beans delta_time w))) = length (beans (s_game w)) ∧
  length (blocks (s_game (before_beans delta_time w))) = length (blocks (s_game w)) ∧
  s_high_scores (before_beans delta_time w) = s_high_scores w ∧
  s_last_game_score (before_beans delta_time w) = s_last_game_score w.
Proof.
  unfold before_beans. cbn [s_game set_game s_high_scores s_last_game_score].
  match goal with |- context [update_tongue ?dt ?g] =>
    destruct (update_tongue_keeps dt g) as (-> & -> & _ & -> & -> & -> & ->) end.
  match goal with |- context [drain_step_queue ?w1] =>
    destruct (drain_step_queue_game w1) as [x ->];
    destruct (drain_step_queue_keeps w1) as (-> & -> & _) end.
  done.
Qed.

(** The whole tick of a running game, field by field. *)
Lemma update_game_keeps (delta_time : f32) (r1 r2 r3 : Z) (w : World) :
  state (s_game w) = GAME_STATE_PLAYING →
  game_paused (s_game w) = false →
  dead (pyoro (s_game w)) = false →
  state (s_game (update_game delta_time r1 r2 r3 w)) = GAME_STATE_PLAYING ∧
  game_paused (s_game (update_game delta_time r1 r2 r3 w)) = false ∧
  length (beans (s_game (update_game delta_time r1 r2 r3 w))) = length (beans (s_game w)) ∧
  length (blocks (s_game (update_game delta_time r1 r2 r3 w))) = length (blocks (s_game w)) ∧
  s_high_scores (update_game delta_time r1 r2 r3 w) = s_high_scores w ∧
  s_last_game_score (update_game delta_time r1 r2 r3 w) = s_last_game_score w ∧
  s_background_index (update_game delta_time r1 r2 r3 w)
  = background_for (score (s_game (update_game delta_time r1 r2 r3 w))).
Proof.
  intros Hst Hp Hd.
  destruct (before_beans_keeps delta_time w) as (Hst3 & Hp3 & _ & _ & Hbs3 & Hbl3 & Hhs & Hls).
  rewrite update_game_playing by done. cbv zeta.
  cbn [s_game s_high_scores s_last_game_score s_background_index].
  set (dt := delta_time *~ game_speed (s_game w)).
  set (g3 := s_game (before_beans delta_time w)) in *.
  destruct (spawn_phase_frame dt r1 r2 r3 (update_angel dt (update_beans dt g3)))
    as (Hst6 & _ & Hbl6 & _ & _ & _ & Hbs6).
  destruct (spawn_phase_keeps dt r1 r2 r3 (update_angel dt (update_beans dt g3))) as (Hp6 & _).
  destruct (update_angel_frame dt (update_beans dt g3)) as (Hst5 & _ & Hbs5 & _ & _ & Hbl5).
  destruct (update_angel_keeps dt (update_beans dt g3)) as (Hp5 & _).
  destruct (update_beans_frame dt g3) as (Hst4 & _ & _ & _ & _ & Hp4 & _ & Hbs4 & Hbl4).
  assert (Hplaying : state (spawn_phase dt r1 r2 r3 (update_angel dt (update_beans dt g3)))
                     = GAME_STATE_PLAYING) by congruence.
  rewrite Hplaying, Hp6, Hp5, Hp4, Hp3, Hbs6, Hbs5, Hbs4, Hbs3, Hbl6, Hbl5, Hbl4, Hbl3.
  rewrite bool_decide_eq_true_2 by reflexivity. repeat split; first [reflexivity|assumption].
Qed.

Lemma before_beans_pyoro (delta_time : f32) (w : World) :
  ∃ x t, pyoro (s_game (before_beans delta_time w))
         = set_tongue t (set_p_x x (pyoro (s_game w))).
Proof.
  unfold before_beans. cbn [s_game set_game].
  match goal with |- context [update_tongue ?dt ?g] =>
    destruct (update_tongue_pyoro dt g) as [t ->] end.
  match goal with |- context [drain_step_queue ?w1] =>
    destruct (drain_step_queue_game w1) as [x ->] end.
  by exists x, t.
Qed.

(** Pyoro after a tick of the running game: only [x], the tongue and the
    [dead] flag can differ. *)
Lemma update_game_pyoro_fields (delta_time : f32) (r1 r2 r3 : Z) (w : World) :
  state (s_game w) = GAME_STATE_PLAYING →
  game_paused (s_game w) = false →
  dead (pyoro (s_game w)) = false →
  ∃ x t d, pyoro (s_game (update_game delta_time r1 r2 r3 w))
           = set_dead d (set_tongue t (set_p_x x (pyoro (s_game w)))).
Proof.
  intros Hst Hp Hd.
  destruct (update_game_pyoro delta_time r1 r2 r3 w Hst Hp Hd) as [d ->].
  destruct (before_beans_pyoro delta_time w) as (x & t & ->).
  by exists x, t, d.
Qed.

(** ** The state machine of the game *)

(** X1: the game state after an event is a function of the state before
    and the event.  Select in the menu starts a game; select on the
    game-over screen returns to the menu; a tick ends a running game
    exactly when the game is not paused, Pyoro is dead and the death timer,
    reduced by the 16 ms of this tick, is at or below zero.  Every other
    event in every other state leaves the state as it is: in particular
    select never ends or restarts a running game, and the direction
    buttons never change the state. *)
Theorem game_state_transitions (e : event) (w : World) :
  state (s_game (handle e w)) =
  match state (s_game w), e with
  | GAME_STATE_MENU, EvSelect => GAME_STATE_PLAYING
  | GAME_STATE_GAME_OVER, EvSelect => GAME_STATE_MENU
  | GAME_STATE_PLAYING, EvTick _ _ _ =>
      if negb (game_paused (s_game w)) && dead (pyoro (s_game w)) &&
         (death_timer (s_game w) -~ lit 16 3 <=~ lit 0 1)
      then GAME_STATE_GAME_OVER else GAME_STATE_PLAYING
  | s, _ => s
  end.
Proof.
  destruct e as [r1 r2 r3| | | | |]; cbn [handle].
  - unfold game_update.
    destruct (update_game_cases w) as [Hidle|[(Hst & Hp & Hd)|(Hst & Hp & Hd)]].
    + rewrite update_game_idle by done.
      destruct Hidle as [Hne|Hpaused].
      * by destruct (state (s_game w)).
      * rewrite Hpaused. cbn [negb andb]. by destruct (state (s_game w)).
    + rewrite update_game_dead by done. cbv zeta. cbn [death_timer set_death_timer].
      rewrite Hst, Hp, Hd. cbn [negb andb].
      destruct (_ <=~ _); cbn [s_game set_game state set_state set_death_timer];
        [reflexivity|exact Hst].
    + destruct (update_game_keeps (lit 16 3) (Z.of_N r1) (Z.of_N r2) (Z.of_N r3) w
                  Hst Hp Hd) as (-> & _).
      rewrite Hst, Hd, andb_false_r. reflexivity.
  - unfold prv_select_click_handler. destruct (state (s_game w)) eqn:Hst.
    + reflexivity.
    + repeat case_match; cbn; done.
    + reflexivity.
  - assert (Hsame : state (s_game (prv_up_click_handler w)) = state (s_game w))
      by (unfold prv_up_click_handler, direction_click; by repeat case_match).
    rewrite Hsame. by destruct (state (s_game w)).
  - assert (Hsame : state (s_game (prv_down_click_handler w)) = state (s_game w))
      by (unfold prv_down_click_handler, direction_click; by repeat case_match).
    rewrite Hsame. by destruct (state (s_game w)).
  - assert (Hsame : state (s_game (prv_up_repeating_click_handler w)) = state (s_game w))
      by (unfold prv_up_repeating_click_handler, direction_click; by repeat case_match).
    rewrite Hsame. by destruct (state (s_game w)).
  - assert (Hsame : state (s_game (prv_down_repeating_click_handler w)) = state (s_game w))
      by (unfold prv_down_repeating_click_handler, direction_click; by repeat case_match).
    rewrite Hsame. by destruct (state (s_game w)).
Qed.

(** ** Shapes and flags that never change *)

Definition play_inv (w : World) : Prop :=
  wf_game (s_game w) ∧ length (s_high_scores w) = NUM_HIGH_SCORES ∧
  game_paused (s_game w) = false ∧
  p_y (pyoro (s_game w)) = of_int GAME_HEIGHT -~ lit 20 1 ∧
  (direction (pyoro (s_game w)) = 1%Z ∨ direction (pyoro (s_game w)) = (-1)%Z) ∧
  moving (pyoro (s_game w)) = false ∧ button_held (pyoro (s_game w)) = false.

Lemma update_game_play_inv delta_time r1 r2 r3 w :
  play_inv w → play_inv (update_game delta_time r1 r2 r3 w).
Proof.
  intros Hinv.
  destruct (update_game_cases w) as [Hidle|[(Hst & Hp & Hd)|(Hst & Hp & Hd)]].
  - by rewrite update_game_idle.
  - rewrite update_game_dead by done. cbv zeta.
    destruct Hinv as (Hwf & Hhs & Hrest).
    destruct (_ <=~ _); split; try done.
    cbn. split; [|done]. by rewrite insert_high_score_length.
  - destruct Hinv as ([Hbs Hbl] & Hhs & _ & Hy & Hdir & Hmv & Hbh).
    destruct (update_game_keeps delta_time r1 r2 r3 w Hst Hp Hd)
      as (_ & Hp' & Hbs' & Hbl' & Hhs' & _).
    destruct (update_game_pyoro_fields delta_time r1 r2 r3 w Hst Hp Hd) as (x & t & d & Hpy).
    unfold play_inv, wf_game. rewrite Hp', Hbs', Hbl', Hhs', Hpy.
    cbn [p_y direction moving button_held set_dead set_tongue set_p_x]. tauto.
Qed.

Lemma direction_click_play_inv dir steps w :
  dir = 1%Z ∨ dir = (-1)%Z → play_inv w → play_inv (direction_click dir steps w).
Proof.
  intros Hdir Hinv. unfold direction_click. destruct (_ && _); [|done].
  destruct Hinv as (Hwf & Hhs & Hp & Hy & _ & Hmv & Hbh).
  destruct (_ =? _)%Z; unfold play_inv; cbn; tauto.
Qed.

Lemma handle_play_inv e w : play_inv w → play_inv (handle e w).
Proof.
  intros Hinv. destruct e; cbn [handle].
  - by apply update_game_play_inv.
  - unfold prv_select_click_handler.
    destruct Hinv as ([Hbs Hbl] & Hhs & Hp & Hy & Hdir & Hmv & Hbh).
    destruct (state (s_game w)).
    + unfold play_inv, wf_game, reset_game, init_game. cbn. rewrite !length_map. tauto.
    + repeat case_match; unfold play_inv, wf_game; cbn; tauto.
    + unfold play_inv, wf_game; cbn; tauto.
  - apply direction_click_play_inv; tauto.
  - apply direction_click_play_inv; tauto.
  - apply direction_click_play_inv; tauto.
  - apply direction_click_play_inv; tauto.
Qed.

Lemma reachable_play_inv w : reachable w → play_inv w.
Proof.
  induction 1 as [hs Hhs|e w Hw IH].
  - unfold play_inv, wf_game, initial, init_game. cbn. rewrite !length_map, !length_replicate.
    tauto.
  - by apply handle_play_inv.
Qed.

(** X2: in every reachable state the pool has five beans, the ledge
    twenty blocks and the table ten scores; the game is never paused;
    Pyoro's [y] is 18, its facing is left or right, and the legacy flags
    [moving] and [button_held] stay clear. *)
Theorem shapes_and_flags (w : World) :
  reachable w →
  length (beans (s_game w)) = 5%nat ∧ length (blocks (s_game w)) = 20%nat ∧
  length (s_high_scores w) = 10%nat ∧
  game_paused (s_game w) = false ∧
  p_y (pyoro (s_game w)) = of_int 18 ∧
  (direction (pyoro (s_game w)) = 1%Z ∨ direction (pyoro (s_game w)) = (-1)%Z) ∧
  moving (pyoro (s_game w)) = false ∧ button_held (pyoro (s_game w)) = false.
Proof.
  intros Hw. destruct (reachable_play_inv w Hw) as ([Hbs Hbl] & Hhs & Hp & Hy & Hrest).
  assert (H18 : of_int GAME_HEIGHT -~ lit 20 1 = of_int 18) by (vm_compute; reflexivity).
  rewrite <- H18. tauto.
Qed.

Lemma shapes_and_flags_witness :
  length (beans (s_game ascending_world)) = 5%nat ∧
  p_y (pyoro (s_game ascending_world)) = of_int 18.
Proof.
  pose proof (shapes_and_flags ascending_world ascending_world_reachable)
    as (Hbs & _ & _ & _ & Hy & _).
  split; [exact Hbs|exact Hy].
Defined.

(** ** Game over and the high-score table *)

(** X3: an event leaves the high-score table and the last score alone,
    unless it is the tick that ends the game; that tick records the score
    of the game as the last score and inserts it into the table. *)
Theorem scores_recorded_at_game_over (e : event) (w : World) :
  (state (s_game w) = GAME_STATE_PLAYING →
   state (s_game (handle e w)) = GAME_STATE_GAME_OVER →
   s_high_scores (handle e w) = insert_high_score (score (s_game w)) (s_high_scores w) ∧
   s_last_game_score (handle e w) = score (s_game w) ∧
   score (s_game (handle e w)) = score (s_game w)) ∧
  (¬ (state (s_game w) = GAME_STATE_PLAYING ∧
      state (s_game (handle e w)) = GAME_STATE_GAME_OVER) →
   s_high_scores (handle e w) = s_high_scores w ∧
   s_last_game_score (handle e w) = s_last_game_score w).
Proof.
  destruct e as [r1 r2 r3| | | | |]; cbn [handle].
  - unfold game_update.
    destruct (update_game_cases w) as [Hidle|[(Hst & Hp & Hd)|(Hst & Hp & Hd)]].
    + rewrite update_game_idle by done. split; [|done].
      intros Hplay Hover. congruence.
    + rewrite update_game_dead by done. cbv zeta.
      destruct (_ <=~ _); cbn.
      * split; [done|]. intros Hn. exfalso. by apply Hn.
      * split; [|done]. intros _ Hover. congruence.
    + destruct (update_game_keeps (lit 16 3) (Z.of_N r1) (Z.of_N r2) (Z.of_N r3) w
                  Hst Hp Hd) as (Hst' & _ & _ & _ & Hhs & Hls & _).
      split; [|done]. intros _ Hover. congruence.
  - unfold prv_select_click_handler. destruct (state (s_game w)) eqn:Hst.
    + split; [discriminate|done].
    + split; [|by repeat case_match]. repeat case_match; cbn; congruence.
    + split; [discriminate|done].
  - unfold prv_up_click_handler, direction_click.
    split; [|by repeat case_match]. repeat case_match; cbn; congruence.
  - unfold prv_down_click_handler, direction_click.
    split; [|by repeat case_match]. repeat case_match; cbn; congruence.
  - unfold prv_up_repeating_click_handler, direction_click.
    split; [|by repeat case_match]. repeat case_match; cbn; congruence.
  - unfold prv_down_repeating_click_handler, direction_click.
    split; [|by repeat case_match]. repeat case_match; cbn; congruence.
Qed.

(** Everything but the game state and the death timer. *)
Definition frozen (w w' : World) : Prop :=
  pyoro (s_game w') = pyoro (s_game w) ∧ beans (s_game w') = beans (s_game w) ∧
  blocks (s_game w') = blocks (s_game w) ∧ angel (s_game w') = angel (s_game w) ∧
  score (s_game w') = score (s_game w) ∧ game_speed (s_game w') = game_speed (s_game w) ∧
  bean_spawn_timer (s_game w') = bean_spawn_timer (s_game w) ∧
  s_pending_step_dir w' = s_pending_step_dir w ∧
  s_pending_step_count w' = s_pending_step_count w ∧
  s_frame_count w' = s_frame_count w ∧ s_background_index w' = s_background_index w.

(** X4: while Pyoro is dead in a running game, the buttons do nothing and
    a tick only takes its 16 ms off the death timer: Pyoro, the beans, the
    blocks, the angel, the score, the speed and the step queue are frozen
    until the game is over. *)
Theorem dead_game_is_frozen (e : event) (w : World) :
  state (s_game w) = GAME_STATE_PLAYING →
  game_paused (s_game w) = false →
  dead (pyoro (s_game w)) = true →
  frozen w (handle e w) ∧
  (death_timer (s_game (handle e w)) = death_timer (s_game w) ∨
   (∃ r1 r2 r3, e = EvTick r1 r2 r3) ∧
   death_timer (s_game (handle e w)) = death_timer (s_game w) -~ lit 16 3).
Proof.
  intros Hst Hp Hd. destruct e as [r1 r2 r3| | | | |]; cbn [handle].
  - unfold game_update. rewrite update_game_dead by done. cbv zeta.
    destruct (_ <=~ _); (split; [done|]); right; (split; [by exists r1, r2, r3|done]).
  - unfold prv_select_click_handler. rewrite Hst, Hd. cbn. split; [done|by left].
  - unfold prv_up_click_handler, direction_click. rewrite Hd, andb_false_r.
    split; [done|by left].
  - unfold prv_down_click_handler, direction_click. rewrite Hd, andb_false_r.
    split; [done|by left].
  - unfold prv_up_repeating_click_handler, direction_click. rewrite Hd, andb_false_r.
    split; [done|by left].
  - unfold prv_down_repeating_click_handler, direction_click. rewrite Hd, andb_false_r.
    split; [done|by left].
Qed.

(** A game in which a bean has fallen on Pyoro, eight ticks after it. *)
Definition dead_world : World :=
  Eval vm_compute in run ([EvSelect] ++ ticks 470 10 99 0) (initial empty_scores).

Lemma dead_world_reachable : reachable dead_world.
Proof.
  replace dead_world with (run ([EvSelect] ++ ticks 470 10 99 0) (initial empty_scores))
    by (vm_compute; reflexivity).
  apply reachable_run. by constructor.
Qed.

Lemma dead_game_is_frozen_witness :
  frozen dead_world (handle EvSelect dead_world) ∧
  frozen dead_world (handle (EvTick 10 99 0) dead_world).
Proof.
  pose proof (dead_game_is_frozen EvSelect dead_world) as H1.
  pose proof (dead_game_is_frozen (EvTick 10 99 0) dead_world) as H2.
  destruct H1 as [H1 _]; [vm_compute; reflexivity..|].
  destruct H2 as [H2 _]; [vm_compute; reflexivity..|].
  split; [exact H1|exact H2].
Defined.

(** ** The score *)

Lemma score_for_height_bounds (y : f32) :
  (10 ≤ score_for_height y ≤ 1000)%Z.
Proof. unfold score_for_height. repeat case_match; lia. Qed.

(** The tongue phase adds nothing to the score, or, on completing a
    retraction at tip height [y], [score_for_height y]. *)
Lemma update_tongue_score (dt : f32) (g : Game) :
  score (update_tongue dt g) = score g ∨
  (t_active (tongue (pyoro g)) = true ∧ going_back (tongue (pyoro g)) = true ∧
   caught_bean (tongue (pyoro g)) = true ∧
   let y := t_y (retract_tongue dt (tongue (pyoro g))) in
   (y >=~ p_y (pyoro g)) = true ∧
   score (update_tongue dt g) = (score g + score_for_height y)%Z).
Proof.
  unfold update_tongue. destruct (t_active _) eqn:Hact; [|by left].
  destruct (going_back _) eqn:Hgb.
  - unfold tongue_retract. set (g1 := set_pyoro _ g).
    destruct (carry_bean_frame g1) as (_ & Hpy & _ & _ & Hsc & _ & Hlen).
    rewrite Hpy. cbn [g1 pyoro set_pyoro tongue set_tongue p_y].
    destruct (_ >=~ _) eqn:Hback; [|left; by rewrite Hsc].
    unfold tongue_back. cbn [score set_pyoro]. rewrite Hpy.
    cbn [g1 pyoro set_pyoro tongue set_tongue]. cbn [retract_tongue caught_bean].
    destruct (caught_bean _) eqn:Hcb; [|left; by rewrite Hsc].
    destruct (find_bean _ _ _) as [i|] eqn:Hfind; [|left; by rewrite Hsc].
    right. repeat split; try done.
    destruct (find_bean_Some _ _ _ _ Hfind) as (_ & (b & Hb & _) & _).
    rewrite Nat.sub_0_r in Hb. apply lookup_lt_Some in Hb.
    destruct (collect_bean_facts i (carry_bean g1) Hb) as (_ & _ & -> & _).
    by rewrite Hsc, Hpy.
  - left. unfold tongue_extend. by case_match.
Qed.

Lemma before_beans_score (delta_time : f32) (w : World) :
  score (s_game (before_beans delta_time w)) = score (s_game w) ∨
  ∃ y, (y >=~ p_y (pyoro (s_game w))) = true ∧
       score (s_game (before_beans delta_time w)) = (score (s_game w) + score_for_height y)%Z.
Proof.
  unfold before_beans. cbn [s_game set_game].
  match goal with |- context [drain_step_queue ?w1] =>
    destruct (drain_step_queue_game w1) as [x Hx] end.
  rewrite Hx. cbn [s_game set_game pyoro set_game_speed].
  set (g1 := set_pyoro _ _). set (dt := delta_time *~ game_speed (s_game w)).
  destruct (update_tongue_score dt g1) as [->|(_ & _ & _ & Hy)]; [by left|].
  cbv zeta in Hy. destruct Hy as [Hback ->]. right. by eexists.
Qed.

Lemma SFcompare_positive (m1 m2 : positive) (e1 e2 : Z) :
  SFcompare (S754_finite false m1 e1) (S754_finite false m2 e2)
  = Some match Z.compare e1 e2 with
         | Lt => Lt
         | Gt => Gt
         | Eq => Pos.compare m1 m2
         end.
Proof. reflexivity. Qed.

(** At or below Pyoro's height 18 only the lowest band is left. *)
Lemma score_for_height_low (y : f32) :
  (y >=~ of_int 18) = true → score_for_height y = 10%Z.
Proof.
  intros Hy. unfold score_for_height.
  replace (of_int GAME_HEIGHT *~ lit 2 1) with (S754_finite false 8388608 (-21))
    by (vm_compute; reflexivity).
  replace (of_int GAME_HEIGHT *~ lit 4 1) with (S754_finite false 8388608 (-20))
    by (vm_compute; reflexivity).
  replace (of_int GAME_HEIGHT *~ lit 6 1) with (S754_finite false 12582912 (-20))
    by (vm_compute; reflexivity).
  replace (of_int GAME_HEIGHT *~ lit 8 1) with (S754_finite false 8388608 (-19))
    by (vm_compute; reflexivity).
  replace (of_int 18) with (S754_finite false 9437184 (-19)) in Hy
    by (vm_compute; reflexivity).
  Transparent geb leb ltb.
  unfold geb, leb, SFleb in Hy. unfold ltb, SFltb.
  Opaque geb leb ltb.
  destruct y as [s|s| |s m e].
  - discriminate Hy.
  - destruct s; [discriminate Hy|reflexivity].
  - discriminate Hy.
  - destruct s; [discriminate Hy|].
    rewrite SFcompare_positive in Hy. rewrite !SFcompare_positive.
    destruct (Z.compare_spec (-19) e) as [He|He|He].
    + subst e. destruct (Pos.compare_spec 9437184 m) as [Hm|Hm|Hm].
      * subst m. reflexivity.
      * change (-19 ?= -21)%Z with Gt. change (-19 ?= -20)%Z with Gt.
        change (-19 ?= -19)%Z with Eq. cbv iota.
        assert (Hgt : (m ?= 8388608)%positive = Gt) by (apply Pos.compare_gt_iff; lia).
        rewrite Hgt. reflexivity.
      * discriminate Hy.
    + destruct (Z.compare_spec e (-21)) as [?|?|_]; [lia|lia|].
      destruct (Z.compare_spec e (-20)) as [?|?|_]; [lia|lia|].
      destruct (Z.compare_spec e (-19)) as [?|?|_]; [lia|lia|]. reflexivity.
    + discriminate Hy.
Qed.

Lemma update_game_score_cases (delta_time : f32) (r1 r2 r3 : Z) (w : World) :
  score (s_game (update_game delta_time r1 r2 r3 w)) = score (s_game w) ∨
  (state (s_game w) = GAME_STATE_PLAYING ∧ dead (pyoro (s_game w)) = false ∧
   ∃ y, (y >=~ p_y (pyoro (s_game w))) = true ∧
        score (s_game (update_game delta_time r1 r2 r3 w))
        = (score (s_game w) + score_for_height y)%Z).
Proof.
  destruct (update_game_cases w) as [Hidle|[(Hst & Hp & Hd)|(Hst & Hp & Hd)]].
  - left. by rewrite update_game_idle.
  - left. rewrite update_game_dead by done. cbv zeta. by destruct (_ <=~ _).
  - rewrite update_game_score by done.
    destruct (before_beans_score delta_time w) as [->|(y & Hy & ->)]; [by left|].
    right. repeat split; try done. by exists y.
Qed.

Lemma handler_score (e : event) (w : World) :
  (∀ r1 r2 r3, e ≠ EvTick r1 r2 r3) →
  score (s_game (handle e w)) = score (s_game w) ∨
  (state (s_game w) = GAME_STATE_MENU ∧ e = EvSelect ∧ score (s_game (handle e w)) = 0%Z).
Proof.
  intros Hne. destruct e as [r1 r2 r3| | | | |]; cbn [handle].
  - by destruct (Hne r1 r2 r3).
  - unfold prv_select_click_handler. destruct (state (s_game w)) eqn:Hst.
    + by right.
    + left. by repeat case_match.
    + by left.
  - left. unfold prv_up_click_handler, direction_click. by repeat case_match.
  - left. unfold prv_down_click_handler, direction_click. by repeat case_match.
  - left. unfold prv_up_repeating_click_handler, direction_click. by repeat case_match.
  - left. unfold prv_down_repeating_click_handler, direction_click. by repeat case_match.
Qed.

(** The bounds of the C [int] that holds the score (32 bits on the
    watch).  The model keeps the score in [Z]; it agrees with the program
    as long as the additions stay inside these bounds, and overflow of a
    signed [int] is undefined in C. *)
Definition INT_MAX : Z := 2147483647.
Definition INT_MIN : Z := -2147483648.

(** X5: in a state whose score leaves room for one award (it is at most
    [INT_MAX - 1000], so that the addition cannot overflow), an event
    never lowers the score of a running game: the score stays an [int], a
    tick leaves it alone or adds one award of at least 10 and at most 1000,
    and no button changes it, except select in the menu, which starts a
    game at score 0. *)
Theorem score_never_drops_in_play (e : event) (w : World) :
  (INT_MIN ≤ score (s_game w) ≤ INT_MAX - 1000)%Z →
  (INT_MIN ≤ score (s_game (handle e w)) ≤ INT_MAX)%Z ∧
  (((score (s_game w) ≤ score (s_game (handle e w)) ≤ score (s_game w) + 1000)%Z ∧
    (score (s_game (handle e w)) ≠ score (s_game w) →
     (score (s_game w) + 10 ≤ score (s_game (handle e w)))%Z ∧
     ∃ r1 r2 r3, e = EvTick r1 r2 r3)) ∨
   (state (s_game w) = GAME_STATE_MENU ∧ e = EvSelect ∧ score (s_game (handle e w)) = 0%Z)).
Proof.
  intros Hint. unfold INT_MIN, INT_MAX in *.
  assert (Hsame : score (s_game (handle e w)) = score (s_game w) →
    (-2147483648 ≤ score (s_game (handle e w)) ≤ 2147483647)%Z ∧
    (((score (s_game w) ≤ score (s_game (handle e w)) ≤ score (s_game w) + 1000)%Z ∧
      (score (s_game (handle e w)) ≠ score (s_game w) →
       (score (s_game w) + 10 ≤ score (s_game (handle e w)))%Z ∧
       ∃ r1 r2 r3, e = EvTick r1 r2 r3)) ∨
     (state (s_game w) = GAME_STATE_MENU ∧ e = EvSelect ∧
      score (s_game (handle e w)) = 0%Z))).
  { intros Heq. rewrite Heq. split; [lia|]. left. split; [lia|]. intros Hne. by destruct Hne. }
  destruct e as [r1 r2 r3| | | | |].
  - cbn [handle] in *. unfold game_update in *.
    destruct (update_game_score_cases (lit 16 3) (Z.of_N r1) (Z.of_N r2) (Z.of_N r3) w)
      as [Heq|(_ & _ & y & _ & Heq)]; [by apply Hsame|].
    rewrite Heq. pose proof (score_for_height_bounds y). split; [lia|].
    left. split; [lia|]. intros _. split; [lia|by exists r1, r2, r3].
  - destruct (handler_score EvSelect w) as [Heq|(Hst & He & H0)]; [done|by apply Hsame|].
    rewrite H0. split; [lia|]. by right.
  - destruct (handler_score EvUp w) as [Heq|(_ & ? & _)]; [done|by apply Hsame|done].
  - destruct (handler_score EvDown w) as [Heq|(_ & ? & _)]; [done|by apply Hsame|done].
  - destruct (handler_score EvUpRepeat w) as [Heq|(_ & ? & _)]; [done|by apply Hsame|done].
  - destruct (handler_score EvDownRepeat w) as [Heq|(_ & ? & _)]; [done|by apply Hsame|done].
Qed.

Lemma score_never_drops_in_play_witness :
  (10 ≤ score (s_game (handle (EvTick 15 99 0) retracting_world)) ≤ 1000)%Z.
Proof.
  pose proof (score_never_drops_in_play (EvTick 15 99 0) retracting_world) as H.
  destruct H as [_ [[Hle Hgrow]|(Hmenu & _)]].
  - vm_compute. split; discriminate.
  - destruct Hgrow as [Hten _]; [vm_compute; discriminate|].
    replace (score (s_game retracting_world)) with 0%Z in * by (vm_compute; reflexivity).
    lia.
  - exfalso. vm_compute in Hmenu. discriminate Hmenu.
Defined.

Lemma reachable_score_nonneg (w : World) : reachable w → (0 ≤ score (s_game w))%Z.
Proof.
  induction 1 as [hs Hhs|e w Hw IH]; [done|].
  destruct e as [r1 r2 r3| | | | |].
  - cbn [handle]. unfold game_update.
    destruct (update_game_score_cases (lit 16 3) (Z.of_N r1) (Z.of_N r2) (Z.of_N r3) w)
      as [->|(_ & _ & y & _ & ->)]; [done|].
    pose proof (score_for_height_bounds y). lia.
  - destruct (handler_score EvSelect w) as [->|(_ & _ & ->)]; done.
  - destruct (handler_score EvUp w) as [->|(_ & _ & ->)]; done.
  - destruct (handler_score EvDown w) as [->|(_ & _ & ->)]; done.
  - destruct (handler_score EvUpRepeat w) as [->|(_ & _ & ->)]; done.
  - destruct (handler_score EvDownRepeat w) as [->|(_ & _ & ->)]; done.
Qed.

(** X6: in a game that is really played the upper bands are never
    reached: the retraction completes only at or below Pyoro's height 18,
    so in every reachable state the score is not negative and a tick adds
    either nothing or exactly the baseline 10. *)
Theorem catch_awards_baseline (r1 r2 r3 : N) (w : World) :
  reachable w →
  (0 ≤ score (s_game w))%Z ∧
  (score (s_game (handle (EvTick r1 r2 r3) w)) = score (s_game w) ∨
   score (s_game (handle (EvTick r1 r2 r3) w)) = (score (s_game w) + 10)%Z).
Proof.
  intros Hw. split; [by apply reachable_score_nonneg|].
  cbn [handle]. unfold game_update.
  destruct (update_game_score_cases (lit 16 3) (Z.of_N r1) (Z.of_N r2) (Z.of_N r3) w)
    as [->|(_ & _ & y & Hy & ->)]; [by left|].
  right. destruct (reachable_play_inv w Hw) as (_ & _ & _ & Hpy & _).
  rewrite Hpy in Hy.
  replace (of_int GAME_HEIGHT -~ lit 20 1) with (of_int 18) in Hy by (vm_compute; reflexivity).
  by rewrite (score_for_height_low y Hy).
Qed.

Lemma catch_awards_baseline_witness :
  (0 ≤ score (s_game retracting_world))%Z ∧
  (score (s_game (handle (EvTick 15 99 0) retracting_world)) = score (s_game retracting_world) ∨
   score (s_game (handle (EvTick 15 99 0) retracting_world))
   = (score (s_game retracting_world) + 10)%Z).
Proof.
  exact (catch_awards_baseline 15 99 0 retracting_world retracting_world_reachable).
Defined.

(** ** The step queue *)

(** The queue holds at most 60 steps, has a direction exactly when it
    has steps, that direction is Pyoro's facing, and the queue is empty
    while the tongue is out. *)
Definition queue_inv (w : World) : Prop :=
  (0 ≤ s_pending_step_count w ≤ PYORO_PENDING_STEPS_MAX)%Z ∧
  (s_pending_step_count w = 0%Z ↔ s_pending_step_dir w = 0%Z) ∧
  (s_pending_step_dir w ≠ 0%Z → s_pending_step_dir w = direction (pyoro (s_game w))) ∧
  (t_active (tongue (pyoro (s_game w))) = true → s_pending_step_count w = 0%Z).

Lemma drain_step_queue_pending (w : World) :
  (s_pending_step_dir (drain_step_queue w) = 0%Z ∧
   s_pending_step_count (drain_step_queue w) = 0%Z) ∨
  (s_pending_step_dir (drain_step_queue w) = s_pending_step_dir w ∧
   s_pending_step_count (drain_step_queue w) = s_pending_step_count w ∧
   ¬ (s_pending_step_count w > 0 ∧ s_pending_step_dir w ≠ 0)%Z) ∨
  (s_pending_step_dir (drain_step_queue w) = s_pending_step_dir w ∧
   s_pending_step_count (drain_step_queue w) = (s_pending_step_count w - 1)%Z ∧
   (s_pending_step_count w > 1)%Z).
Proof.
  unfold drain_step_queue. destruct (t_active _); [by left|].
  destruct (Z.gtb_spec (s_pending_step_count w) 0) as [Hc|Hc]; cbn [andb].
  - destruct (Z.eqb_spec (s_pending_step_dir w) 0) as [Hd|Hd]; cbn [negb].
    + right. left. repeat split. lia.
    + cbn [s_pending_step_dir s_pending_step_count set_pending].
      destruct (Z.leb_spec (s_pending_step_count w - 1) 0).
      * left. split; [done|lia].
      * right. right. repeat split. lia.
  - right. left. repeat split. lia.
Qed.

Lemma update_game_pending (delta_time : f32) (r1 r2 r3 : Z) (w : World) :
  (s_pending_step_dir (update_game delta_time r1 r2 r3 w) = 0%Z ∧
   s_pending_step_count (update_game delta_time r1 r2 r3 w) = 0%Z) ∨
  (s_pending_step_dir (update_game delta_time r1 r2 r3 w) = s_pending_step_dir w ∧
   s_pending_step_count (update_game delta_time r1 r2 r3 w) = s_pending_step_count w) ∨
  (s_pending_step_dir (update_game delta_time r1 r2 r3 w) = s_pending_step_dir w ∧
   s_pending_step_count (update_game delta_time r1 r2 r3 w) = (s_pending_step_count w - 1)%Z ∧
   (s_pending_step_count w > 1)%Z).
Proof.
  destruct (update_game_cases w) as [Hidle|[(Hst & Hp & Hd)|(Hst & Hp & Hd)]].
  - right. left. by rewrite update_game_idle.
  - right. left. rewrite update_game_dead by done. cbv zeta. by destruct (_ <=~ _).
  - rewrite update_game_playing by done. cbv zeta.
    cbn [s_pending_step_dir s_pending_step_count]. unfold before_beans.
    cbn [s_pending_step_dir s_pending_step_count set_game].
    match goal with |- context [drain_step_queue ?w1] =>
      destruct (drain_step_queue_pending w1) as [H|[(H1 & H2 & _)|H]] end;
      cbn [s_pending_step_dir s_pending_step_count set_game] in *; tauto.
Qed.

Lemma update_game_direction (delta_time : f32) (r1 r2 r3 : Z) (w : World) :
  direction (pyoro (s_game (update_game delta_time r1 r2 r3 w)))
  = direction (pyoro (s_game w)).
Proof.
  destruct (update_game_cases w) as [Hidle|[(Hst & Hp & Hd)|(Hst & Hp & Hd)]].
  - by rewrite update_game_idle.
  - rewrite update_game_dead by done. cbv zeta. by destruct (_ <=~ _).
  - by destruct (update_game_pyoro_fields delta_time r1 r2 r3 w Hst Hp Hd) as (x & t & d & ->).
Qed.

(** A tick does not shoot the tongue; and if it finds the tongue out, it
    empties the queue and does not move Pyoro. *)
Lemma update_game_tongue (delta_time : f32) (r1 r2 r3 : Z) (w : World) :
  (t_active (tongue (pyoro (s_game w))) = false →
   t_active (tongue (pyoro (s_game (update_game delta_time r1 r2 r3 w)))) = false) ∧
  (state (s_game w) = GAME_STATE_PLAYING → game_paused (s_game w) = false →
   dead (pyoro (s_game w)) = false → t_active (tongue (pyoro (s_game w))) = true →
   p_x (pyoro (s_game (update_game delta_time r1 r2 r3 w))) = p_x (pyoro (s_game w)) ∧
   s_pending_step_count (update_game delta_time r1 r2 r3 w) = 0%Z ∧
   s_pending_step_dir (update_game delta_time r1 r2 r3 w) = 0%Z).
Proof.
  split.
  - intros Hta.
    destruct (update_game_cases w) as [Hidle|[(Hst & Hp & Hd)|(Hst & Hp & Hd)]].
    + by rewrite update_game_idle.
    + rewrite update_game_dead by done. cbv zeta. by destruct (_ <=~ _).
    + destruct (update_game_pyoro delta_time r1 r2 r3 w Hst Hp Hd) as [d ->].
      cbn [tongue set_dead]. unfold before_beans. cbn [s_game set_game].
      match goal with |- context [drain_step_queue ?w1] =>
        destruct (drain_step_queue_game w1) as [x ->] end.
      unfold update_tongue. cbn [s_game set_game pyoro set_pyoro set_game_speed tongue set_p_x].
      by rewrite Hta.
  - intros Hst Hp Hd Hta.
    destruct (before_beans_tongue_out delta_time w Hta) as (Hg3 & Hc & Hdir).
    destruct (update_game_pyoro delta_time r1 r2 r3 w Hst Hp Hd) as [d Hpy].
    split.
    + rewrite Hpy, Hg3.
      match goal with |- context [update_tongue ?dt ?g] =>
        destruct (update_tongue_pyoro dt g) as [t ->] end.
      reflexivity.
    + rewrite update_game_playing by done. cbv zeta. by split.
Qed.

Lemma update_game_queue_inv delta_time r1 r2 r3 w :
  queue_inv w → queue_inv (update_game delta_time r1 r2 r3 w).
Proof.
  intros (Hrange & Hiff & Hface & Hout). unfold queue_inv.
  rewrite update_game_direction.
  assert (Hout' : t_active (tongue (pyoro (s_game (update_game delta_time r1 r2 r3 w)))) = true
                  → s_pending_step_count (update_game delta_time r1 r2 r3 w) = 0%Z).
  { intros Hta'.
    destruct (t_active (tongue (pyoro (s_game w)))) eqn:Hta.
    - destruct (update_game_cases w) as [Hidle|[(Hst & Hp & Hd)|(Hst & Hp & Hd)]].
      + rewrite update_game_idle by done. by apply Hout.
      + rewrite update_game_dead by done. cbv zeta. destruct (_ <=~ _); by apply Hout.
      + by destruct (proj2 (update_game_tongue delta_time r1 r2 r3 w) Hst Hp Hd Hta)
          as (_ & ? & _).
    - rewrite (proj1 (update_game_tongue delta_time r1 r2 r3 w) Hta) in Hta'. done. }
  destruct (update_game_pending delta_time r1 r2 r3 w)
    as [[Hd Hc]|[[Hd Hc]|(Hd & Hc & Hgt)]]; rewrite Hd, Hc in *;
    unfold PYORO_PENDING_STEPS_MAX in *.
  - repeat split; try done; lia.
  - done.
  - split; [lia|]. split; [|done]. split; [lia|].
    intros Hz. destruct Hiff as [_ Hiff]. specialize (Hiff Hz). lia.
Qed.

Lemma direction_click_queue_inv dir steps w :
  dir ≠ 0%Z → (1 ≤ steps)%Z → queue_inv w → queue_inv (direction_click dir steps w).
Proof.
  intros Hdir Hsteps (Hrange & Hiff & Hface & Hout). unfold direction_click.
  destruct (_ && _) eqn:Hguard; [|done].
  apply andb_true_iff in Hguard as [_ Hta]. apply negb_true_iff in Hta.
  unfold queue_inv, PYORO_PENDING_STEPS_MAX in *.
  destruct (_ =? _)%Z; cbn [s_pending_step_dir s_pending_step_count set_pending set_game
                            s_game pyoro set_pyoro direction set_direction tongue].
  - rewrite Hta. repeat split; try done; lia.
  - rewrite Hta. destruct (Z.gtb_spec (s_pending_step_count w + steps) 60);
      repeat split; try lia; done.
Qed.

Lemma handle_queue_inv e w : queue_inv w → queue_inv (handle e w).
Proof.
  intros Hinv. destruct e; cbn [handle].
  - by apply update_game_queue_inv.
  - unfold prv_select_click_handler. unfold queue_inv, PYORO_PENDING_STEPS_MAX in *.
    destruct (state (s_game w)).
    + cbn. repeat split; try done; lia.
    + repeat case_match; cbn; repeat split; try tauto; lia.
    + tauto.
  - by apply direction_click_queue_inv.
  - by apply direction_click_queue_inv.
  - by apply direction_click_queue_inv.
  - by apply direction_click_queue_inv.
Qed.

(** X7: in every reachable state the step queue holds between 0 and 60
    steps, its direction is none exactly when it is empty, a queued
    direction is always Pyoro's facing, and the queue is empty whenever
    the tongue is out. *)
Theorem step_queue_consistent (w : World) :
  reachable w →
  (0 ≤ s_pending_step_count w ≤ 60)%Z ∧
  (s_pending_step_count w = 0%Z ↔ s_pending_step_dir w = 0%Z) ∧
  (s_pending_step_dir w ≠ 0%Z → s_pending_step_dir w = direction (pyoro (s_game w))) ∧
  (t_active (tongue (pyoro (s_game w))) = true → s_pending_step_count w = 0%Z).
Proof.
  induction 1 as [hs Hhs|e w Hw IH].
  - cbn. repeat split; try done; lia.
  - by apply (handle_queue_inv e w).
Qed.

Lemma step_queue_consistent_witness :
  (0 ≤ s_pending_step_count right_wall_world ≤ 60)%Z ∧
  s_pending_step_count walking_world = 3%Z.
Proof.
  destruct (step_queue_consistent right_wall_world right_wall_world_reachable) as (H & _).
  split; [exact H|vm_compute; reflexivity].
Defined.

(** X8: a tick that finds the tongue out (in a running game, Pyoro
    alive) empties the step queue and leaves Pyoro where it stands. *)
Theorem tongue_out_stops_walking (delta_time : f32) (r1 r2 r3 : Z) (w : World) :
  state (s_game w) = GAME_STATE_PLAYING →
  game_paused (s_game w) = false →
  dead (pyoro (s_game w)) = false →
  t_active (tongue (pyoro (s_game w))) = true →
  p_x (pyoro (s_game (update_game delta_time r1 r2 r3 w))) = p_x (pyoro (s_game w)) ∧
  s_pending_step_count (update_game delta_time r1 r2 r3 w) = 0%Z ∧
  s_pending_step_dir (update_game delta_time r1 r2 r3 w) = 0%Z.
Proof.
  intros Hst Hp Hd Hta.
  exact (proj2 (update_game_tongue delta_time r1 r2 r3 w) Hst Hp Hd Hta).
Qed.

(** [carrying_world] with four steps put into the queue (no press can
    queue a step while the tongue is out). *)
Definition carrying_world_queued : World := set_pending 1 4 carrying_world.

Lemma tongue_out_stops_walking_witness :
  s_pending_step_count (game_update 15 99 0 carrying_world_queued) = 0%Z ∧
  p_x (pyoro (s_game (game_update 15 99 0 carrying_world_queued)))
  = p_x (pyoro (s_game carrying_world_queued)).
Proof.
  pose proof (tongue_out_stops_walking (lit 16 3) 15 99 0 carrying_world_queued) as H.
  destruct H as (Hx & Hc & _); [vm_compute; reflexivity..|].
  split; [exact Hc|exact Hx].
Defined.

(** ** Death *)

(** The bean loop leaves Pyoro and the death timer alone, or it kills a
    live Pyoro whose tongue is in and starts the death timer. *)
Lemma update_beans_loop_death (dt : f32) (idx : list nat) (g : Game) :
  (pyoro (update_beans_loop dt idx g) = pyoro g ∧
   death_timer (update_beans_loop dt idx g) = death_timer g) ∨
  (dead (pyoro g) = false ∧ t_active (tongue (pyoro g)) = false ∧
   pyoro (update_beans_loop dt idx g) = set_dead true (pyoro g) ∧
   death_timer (update_beans_loop dt idx g) = DEATH_DELAY).
Proof.
  revert g. induction idx as [|k idx IH]; intros g; [by left|].
  rewrite update_beans_loop_cons. cbv zeta.
  destruct (_ && _); [|apply IH].
  destruct (bean_hits_pyoro _ _) eqn:Hhit.
  - right. unfold bean_hits_pyoro in Hhit. cbn [pyoro set_beans] in Hhit.
    apply andb_true_iff in Hhit as [Hhit _]. apply andb_true_iff in Hhit as [Hd Hta].
    apply negb_true_iff in Hd, Hta. done.
  - set (g2 := if _ >=~ _ then _ else _).
    assert (Hg2 : pyoro g2 = pyoro g ∧ death_timer g2 = death_timer g).
    { unfold g2. destruct (_ >=~ _); split; reflexivity. }
    destruct Hg2 as [Hpy Hdt].
    destruct (IH g2) as [[H1 H2]|(H1 & H2 & H3 & H4)].
    + left. split; congruence.
    + right. rewrite <- Hpy. auto.
Qed.

Lemma update_game_death (delta_time : f32) (r1 r2 r3 : Z) (w : World) :
  state (s_game w) = GAME_STATE_PLAYING →
  game_paused (s_game w) = false →
  dead (pyoro (s_game w)) = false →
  (dead (pyoro (s_game (update_game delta_time r1 r2 r3 w))) = false ∧
   death_timer (s_game (update_game delta_time r1 r2 r3 w)) = death_timer (s_game w)) ∨
  (dead (pyoro (s_game (update_game delta_time r1 r2 r3 w))) = true ∧
   t_active (tongue (pyoro (s_game (update_game delta_time r1 r2 r3 w)))) = false ∧
   death_timer (s_game (update_game delta_time r1 r2 r3 w)) = DEATH_DELAY).
Proof.
  intros Hst Hp Hd.
  destruct (before_beans_keeps delta_time w) as (_ & _ & Hdt3 & _).
  destruct (before_beans_pyoro delta_time w) as (x & t & Hpy3).
  rewrite update_game_playing by done. cbv zeta. cbn [s_game].
  set (dt := delta_time *~ game_speed (s_game w)).
  set (g3 := s_game (before_beans delta_time w)) in *.
  destruct (spawn_phase_frame dt r1 r2 r3 (update_angel dt (update_beans dt g3)))
    as (_ & -> & _).
  destruct (spawn_phase_keeps dt r1 r2 r3 (update_angel dt (update_beans dt g3))) as (_ & ->).
  destruct (update_angel_frame dt (update_beans dt g3)) as (_ & -> & _).
  destruct (update_angel_keeps dt (update_beans dt g3)) as (_ & -> & _).
  unfold update_beans.
  destruct (update_beans_loop_death dt (seq 0 NUM_BEANS) g3)
    as [[-> ->]|(_ & Hta & -> & ->)].
  - left. rewrite Hpy3, Hdt3. cbn. by rewrite Hd.
  - right. done.
Qed.

Definition dead_inv (w : World) : Prop :=
  dead (pyoro (s_game w)) = true → t_active (tongue (pyoro (s_game w))) = false.

Lemma handle_dead_inv e w : dead_inv w → dead_inv (handle e w).
Proof.
  intros Hinv. unfold dead_inv in *. destruct e as [r1 r2 r3| | | | |]; cbn [handle].
  - unfold game_update.
    destruct (update_game_cases w) as [Hidle|[(Hst & Hp & Hd)|(Hst & Hp & Hd)]].
    + by rewrite update_game_idle.
    + rewrite update_game_dead by done. cbv zeta. by destruct (_ <=~ _).
    + destruct (update_game_death (lit 16 3) (Z.of_N r1) (Z.of_N r2) (Z.of_N r3) w Hst Hp Hd)
        as [[-> _]|(_ & -> & _)]; done.
  - unfold prv_select_click_handler. destruct (state (s_game w)); [cbn; discriminate| |done].
    destruct (dead (pyoro (s_game w))) eqn:Hd; cbn [negb]; [by rewrite Hd|].
    destruct (t_active _); cbn; by rewrite Hd.
  - unfold prv_up_click_handler, direction_click. by repeat case_match.
  - unfold prv_down_click_handler, direction_click. by repeat case_match.
  - unfold prv_up_repeating_click_handler, direction_click. by repeat case_match.
  - unfold prv_down_repeating_click_handler, direction_click. by repeat case_match.
Qed.

(** X9: a tick of a running game kills Pyoro only with the tongue in:
    after the tick Pyoro is alive and the death timer untouched, or Pyoro
    is dead, the tongue is inactive and the death timer is at its full
    delay of one second.  In every reachable state a dead Pyoro has its
    tongue in. *)
Theorem death_only_with_tongue_in :
  (∀ (delta_time : f32) (r1 r2 r3 : Z) (w : World),
     state (s_game w) = GAME_STATE_PLAYING →
     game_paused (s_game w) = false →
     dead (pyoro (s_game w)) = false →
     (dead (pyoro (s_game (update_game delta_time r1 r2 r3 w))) = false ∧
      death_timer (s_game (update_game delta_time r1 r2 r3 w)) = death_timer (s_game w)) ∨
     (dead (pyoro (s_game (update_game delta_time r1 r2 r3 w))) = true ∧
      t_active (tongue (pyoro (s_game (update_game delta_time r1 r2 r3 w)))) = false ∧
      death_timer (s_game (update_game delta_time r1 r2 r3 w)) = of_int 1)) ∧
  (∀ w, reachable w → dead (pyoro (s_game w)) = true →
        t_active (tongue (pyoro (s_game w))) = false).
Proof.
  split.
  - intros delta_time r1 r2 r3 w Hst Hp Hd.
    replace (of_int 1) with DEATH_DELAY by (vm_compute; reflexivity).
    by apply update_game_death.
  - intros w Hw. induction Hw as [hs Hhs|e w Hw IH]; [done|].
    by apply (handle_dead_inv e w).
Qed.

(** The last tick before [dead_world]'s bean reaches Pyoro. *)
Definition doomed_world : World :=
  Eval vm_compute in run ([EvSelect] ++ ticks 461 10 99 0) (initial empty_scores).

Lemma death_only_with_tongue_in_witness :
  dead (pyoro (s_game (game_update 10 99 0 doomed_world))) = true ∧
  death_timer (s_game (game_update 10 99 0 doomed_world)) = of_int 1 ∧
  t_active (tongue (pyoro (s_game dead_world))) = false.
Proof.
  destruct death_only_with_tongue_in as [Htick Hreach].
  pose proof (Htick (lit 16 3) 10%Z 99%Z 0%Z doomed_world) as H.
  destruct H as [[Halive _]|(Hdead & _ & Htimer)]; [vm_compute; reflexivity..| |].
  - vm_compute in Halive. discriminate Halive.
  - split; [exact Hdead|]. split; [exact Htimer|].
    apply (Hreach dead_world dead_world_reachable). vm_compute. reflexivity.
Defined.

(** ** The background *)

Lemma background_for_range (sc : Z) :
  (0 ≤ sc)%Z → (0 ≤ background_for sc < NUM_BACKGROUNDS)%Z ∧
              background_for sc = Z.min (sc / SCORE_PER_BACKGROUND) (NUM_BACKGROUNDS - 1).
Proof.
  intros Hsc. unfold background_for, SCORE_PER_BACKGROUND, NUM_BACKGROUNDS.
  rewrite Z.quot_div_nonneg by lia.
  pose proof (Z.div_pos sc 40 Hsc ltac:(lia)).
  destruct (Z.geb_spec (sc / 40) 21); lia.
Qed.

(** X10: in every reachable state the background index is a valid index
    into the 21 backgrounds, and after every tick of a running game with
    Pyoro alive it is the score divided by 40 (rounded down), capped at
    20. *)
Theorem background_index_valid (w : World) :
  reachable w →
  (0 ≤ s_background_index w < NUM_BACKGROUNDS)%Z ∧
  ∀ r1 r2 r3,
    state (s_game w) = GAME_STATE_PLAYING → dead (pyoro (s_game w)) = false →
    s_background_index (handle (EvTick r1 r2 r3) w)
    = Z.min (score (s_game (handle (EvTick r1 r2 r3) w)) / 40) 20.
Proof.
  intros Hw. split.
  - induction Hw as [hs Hhs|e w Hw IH]; [done|].
    assert (Hsc : (0 ≤ score (s_game (handle e w)))%Z).
    { apply reachable_score_nonneg. by constructor. }
    destruct (reachable_play_inv w Hw) as (_ & _ & Hp & _).
    destruct e as [r1 r2 r3| | | | |]; cbn [handle] in *.
    + unfold game_update in *.
      destruct (update_game_cases w) as [Hidle|[(Hst & _ & Hd)|(Hst & _ & Hd)]].
      * by rewrite update_game_idle.
      * rewrite update_game_dead by done. cbv zeta. by destruct (_ <=~ _).
      * destruct (update_game_keeps (lit 16 3) (Z.of_N r1) (Z.of_N r2) (Z.of_N r3) w
                    Hst Hp Hd) as (_ & _ & _ & _ & _ & _ & ->).
        by apply background_for_range.
    + unfold prv_select_click_handler. by repeat case_match.
    + unfold prv_up_click_handler, direction_click. by repeat case_match.
    + unfold prv_down_click_handler, direction_click. by repeat case_match.
    + unfold prv_up_repeating_click_handler, direction_click. by repeat case_match.
    + unfold prv_down_repeating_click_handler, direction_click. by repeat case_match.
  - intros r1 r2 r3 Hst Hd. cbn [handle]. unfold game_update.
    destruct (reachable_play_inv w Hw) as (_ & _ & Hp & _).
    destruct (update_game_keeps (lit 16 3) (Z.of_N r1) (Z.of_N r2) (Z.of_N r3) w
                Hst Hp Hd) as (_ & _ & _ & _ & _ & _ & ->).
    apply background_for_range.
    apply (reachable_score_nonneg (handle (EvTick r1 r2 r3) w)). by constructor.
Qed.

Lemma background_index_valid_witness :
  (0 ≤ s_background_index ascending_world < NUM_BACKGROUNDS)%Z.
Proof.
  exact (proj1 (background_index_valid ascending_world ascending_world_reachable)).
Defined.

(** ** Finding a block to repair *)

Lemma find_destroyed_from_spec (bl : list Block) (k : Z) :
  (find_destroyed_from k bl = (-1)%Z ∧
   ∀ i b, bl !! i = Some b → exists_ b = true ∨ is_repairing b = true) ∨
  (∃ i b, find_destroyed_from k bl = (k + Z.of_nat i)%Z ∧ bl !! i = Some b ∧
          exists_ b = false ∧ is_repairing b = false ∧
          ∀ j c, (j < i)%nat → bl !! j = Some c → exists_ c = true ∨ is_repairing c = true).
Proof.
  revert k. induction bl as [|b bl IH]; intros k; cbn [find_destroyed_from].
  - left. split; [done|]. intros i c Hi. by rewrite lookup_nil in Hi.
  - destruct (exists_ b) eqn:He; cbn [negb andb].
    + destruct (IH (k + 1)%Z) as [[Hd Hall]|(i & c & Hd & Hi & Hce & Hcr & Hbefore)].
      * left. split; [done|]. intros [|i] c Hi; cbn in Hi; simplify_eq; [by left|].
        by apply (Hall i).
      * right. exists (S i), c. split; [rewrite Hd; lia|]. repeat split; try done.
        intros [|j] c' Hj Hc'; cbn in Hc'; simplify_eq; [by left|].
        apply (Hbefore j); [lia|done].
    + destruct (is_repairing b) eqn:Hr; cbn [negb].
      * destruct (IH (k + 1)%Z) as [[Hd Hall]|(i & c & Hd & Hi & Hce & Hcr & Hbefore)].
        -- left. split; [done|]. intros [|i] c Hi; cbn in Hi; simplify_eq; [by right|].
           by apply (Hall i).
        -- right. exists (S i), c. split; [rewrite Hd; lia|]. repeat split; try done.
           intros [|j] c' Hj Hc'; cbn in Hc'; simplify_eq; [by right|].
           apply (Hbefore j); [lia|done].
      * right. exists 0%nat, b. split; [lia|]. repeat split; try done. intros j c Hj. lia.
Qed.

Lemma block_at_lookup (bl : list Block) (i : nat) (b : Block) :
  bl !! i = Some b → block_at bl (Z.of_nat i) = b.
Proof. intros H. unfold block_at. by rewrite Nat2Z.id, H. Qed.

(** X11: [find_destroyed_block] returns -1 exactly when every block
    exists or is being repaired; otherwise it returns the leftmost column
    whose block is gone and not under repair, and [spawn_angel] on that
    column starts the repair unless an angel is already active. *)
Theorem find_destroyed_block_leftmost (g : Game) :
  length (blocks g) = Z.to_nat GAME_WIDTH →
  let d := find_destroyed_block g in
  (d = (-1)%Z ∧
   ∀ j, (0 ≤ j < GAME_WIDTH)%Z →
        exists_ (block_at (blocks g) j) = true ∨ is_repairing (block_at (blocks g) j) = true) ∨
  ((0 ≤ d < GAME_WIDTH)%Z ∧
   exists_ (block_at (blocks g) d) = false ∧ is_repairing (block_at (blocks g) d) = false ∧
   (∀ j, (0 ≤ j < d)%Z →
         exists_ (block_at (blocks g) j) = true ∨ is_repairing (block_at (blocks g) j) = true) ∧
   (a_active (angel g) = false →
    a_active (angel (spawn_angel d g)) = true ∧
    target_block_index (angel (spawn_angel d g)) = d ∧
    is_repairing (block_at (blocks (spawn_angel d g)) d) = true)).
Proof.
  intros Hlen d. unfold d, find_destroyed_block.
  destruct (find_destroyed_from_spec (blocks g) 0)
    as [[Hd Hall]|(i & b & Hd & Hi & He & Hr & Hbefore)].
  - left. split; [done|]. intros j Hj.
    destruct (blocks g !! Z.to_nat j) as [c|] eqn:Hc.
    + unfold block_at. rewrite Hc. by apply (Hall (Z.to_nat j)).
    + apply lookup_ge_None in Hc. unfold GAME_WIDTH in *. lia.
  - right. rewrite Hd. rewrite Z.add_0_l.
    pose proof (lookup_lt_Some _ _ _ Hi) as Hlt.
    rewrite (block_at_lookup _ _ _ Hi).
    split; [unfold GAME_WIDTH in *; lia|]. split; [done|]. split; [done|]. split.
    + intros j Hj. destruct (blocks g !! Z.to_nat j) as [c|] eqn:Hc.
      * unfold block_at. rewrite Hc. apply (Hbefore (Z.to_nat j)); [lia|done].
      * apply lookup_ge_None in Hc. lia.
    + intros Hact. unfold spawn_angel.
      destruct (Z.ltb_spec (Z.of_nat i) 0); [lia|].
      destruct (Z.geb_spec (Z.of_nat i) GAME_WIDTH); [unfold GAME_WIDTH in *; lia|].
      cbn [orb]. rewrite (block_at_lookup _ _ _ Hi), He, Hr, Hact. cbn.
      repeat split. rewrite block_at_set_block_eq; [done|lia|]. by rewrite Nat2Z.id.
Qed.

Lemma find_destroyed_block_leftmost_witness :
  find_destroyed_block holed_game = 3%Z ∧
  target_block_index (angel (spawn_angel (find_destroyed_block holed_game) holed_game)) = 3%Z.
Proof.
  pose proof (find_destroyed_block_leftmost holed_game) as H.
  destruct H as [[Hnone _]|(_ & _ & _ & _ & Hspawn)]; [vm_compute; reflexivity| |].
  - vm_compute in Hnone. discriminate Hnone.
  - split; [vm_compute; reflexivity|].
    destruct Hspawn as (_ & Htarget & _); [vm_compute; reflexivity|].
    rewrite Htarget. vm_compute. reflexivity.
Defined.

(** ** Spawning a bean *)

Lemma spawn_column (k : Z) :
  (0 ≤ k < GAME_WIDTH)%Z → to_int (of_int k +~ lit 5 1) = k.
Proof.
  intros Hk.
  assert (H : Forall (λ k, to_int (of_int k +~ lit 5 1) = k) (seqZ 0 GAME_WIDTH)).
  { apply (bool_decide_unpack _). vm_compute. exact I. }
  rewrite Forall_forall in H. apply H. apply elem_of_seqZ. lia.
Qed.

Lemma spawn_speed (k : Z) :
  (0 ≤ k < 100)%Z →
  let s := of_int k /~ lit 1000 1 *~ lit 10 1 +~ lit 5 1 in
  (lit 5 1 <=~ s) = true ∧ (s <=~ lit 149 2) = true.
Proof.
  intros Hk.
  assert (H : Forall (λ k, (lit 5 1 <=~ of_int k /~ lit 1000 1 *~ lit 10 1 +~ lit 5 1) = true ∧
                           (of_int k /~ lit 1000 1 *~ lit 10 1 +~ lit 5 1 <=~ lit 149 2) = true)
                     (seqZ 0 100)).
  { apply (bool_decide_unpack _). vm_compute. exact I. }
  rewrite Forall_forall in H. apply H. apply elem_of_seqZ. lia.
Qed.

(** X12: [spawn_bean] does nothing when all five beans are active.
    Otherwise it fills the first inactive slot, and only that slot, with
    an active, uncaught bean at height 0; for the results of [rand()]
    (never negative) the bean sits in the middle of column [r1 % 20], so
    that it lands on a column of the ledge, its speed factor lies between
    0.5 and 1.49, and it is pink only if some block is gone and not under
    repair. *)
Theorem spawn_bean_spec (r1 r2 r3 : Z) (g : Game) :
  (0 ≤ r1)%Z → (0 ≤ r2)%Z →
  ((∀ i b, beans g !! i = Some b → b_active b = true) → spawn_bean r1 r2 r3 g = g) ∧
  (∀ i b, beans g !! i = Some b → b_active b = false →
          (∀ j c, (j < i)%nat → beans g !! j = Some c → b_active c = true) →
          ∃ b', spawn_bean r1 r2 r3 g = set_beans (<[i := b']> (beans g)) g ∧
                b_active b' = true ∧ caught b' = false ∧ b_y b' = lit 0 1 ∧
                b_x b' = of_int (r1 `rem` 20) +~ lit 5 1 ∧
                to_int (b_x b') = (r1 `rem` 20)%Z ∧ (0 ≤ to_int (b_x b') < GAME_WIDTH)%Z ∧
                (lit 5 1 <=~ speed b') = true ∧ (speed b' <=~ lit 149 2) = true ∧
                (b_type b' = BEAN_TYPE_PINK → (0 ≤ find_destroyed_block g)%Z)).
Proof.
  intros Hr1 Hr2. split.
  - intros Hall. unfold spawn_bean.
    destruct (find_bean _ 0 (beans g)) as [i|] eqn:Hfind; [|done].
    destruct (find_bean_Some _ _ _ _ Hfind) as (_ & (b & Hb & Hpb) & _).
    rewrite Nat.sub_0_r in Hb. rewrite (Hall _ _ Hb) in Hpb. done.
  - intros i b Hi Hb Hbefore. unfold spawn_bean.
    destruct (find_bean _ 0 (beans g)) as [k|] eqn:Hfind.
    + destruct (find_bean_Some _ _ _ _ Hfind) as (_ & (c & Hc & Hpc) & Hfirst).
      rewrite Nat.sub_0_r in Hc, Hfirst. apply negb_true_iff in Hpc.
      assert (k = i) as ->.
      { destruct (Nat.lt_trichotomy k i) as [Hlt|[?|Hgt]]; [|done|].
        - rewrite (Hbefore k c Hlt Hc) in Hpc. done.
        - pose proof (Hfirst i b Hgt Hi) as Hn. rewrite Hb in Hn. done. }
      eexists. split; [reflexivity|].
      cbn [b_active caught b_y b_x speed b_type]. unfold GAME_WIDTH.
      assert (Hrem1 : (0 ≤ r1 `rem` 20 < GAME_WIDTH)%Z).
      { unfold GAME_WIDTH. pose proof (Z.rem_bound_pos r1 20). lia. }
      assert (Hrem2 : (0 ≤ r2 `rem` 100 < 100)%Z).
      { pose proof (Z.rem_bound_pos r2 100). lia. }
      rewrite (spawn_column _ Hrem1).
      destruct (spawn_speed _ Hrem2) as [Hlo Hhi].
      repeat split; try done; try (unfold GAME_WIDTH in Hrem1; lia).
      destruct (Z.geb_spec (find_destroyed_block g) 0); [done|]. cbn [andb]. done.
    + rewrite find_bean_None in Hfind. specialize (Hfind i b Hi). rewrite Hb in Hfind. done.
Qed.

Lemma spawn_bean_spec_witness :
  ∃ b', spawn_bean 7 42 0 holed_game = set_beans (<[0%nat := b']> (beans holed_game)) holed_game ∧
        to_int (b_x b') = 7%Z ∧ b_type b' = BEAN_TYPE_PINK.
Proof.
  pose proof (spawn_bean_spec 7 42 0 holed_game) as H.
  destruct H as [_ H]; [lia|lia|].
  destruct (H 0%nat (bean_at (beans holed_game) 0)) as (b' & Heq & _ & _ & _ & Hx & Hcol & _).
  - vm_compute. reflexivity.
  - vm_compute. reflexivity.
  - intros j c Hj. lia.
  - exists b'. split; [exact Heq|]. split; [exact Hcol|].
    assert (Hb' : <[0%nat := b']> (beans holed_game) !! 0%nat = Some b') by reflexivity.
    assert (Hs : beans (spawn_bean 7 42 0 holed_game) !! 0%nat = Some b').
    { rewrite Heq. exact Hb'. }
    vm_compute in Hs. injection Hs as <-. reflexivity.
Defined.

(** ** Collisions *)

(** X13: the overlap test does not depend on the order of the two boxes. *)
Theorem check_collision_symmetric (x1 y1 w1 h1 x2 y2 w2 h2 : f32) :
  check_collision x1 y1 w1 h1 x2 y2 w2 h2 = check_collision x2 y2 w2 h2 x1 y1 w1 h1.
Proof.
  unfold check_collision.
  Transparent gtb ltb.
  unfold gtb, ltb.
  Opaque gtb ltb.
  generalize (SFltb (x1 -~ w1 /~ of_int 2) (x2 +~ w2 /~ of_int 2)).
  generalize (SFltb (x2 -~ w2 /~ of_int 2) (x1 +~ w1 /~ of_int 2)).
  generalize (SFltb (y1 -~ h1 /~ of_int 2) (y2 +~ h2 /~ of_int 2)).
  generalize (SFltb (y2 -~ h2 /~ of_int 2) (y1 +~ h1 /~ of_int 2)).
  intros [] [] [] []; reflexivity.
Qed.

(** ** The high-score table, in full *)

(** The slot test of [insert_high_score]. *)
Definition beats (score h : Z) : Prop := h = HIGH_SCORE_EMPTY ∨ (h < score)%Z.

Lemma slot_test_beats (score h : Z) :
  ((h =? HIGH_SCORE_EMPTY)%Z || (score >? h)%Z) = true ↔ beats score h.
Proof.
  unfold beats. rewrite orb_true_iff, Z.eqb_eq. split; intros [?|H]; auto; right.
  - by apply Z.gtb_lt in H.
  - by apply Z.gtb_lt.
Qed.

Lemma find_insert_at_Some (score : Z) (k : nat) (hs : list Z) (i : nat) :
  find_insert_at score k hs = Some i →
  (k ≤ i)%nat ∧ (∃ h, hs !! (i - k)%nat = Some h ∧ beats score h) ∧
  (∀ j h, (j < i - k)%nat → hs !! j = Some h → ¬ beats score h).
Proof.
  revert k. induction hs as [|c hs IH]; intros k H; [done|]. cbn [find_insert_at] in H.
  destruct (_ || _) eqn:Hc.
  - simplify_eq. replace (i - i)%nat with 0%nat by lia.
    split; [lia|]. split; [exists c; split; [done|by apply slot_test_beats]|].
    intros j h Hj. lia.
  - apply IH in H as (Hk & (h & Hh & Hbeats) & Hbefore).
    split; [lia|]. replace (i - k)%nat with (S (i - S k)) by lia. split.
    + by exists h.
    + intros [|j] h' Hj Hh'; cbn in Hh'; simplify_eq.
      * intros Hb. apply slot_test_beats in Hb. congruence.
      * apply (Hbefore j); [lia|done].
Qed.

Lemma find_insert_at_None (score : Z) (k : nat) (hs : list Z) :
  find_insert_at score k hs = None → ∀ j h, hs !! j = Some h → ¬ beats score h.
Proof.
  revert k. induction hs as [|c hs IH]; intros k H j h Hj; [by rewrite lookup_nil in Hj|].
  cbn [find_insert_at] in H. destruct (_ || _) eqn:Hc; [done|].
  destruct j as [|j]; cbn in Hj; simplify_eq.
  - intros Hb. apply slot_test_beats in Hb. congruence.
  - by apply (IH _ H j).
Qed.

(** The shifting loop and the store, on a table of ten. *)
Lemma insert_at_shape (score : Z) (hs : list Z) (k : nat) :
  length hs = NUM_HIGH_SCORES → (k < NUM_HIGH_SCORES)%nat →
  <[k := score]> (shift_down (NUM_HIGH_SCORES - 1 - k) k hs)
  = take k hs ++ score :: take (NUM_HIGH_SCORES - 1 - k) (drop k hs).
Proof.
  intros Hlen Hk. ten_slots hs Hlen. unfold NUM_HIGH_SCORES in *.
  do 10 (destruct k as [|k]; [reflexivity|]). lia.
Qed.

(** X14: on a table of ten, [insert_high_score] looks for the first slot
    that is empty or holds less than the score.  If there is none (all ten
    entries are real and at least the score, a tie included) the table is
    unchanged; otherwise the score is stored in that slot, the entries
    before it stay, the entries from it on move down by one and the last
    entry of the table is dropped. *)
Theorem insert_high_score_shape (score : Z) (hs : list Z) :
  length hs = NUM_HIGH_SCORES →
  ((∀ j h, hs !! j = Some h → h ≠ HIGH_SCORE_EMPTY ∧ (score ≤ h)%Z) ∧
   insert_high_score score hs = hs) ∨
  (∃ k h, (k < NUM_HIGH_SCORES)%nat ∧ hs !! k = Some h ∧
          (h = HIGH_SCORE_EMPTY ∨ (h < score)%Z) ∧
          (∀ j h', (j < k)%nat → hs !! j = Some h' → h' ≠ HIGH_SCORE_EMPTY ∧ (score ≤ h')%Z) ∧
          insert_high_score score hs
          = take k hs ++ score :: take (NUM_HIGH_SCORES - 1 - k) (drop k hs)).
Proof.
  intros Hlen. unfold insert_high_score.
  assert (Hnot : ∀ h, ¬ beats score h → h ≠ HIGH_SCORE_EMPTY ∧ (score ≤ h)%Z).
  { unfold beats. intros h Hn. split; [tauto|]. lia. }
  rewrite take_ge by lia.
  destruct (find_insert_at score 0 hs) as [k|] eqn:Hfind.
  - right. destruct (find_insert_at_Some _ _ _ _ Hfind) as (_ & (h & Hh & Hb) & Hbefore).
    rewrite Nat.sub_0_r in Hh, Hbefore.
    assert (Hk : (k < NUM_HIGH_SCORES)%nat).
    { apply lookup_lt_Some in Hh. by rewrite <- Hlen. }
    exists k, h. split; [done|]. split; [done|]. split; [exact Hb|]. split.
    + intros j h' Hj Hh'. by apply Hnot, (Hbefore j).
    + by apply insert_at_shape.
  - left. split; [|done]. intros j h Hj.
    apply Hnot. by apply (find_insert_at_None _ _ _ Hfind j).
Qed.

Lemma insert_high_score_shape_witness :
  insert_high_score 10 full_scores = full_scores ∧
  insert_high_score 95 full_scores = [100; 95; 90; 80; 70; 60; 50; 40; 30; 20]%Z.
Proof.
  pose proof (insert_high_score_shape 10 full_scores eq_refl) as H1.
  pose proof (insert_high_score_shape 95 full_scores eq_refl) as H2.
  split.
  - destruct H1 as [[_ Heq]|(k & h & _ & Hh & Hb & _)]; [exact Heq|].
    exfalso. unfold full_scores, HIGH_SCORE_EMPTY in *.
    do 10 (destruct k as [|k]; [cbn in Hh; simplify_eq; lia|]). by destruct k.
  - destruct H2 as [[Hall _]|(k & h & _ & Hh & Hb & Hbefore & Heq)].
    + destruct (Hall 1%nat 90%Z eq_refl). lia.
    + destruct k as [|[|k]].
      * exfalso. injection Hh as <-. unfold HIGH_SCORE_EMPTY in Hb. lia.
      * exact Heq.
      * destruct (Hbefore 1%nat 90%Z ltac:(lia) eq_refl). lia.
Defined.

(** ** Blocks come back only through the angel *)

Lemma exists_set_block_keep bl i j r :
  (0 ≤ i)%Z → (0 ≤ j)%Z →
  exists_ (block_at (set_block i (mkBlock (exists_ (block_at bl i)) r) bl) j)
  = exists_ (block_at bl j).
Proof.
  intros Hi Hj. destruct (decide (i = j)) as [->|Hne].
  - unfold block_at, set_block. destruct (bl !! Z.to_nat j) as [b|] eqn:Hb.
    + rewrite list_lookup_insert_eq; [done|]. by apply lookup_lt_Some in Hb.
    + rewrite list_insert_ge; [by rewrite Hb|]. by apply lookup_ge_None.
  - by apply (f_equal exists_), block_at_set_block_ne.
Qed.

Lemma exists_set_block_gone bl i j r :
  (0 ≤ i)%Z → (0 ≤ j)%Z →
  exists_ (block_at (set_block i (mkBlock false r) bl) j) = true →
  exists_ (block_at bl j) = true.
Proof.
  intros Hi Hj. destruct (decide (i = j)) as [->|Hne].
  - unfold block_at, set_block. destruct (bl !! Z.to_nat j) as [b|] eqn:Hb.
    + rewrite list_lookup_insert_eq; [done|]. by apply lookup_lt_Some in Hb.
    + rewrite list_insert_ge; [by rewrite Hb|]. by apply lookup_ge_None.
  - by rewrite block_at_set_block_ne.
Qed.

(** What [spawn_angel] does to the angel, and that it keeps [exists]. *)
Lemma spawn_angel_effect (i : Z) (g : Game) :
  (∀ j, (0 ≤ j)%Z →
        exists_ (block_at (blocks (spawn_angel i g)) j) = exists_ (block_at (blocks g) j)) ∧
  (angel (spawn_angel i g) = angel g ∨
   a_active (angel g) = false ∧ (0 ≤ i < GAME_WIDTH)%Z ∧
   exists_ (block_at (blocks g) i) = false ∧
   angel (spawn_angel i g) = mkAngel (of_int i +~ lit 5 1) (lit 0 1) true i false).
Proof.
  unfold spawn_angel.
  destruct (Z.ltb_spec i 0); [by split; [|left]|].
  destruct (Z.geb_spec i GAME_WIDTH); [by split; [|left]|]. cbn [orb].
  destruct (exists_ (block_at (blocks g) i)) eqn:He; [by split; [|left]|]. cbn [orb].
  destruct (is_repairing _); [by split; [|left]|].
  destruct (a_active (angel g)) eqn:Ha; [by split; [|left]|].
  cbn [blocks angel set_blocks set_angel]. split.
  - intros j Hj. rewrite <- He at 1. by apply exists_set_block_keep.
  - right. repeat split; try done; lia.
Qed.

Lemma update_tongue_effect (dt : f32) (g : Game) :
  (∀ j, (0 ≤ j)%Z →
        exists_ (block_at (blocks (update_tongue dt g)) j) = exists_ (block_at (blocks g) j)) ∧
  (angel (update_tongue dt g) = angel g ∨
   a_active (angel g) = false ∧
   ∃ d, (0 ≤ d < GAME_WIDTH)%Z ∧ exists_ (block_at (blocks g) d) = false ∧
        angel (update_tongue dt g) = mkAngel (of_int d +~ lit 5 1) (lit 0 1) true d false).
Proof.
  unfold update_tongue. destruct (t_active _); [|by split; [|left]].
  destruct (going_back _).
  - unfold tongue_retract. set (g1 := set_pyoro _ g).
    destruct (carry_bean_frame g1) as (_ & _ & Hbl & Han & _).
    change (blocks g1) with (blocks g) in Hbl. change (angel g1) with (angel g) in Han.
    destruct (_ >=~ _); [|rewrite Hbl, Han; by split; [|left]].
    unfold tongue_back. cbn [blocks angel set_pyoro].
    destruct (caught_bean _); [|rewrite Hbl, Han; by split; [|left]].
    destruct (find_bean _ _ _) as [i|]; [|rewrite Hbl, Han; by split; [|left]].
    unfold collect_bean. cbn [blocks angel set_beans set_score].
    destruct (decide _); [|rewrite Hbl, Han; by split; [|left]].
    destruct (_ >=? _)%Z; [|rewrite Hbl, Han; by split; [|left]].
    destruct (spawn_angel_effect (find_destroyed_block (carry_bean g1)) (carry_bean g1))
      as [Hex Hangel].
    rewrite Hbl, Han in *. split; [exact Hex|].
    destruct Hangel as [->|(Ha & Hd & He & ->)]; [by left|].
    right. split; [done|]. by eexists.
  - unfold tongue_extend. case_match. cbn. by split; [|left].
Qed.

Lemma land_bean_blocks (i : nat) (g : Game) (j : Z) :
  (0 ≤ j)%Z →
  exists_ (block_at (blocks (land_bean i g)) j) = true →
  exists_ (block_at (blocks g) j) = true.
Proof.
  intros Hj. unfold land_bean. cbn [blocks set_beans set_blocks].
  set (bi := to_int (b_x (bean_at (beans g) i))).
  destruct ((0 <=? bi)%Z && (bi <? GAME_WIDTH)%Z) eqn:Hr; [|done].
  destruct (exists_ (block_at (blocks g) bi)) eqn:He; [|done].
  intros H. apply exists_set_block_gone in H; [done|lia|done].
Qed.

Lemma update_beans_loop_blocks (dt : f32) (idx : list nat) (g : Game) (j : Z) :
  (0 ≤ j)%Z →
  exists_ (block_at (blocks (update_beans_loop dt idx g)) j) = true →
  exists_ (block_at (blocks g) j) = true.
Proof.
  intros Hj. revert g. induction idx as [|k idx IH]; intros g; [done|].
  rewrite update_beans_loop_cons. cbv zeta.
  destruct (_ && _); [|apply IH].
  destruct (bean_hits_pyoro _ _); [done|].
  intros H. apply IH in H. revert H.
  destruct (_ >=~ _); [|done].
  intros H. by apply land_bean_blocks in H.
Qed.

Lemma update_beans_blocks (dt : f32) (g : Game) (j : Z) :
  (0 ≤ j)%Z →
  exists_ (block_at (blocks (update_beans dt g)) j) = true →
  exists_ (block_at (blocks g) j) = true.
Proof. apply update_beans_loop_blocks. Qed.

Lemma update_angel_restores (dt : f32) (g : Game) (j : Z) :
  (0 ≤ j)%Z →
  exists_ (block_at (blocks (update_angel dt g)) j) = true →
  exists_ (block_at (blocks g) j) = true ∨
  (a_active (angel (update_angel dt g)) = true ∧ going_up (angel (update_angel dt g)) = true ∧
   target_block_index (angel (update_angel dt g)) = j ∧
   a_active (angel g) = true ∧ going_up (angel g) = false).
Proof.
  intros Hj. unfold update_angel.
  destruct (a_active (angel g)) eqn:Ha; [|by left].
  destruct (going_up (angel g)) eqn:Hu; cbn [negb]; [by left|].
  destruct (_ >=~ _); [|by left].
  cbn [blocks angel set_blocks set_angel a_active going_up target_block_index].
  destruct (_ && _) eqn:Hr; [|by left].
  destruct (decide (target_block_index (angel g) = j)) as [->|Hne]; [by right|].
  rewrite block_at_set_block_ne by lia. by left.
Qed.

(** Blocks and angel at the end of a tick are those the angel phase
    leaves. *)
Lemma update_game_blocks_angel (delta_time : f32) (r1 r2 r3 : Z) (w : World) :
  state (s_game w) = GAME_STATE_PLAYING →
  game_paused (s_game w) = false →
  dead (pyoro (s_game w)) = false →
  let g5 := update_angel (delta_time *~ game_speed (s_game w))
              (update_beans (delta_time *~ game_speed (s_game w))
                 (s_game (before_beans delta_time w))) in
  blocks (s_game (update_game delta_time r1 r2 r3 w)) = blocks g5 ∧
  angel (s_game (update_game delta_time r1 r2 r3 w)) = angel g5.
Proof.
  intros Hst Hp Hd g5. rewrite update_game_playing by done. cbv zeta. cbn [s_game].
  destruct (spawn_phase_frame (delta_time *~ game_speed (s_game w)) r1 r2 r3 g5)
    as (_ & _ & Hbl & Han & _).
  split; [exact Hbl|exact Han].
Qed.

Lemma before_beans_blocks (delta_time : f32) (w : World) (j : Z) :
  (0 ≤ j)%Z →
  exists_ (block_at (blocks (s_game (before_beans delta_time w))) j)
  = exists_ (block_at (blocks (s_game w)) j).
Proof.
  intros Hj. unfold before_beans. cbn [s_game set_game].
  rewrite (proj1 (update_tongue_effect _ _)) by done.
  match goal with |- context [drain_step_queue ?w1] =>
    destruct (drain_step_queue_game w1) as [x ->] end.
  reflexivity.
Qed.

Lemma update_game_blocks_stopped (delta_time : f32) (r1 r2 r3 : Z) (w : World) :
  state (s_game w) ≠ GAME_STATE_PLAYING ∨ game_paused (s_game w) = true ∨
  dead (pyoro (s_game w)) = true →
  blocks (s_game (update_game delta_time r1 r2 r3 w)) = blocks (s_game w).
Proof.
  intros Hc.
  destruct (update_game_cases w) as [Hidle|[(Hst & Hp & Hd)|(Hst & Hp & Hd)]].
  - rewrite update_game_idle by done. reflexivity.
  - rewrite update_game_dead by done. cbv zeta.
    destruct (_ <=~ _); reflexivity.
  - exfalso. destruct Hc as [?|[?|?]]; congruence.
Qed.

Lemma update_game_blocks_back (delta_time : f32) (r1 r2 r3 : Z) (w : World) (j : Z) :
  (0 ≤ j)%Z →
  exists_ (block_at (blocks (s_game w)) j) = false →
  exists_ (block_at (blocks (s_game (update_game delta_time r1 r2 r3 w))) j) = true →
  a_active (angel (s_game (update_game delta_time r1 r2 r3 w))) = true ∧
  going_up (angel (s_game (update_game delta_time r1 r2 r3 w))) = true ∧
  target_block_index (angel (s_game (update_game delta_time r1 r2 r3 w))) = j.
Proof.
  intros Hj Hgone Hback.
  destruct (update_game_cases w) as [Hidle|[(Hst & Hp & Hd)|(Hst & Hp & Hd)]].
  - rewrite update_game_blocks_stopped in Hback; [congruence|].
    destruct Hidle; [by left|by right; left].
  - rewrite update_game_blocks_stopped in Hback; [congruence|by right; right].
  - destruct (update_game_blocks_angel delta_time r1 r2 r3 w Hst Hp Hd) as [Hbl Han].
    cbv zeta in Hbl, Han. rewrite Hbl in Hback. rewrite Han.
    apply update_angel_restores in Hback; [|done].
    destruct Hback as [H4|(? & ? & ? & _)]; [|done].
    exfalso. apply update_beans_blocks in H4; [|done].
    rewrite before_beans_blocks in H4 by done. congruence.
Qed.

Lemma button_blocks (e : event) (w : World) :
  (∀ r1 r2 r3, e ≠ EvTick r1 r2 r3) →
  ¬ (e = EvSelect ∧ state (s_game w) = GAME_STATE_MENU) →
  blocks (s_game (handle e w)) = blocks (s_game w) ∧
  angel (s_game (handle e w)) = angel (s_game w).
Proof.
  intros Htick Hmenu. destruct e as [r1 r2 r3| | | | |]; cbn [handle].
  - by destruct (Htick r1 r2 r3).
  - unfold prv_select_click_handler. destruct (state (s_game w)) eqn:Hst.
    + by destruct Hmenu.
    + repeat case_match; split; reflexivity.
    + split; reflexivity.
  - unfold prv_up_click_handler, direction_click. repeat case_match; split; reflexivity.
  - unfold prv_down_click_handler, direction_click. repeat case_match; split; reflexivity.
  - unfold prv_up_repeating_click_handler, direction_click.
    repeat case_match; split; reflexivity.
  - unfold prv_down_repeating_click_handler, direction_click.
    repeat case_match; split; reflexivity.
Qed.

(** X15: a block that does not exist before an event and exists after it
    has been put back by a new game (select in the menu) or by the angel,
    which after the event is active, on its way up, with that block as
    its target; a bean, the tongue or a walking Pyoro never restore a
    block. *)
Theorem blocks_return_only_by_angel (e : event) (w : World) (j : Z) :
  (0 ≤ j)%Z →
  exists_ (block_at (blocks (s_game w)) j) = false →
  exists_ (block_at (blocks (s_game (handle e w))) j) = true →
  (e = EvSelect ∧ state (s_game w) = GAME_STATE_MENU) ∨
  ((∃ r1 r2 r3, e = EvTick r1 r2 r3) ∧
   a_active (angel (s_game (handle e w))) = true ∧
   going_up (angel (s_game (handle e w))) = true ∧
   target_block_index (angel (s_game (handle e w))) = j).
Proof.
  intros Hj Hgone Hback. destruct e as [r1 r2 r3| | | | |]; cbn [handle] in *.
  - right. split; [by exists r1, r2, r3|]. by apply update_game_blocks_back.
  - destruct (decide (state (s_game w) = GAME_STATE_MENU)) as [Hm|Hm]; [by left|].
    destruct (button_blocks EvSelect w) as [Hbl _]; [done|tauto|].
    cbn [handle] in Hbl. rewrite Hbl in Hback. congruence.
  - destruct (button_blocks EvUp w) as [Hbl _]; [done|intros [? _]; done|].
    cbn [handle] in Hbl. rewrite Hbl in Hback. congruence.
  - destruct (button_blocks EvDown w) as [Hbl _]; [done|intros [? _]; done|].
    cbn [handle] in Hbl. rewrite Hbl in Hback. congruence.
  - destruct (button_blocks EvUpRepeat w) as [Hbl _]; [done|intros [? _]; done|].
    cbn [handle] in Hbl. rewrite Hbl in Hback. congruence.
  - destruct (button_blocks EvDownRepeat w) as [Hbl _]; [done|intros [? _]; done|].
    cbn [handle] in Hbl. rewrite Hbl in Hback. congruence.
Qed.

(** Twenty-eight ticks after [descending_world]: the angel is about to land on the
    hole at block 5. *)
Definition landing_world : World :=
  Eval vm_compute in run (ticks 28 15 99 0) descending_world.

Lemma blocks_return_only_by_angel_witness :
  exists_ (block_at (blocks (s_game landing_world)) 5) = false ∧
  exists_ (block_at (blocks (s_game (handle (EvTick 15 99 0) landing_world))) 5) = true ∧
  a_active (angel (s_game (handle (EvTick 15 99 0) landing_world))) = true ∧
  going_up (angel (s_game (handle (EvTick 15 99 0) landing_world))) = true ∧
  target_block_index (angel (s_game (handle (EvTick 15 99 0) landing_world))) = 5%Z.
Proof.
  split; [vm_compute; reflexivity|]. split; [vm_compute; reflexivity|].
  pose proof (blocks_return_only_by_angel (EvTick 15 99 0) landing_world 5) as H.
  destruct H as [[H _]|(_ & H)]; [lia|vm_compute; reflexivity|vm_compute; reflexivity| |exact H].
  exfalso. clear -H. discriminate H.
Defined.

(** ** The extending tongue *)

(** [find_bean] finds a slot that satisfies [p] and has none before it. *)
Lemma find_bean_first (p : Bean → bool) (bs : list Bean) (i : nat) (b : Bean) :
  bs !! i = Some b → p b = true →
  (∀ k c, (k < i)%nat → bs !! k = Some c → p c = false) →
  find_bean p 0 bs = Some i.
Proof.
  intros Hb Hp Hbefore. destruct (find_bean p 0 bs) as [i'|] eqn:Hf.
  - apply find_bean_Some in Hf as (_ & (b' & Hb' & Hp') & Hbefore').
    rewrite Nat.sub_0_r in Hb'. f_equal.
    destruct (Nat.lt_trichotomy i' i) as [Hlt|[Heq|Hgt]]; [|exact Heq|].
    + rewrite (Hbefore i' b' Hlt Hb') in Hp'. discriminate.
    + rewrite (Hbefore' i b) in Hp; [discriminate|lia|exact Hb].
  - rewrite find_bean_None in Hf. rewrite (Hf i b Hb) in Hp. discriminate.
Qed.

(** Where the tip of the tongue is after extending for [dt]. *)
Definition tip_x (dt : f32) (g : Game) : f32 :=
  t_x (tongue (pyoro g)) +~ of_int (t_direction (tongue (pyoro g))) *~ (TONGUE_SPEED *~ dt).

Definition tip_y (dt : f32) (g : Game) : f32 :=
  t_y (tongue (pyoro g)) -~ TONGUE_SPEED *~ dt.

(** The tip has left the field by the left, the right or the top. *)
Definition tip_outside (dt : f32) (g : Game) : bool :=
  (tip_x dt g <~ of_int 0) || (tip_x dt g >~ of_int GAME_WIDTH) || (tip_y dt g <~ of_int 0).

(** X16: when the extending tongue overlaps free beans, the one in the
    lowest slot is caught and no other: that bean gets its [caught] flag,
    every other bean is as before, and the tongue, moved to its new tip,
    turns back with [caught_bean] set. *)
Theorem tongue_extend_catches_first (dt : f32) (g : Game) (i : nat) (b : Bean) :
  beans g !! i = Some b →
  tongue_hits (tip_x dt g) (tip_y dt g) b = true →
  (∀ k c, (k < i)%nat → beans g !! k = Some c →
          tongue_hits (tip_x dt g) (tip_y dt g) c = false) →
  beans (tongue_extend dt g) = <[i := set_caught true b]> (beans g) ∧
  tongue (pyoro (tongue_extend dt g))
  = mkTongue (t_active (tongue (pyoro g))) (tip_x dt g) (tip_y dt g)
             (t_direction (tongue (pyoro g))) true true.
Proof.
  intros Hb Hhit Hbefore. unfold tongue_extend. cbv zeta.
  change (t_x (tongue (pyoro g)) +~ _) with (tip_x dt g).
  change (t_y (tongue (pyoro g)) -~ _) with (tip_y dt g).
  rewrite (find_bean_first _ _ i b Hb Hhit Hbefore).
  unfold bean_at. rewrite Hb. cbn [default beans set_beans pyoro set_pyoro tongue set_tongue].
  split; [reflexivity|]. by destruct (_ || _).
Qed.

(** X17: when the extending tongue overlaps no free bean, the beans are
    left alone and the tongue moves to its new tip; it turns back exactly
    when it already was on its way back or the tip has left the field by
    the left, the right or the top, and it carries what it carried. *)
Theorem tongue_extend_misses (dt : f32) (g : Game) :
  (∀ k c, beans g !! k = Some c → tongue_hits (tip_x dt g) (tip_y dt g) c = false) →
  beans (tongue_extend dt g) = beans g ∧
  tongue (pyoro (tongue_extend dt g))
  = mkTongue (t_active (tongue (pyoro g))) (tip_x dt g) (tip_y dt g)
             (t_direction (tongue (pyoro g)))
             (going_back (tongue (pyoro g)) || tip_outside dt g)
             (caught_bean (tongue (pyoro g))).
Proof.
  intros Hnone. unfold tongue_extend. cbv zeta.
  change (t_x (tongue (pyoro g)) +~ _) with (tip_x dt g).
  change (t_y (tongue (pyoro g)) -~ _) with (tip_y dt g).
  rewrite (proj2 (find_bean_None _ 0 _) Hnone).
  cbn [default beans set_beans pyoro set_pyoro tongue set_tongue].
  split; [reflexivity|]. unfold tip_outside.
  destruct (_ || _); cbn [t_active t_x t_y t_direction caught_bean];
    [by rewrite orb_true_r|by rewrite orb_false_r; destruct (tongue (pyoro g))].
Qed.

(** The catch of [catch_trace], two ticks earlier: the tongue has just been
    shot, and one tick later its tip is about to reach the bean in slot 1. *)
Definition shooting_world : World :=
  Eval vm_compute in
    run ([EvSelect] ++ ticks 560 5 99 0 ++ ticks 400 15 99 0 ++ [EvSelect]) (initial empty_scores).

Definition aiming_world : World :=
  Eval vm_compute in run (ticks 1 15 99 0) shooting_world.

Lemma tongue_extend_catches_first_witness :
  map caught (beans (s_game aiming_world)) = [false; false; false; false; false] ∧
  map caught (beans (tongue_extend (lit 16 3) (s_game aiming_world)))
  = [false; true; false; false; false] ∧
  going_back (tongue (pyoro (tongue_extend (lit 16 3) (s_game aiming_world)))) = true.
Proof.
  split; [vm_compute; reflexivity|].
  pose proof (tongue_extend_catches_first (lit 16 3) (s_game aiming_world) 1
                (bean_at (beans (s_game aiming_world)) 1)) as H.
  destruct H as [Hb Ht].
  - vm_compute. reflexivity.
  - vm_compute. reflexivity.
  - intros k c Hk Hc. destruct k as [|k]; [|lia].
    vm_compute in Hc. injection Hc as <-. vm_compute. reflexivity.
  - rewrite Hb, Ht. split; [vm_compute; reflexivity|reflexivity].
Defined.

Lemma tongue_extend_misses_witness :
  beans (tongue_extend (lit 16 3) (s_game shooting_world)) = beans (s_game shooting_world) ∧
  going_back (tongue (pyoro (tongue_extend (lit 16 3) (s_game shooting_world)))) = false.
Proof.
  pose proof (tongue_extend_misses (lit 16 3) (s_game shooting_world)) as H.
  destruct H as [Hb Ht].
  - intros k c Hc.
    do 5 (destruct k as [|k];
          [vm_compute in Hc; injection Hc as <-; vm_compute; reflexivity|]).
    vm_compute in Hc. discriminate Hc.
  - split; [exact Hb|]. rewrite Ht. vm_compute. reflexivity.
Defined.

(** ** A block under repair is a hole *)

Definition hole_inv (g : Game) : Prop :=
  ∀ j, (0 ≤ j)%Z → is_repairing (block_at (blocks g) j) = true →
       exists_ (block_at (blocks g) j) = false.

Lemma hole_inv_blocks (g g' : Game) : blocks g' = blocks g → hole_inv g → hole_inv g'.
Proof. intros Hb Hinv. unfold hole_inv. rewrite Hb. exact Hinv. Qed.

(** Flags under repair are kept and no block comes back. *)
Lemma hole_inv_same (g g' : Game) :
  hole_inv g → repair_same g g' →
  (∀ j, (0 ≤ j)%Z → exists_ (block_at (blocks g') j) = true →
        exists_ (block_at (blocks g) j) = true) →
  hole_inv g'.
Proof.
  intros Hinv (_ & _ & Hrep) Hex j Hj Hr. rewrite Hrep in Hr by exact Hj.
  specialize (Hinv j Hj Hr). specialize (Hex j Hj).
  destruct (exists_ (block_at (blocks g') j)); [|reflexivity].
  rewrite Hex in Hinv; [discriminate|reflexivity].
Qed.

Lemma spawn_angel_hole_inv (i : Z) (g : Game) : hole_inv g → hole_inv (spawn_angel i g).
Proof.
  intros Hinv j Hj. rewrite (proj1 (spawn_angel_effect i g)) by exact Hj.
  unfold spawn_angel.
  destruct (_ || _) eqn:Hrange; [by apply Hinv|].
  apply orb_false_iff in Hrange as [H0 H20].
  destruct (exists_ (block_at (blocks g) i)) eqn:He; [by apply Hinv|]. cbn [orb].
  destruct (is_repairing (block_at (blocks g) i)); [by apply Hinv|].
  destruct (a_active (angel g)); [by apply Hinv|].
  cbn [blocks set_blocks set_angel].
  destruct (decide (i = j)) as [<-|Hne]; [intros _; exact He|].
  rewrite block_at_set_block_ne by lia. by apply Hinv.
Qed.

Lemma update_angel_hole_inv (dt : f32) (g : Game) : hole_inv g → hole_inv (update_angel dt g).
Proof.
  intros Hinv. unfold update_angel.
  destruct (a_active (angel g)); [|exact Hinv].
  destruct (negb _); [|by apply (hole_inv_blocks g)].
  destruct (_ >=~ _); [|by apply (hole_inv_blocks g)].
  intros j Hj. cbn [blocks set_blocks set_angel].
  destruct (_ && _) eqn:Hr; [|by apply Hinv].
  destruct (decide (target_block_index (angel g) = j)) as [<-|Hne].
  - unfold block_at, set_block.
    destruct (blocks g !! Z.to_nat (target_block_index (angel g))) as [b|] eqn:Hb.
    + rewrite list_lookup_insert_eq by (by apply lookup_lt_Some in Hb). discriminate.
    + rewrite list_insert_ge by (by apply lookup_ge_None). rewrite Hb. discriminate.
  - rewrite !block_at_set_block_ne by lia. by apply Hinv.
Qed.

Lemma init_game_hole_inv (g : Game) : hole_inv (init_game g).
Proof.
  intros j Hj. unfold init_game, block_at. cbn [blocks].
  rewrite list_lookup_fmap. destruct (blocks g !! Z.to_nat j); discriminate.
Qed.

Lemma collect_bean_hole_inv (i : nat) (g : Game) : hole_inv g → hole_inv (collect_bean i g).
Proof.
  intros Hinv. unfold collect_bean.
  match goal with |- context [if decide ?P then ?a else ?c] =>
    set (g1 := if decide P then a else c) end.
  assert (Hg1 : hole_inv g1).
  { unfold g1. repeat case_match; try done. by apply spawn_angel_hole_inv. }
  by apply (hole_inv_blocks g1).
Qed.

Lemma update_tongue_hole_inv (dt : f32) (g : Game) : hole_inv g → hole_inv (update_tongue dt g).
Proof.
  intros Hinv. unfold update_tongue. destruct (t_active _); [|done].
  destruct (going_back _).
  - unfold tongue_retract. set (g1 := set_pyoro _ g).
    assert (Hg2 : hole_inv (carry_bean g1)).
    { destruct (carry_bean_frame g1) as (_ & _ & Hb & _). by apply (hole_inv_blocks g). }
    destruct (_ >=~ _); [|done].
    unfold tongue_back.
    match goal with |- context [set_pyoro _ ?g3] =>
      assert (Hg3 : hole_inv g3); [|by apply (hole_inv_blocks g3)] end.
    repeat case_match; try done. by apply collect_bean_hole_inv.
  - unfold tongue_extend. case_match. by apply (hole_inv_blocks g).
Qed.

Lemma update_beans_hole_inv (dt : f32) (g : Game) : hole_inv g → hole_inv (update_beans dt g).
Proof.
  intros Hinv. apply (hole_inv_same g); [exact Hinv|apply update_beans_loop_repair_same|].
  intros j Hj. by apply update_beans_blocks.
Qed.

Lemma before_beans_hole_inv (delta_time : f32) (w : World) :
  hole_inv (s_game w) → hole_inv (s_game (before_beans delta_time w)).
Proof.
  intros Hinv. unfold before_beans. cbn [s_game set_game]. apply update_tongue_hole_inv.
  match goal with |- context [drain_step_queue ?w1] =>
    destruct (drain_step_queue_game w1) as [x ->] end.
  by apply (hole_inv_blocks (s_game w)).
Qed.

Lemma update_game_hole_inv (delta_time : f32) (r1 r2 r3 : Z) (w : World) :
  hole_inv (s_game w) → hole_inv (s_game (update_game delta_time r1 r2 r3 w)).
Proof.
  intros Hinv.
  destruct (update_game_cases w) as [Hidle|[(Hst & Hp & Hd)|(Hst & Hp & Hd)]].
  - apply (hole_inv_blocks (s_game w)); [|exact Hinv].
    apply update_game_blocks_stopped. destruct Hidle; [by left|by right; left].
  - apply (hole_inv_blocks (s_game w)); [|exact Hinv].
    apply update_game_blocks_stopped. by right; right.
  - destruct (update_game_blocks_angel delta_time r1 r2 r3 w Hst Hp Hd) as [Hbl _].
    cbv zeta in Hbl.
    eapply hole_inv_blocks; [exact Hbl|].
    by apply update_angel_hole_inv, update_beans_hole_inv, before_beans_hole_inv.
Qed.

Lemma handle_hole_inv (e : event) (w : World) :
  hole_inv (s_game w) → hole_inv (s_game (handle e w)).
Proof.
  intros Hinv. destruct e; cbn [handle].
  - by apply update_game_hole_inv.
  - unfold prv_select_click_handler.
    destruct (state (s_game w)).
    + unfold reset_game. cbn [s_game].
      apply (hole_inv_blocks (init_game (s_game w))); [reflexivity|apply init_game_hole_inv].
    + by repeat case_match.
    + done.
  - unfold prv_up_click_handler, direction_click. by repeat case_match.
  - unfold prv_down_click_handler, direction_click. by repeat case_match.
  - unfold prv_up_repeating_click_handler, direction_click. by repeat case_match.
  - unfold prv_down_repeating_click_handler, direction_click. by repeat case_match.
Qed.

Lemma reachable_hole_inv (w : World) : reachable w → hole_inv (s_game w).
Proof.
  induction 1 as [hs Hhs|e w Hw IH].
  - apply init_game_hole_inv.
  - by apply handle_hole_inv.
Qed.

(** X18: in every reachable state a block that is marked as under repair
    does not exist: the angel is only ever sent to a hole, and a block
    that is put back loses its mark in the same step. *)
Theorem repairing_block_is_a_hole (w : World) (j : Z) :
  reachable w → (0 ≤ j)%Z →
  is_repairing (block_at (blocks (s_game w)) j) = true →
  exists_ (block_at (blocks (s_game w)) j) = false.
Proof. intros Hw Hj Hr. by apply (reachable_hole_inv w Hw). Qed.

Lemma repairing_block_is_a_hole_witness :
  is_repairing (block_at (blocks (s_game descending_world)) 5) = true ∧
  exists_ (block_at (blocks (s_game descending_world)) 5) = false.
Proof.
  split; [vm_compute; reflexivity|].
  apply (repairing_block_is_a_hole descending_world 5);
    [exact descending_world_reachable|lia|vm_compute; reflexivity].
Defined.

(** ** Further example states *)

(** [dead_world] 54 ticks later: the next tick ends the game. *)
Definition last_breath_world : World :=
  Eval vm_compute in run (ticks 54 10 99 0) dead_world.

Lemma scores_recorded_at_game_over_witness :
  state (s_game (handle (EvTick 10 99 0) last_breath_world)) = GAME_STATE_GAME_OVER ∧
  s_high_scores (handle (EvTick 10 99 0) last_breath_world)
  = [0; -1; -1; -1; -1; -1; -1; -1; -1; -1]%Z ∧
  s_last_game_score (handle (EvTick 10 99 0) last_breath_world) = 0%Z ∧
  s_high_scores (handle EvUp last_breath_world) = s_high_scores last_breath_world.
Proof.
  pose proof (scores_recorded_at_game_over (EvTick 10 99 0) last_breath_world) as [H _].
  pose proof (scores_recorded_at_game_over EvUp last_breath_world) as [_ H'].
  split; [vm_compute; reflexivity|].
  destruct H as (Hhs & Hlast & _); [vm_compute; reflexivity..|].
  destruct H' as [Hhs' _].
  { intros [_ Hover]. vm_compute in Hover. discriminate Hover. }
  rewrite Hhs, Hlast. split; [vm_compute; reflexivity|].
  split; [vm_compute; reflexivity|exact Hhs'].
Defined.

(** The three edges of the state machine on recorded games, and a button
    that leaves the menu alone. *)
Lemma game_state_transitions_witness :
  state (s_game (handle EvSelect (initial empty_scores))) = GAME_STATE_PLAYING ∧
  state (s_game (handle (EvTick 10 99 0) last_breath_world)) = GAME_STATE_GAME_OVER ∧
  state (s_game (handle EvSelect (handle (EvTick 10 99 0) last_breath_world)))
  = GAME_STATE_MENU ∧
  state (s_game (handle EvSelect last_breath_world)) = GAME_STATE_PLAYING ∧
  state (s_game (handle EvUp (initial empty_scores))) = GAME_STATE_MENU.
Proof.
  rewrite !game_state_transitions. repeat split; vm_compute; reflexivity.
Defined.
